(** * QuickTalk: recording sessions, transcription pipeline and session log

    A shallow embedding of [simple_transcriber.py], [session_logger.py] and
    [simple_visual_indicators.py].

    Conventions of the embedding.

    - The module-level globals of [simple_transcriber.py] are the fields of
      the record [World]; the objects they refer to (the session logger, the
      visual indicator, the timers, the session log file, the temporary WAV
      file) live in the same record, so that a method call on a collaborator
      is a state change of the world.
    - Python exceptions are explicit: a computation is a function from a
      state to a result ([Val] or [Raise]), a new state and the list of
      observable events it produced.  [try]/[except]/[finally] are
      combinators.  An early [return] inside an [if] is written as the
      [else] branch holding the rest of the block.
    - Calls that leave the process (audio device, file writes and removals,
      the speech-to-text engine, clipboard, synthetic keystrokes, desktop
      notifications, tray icon) may raise; what they do in one invocation is
      read from an environment record.  In-process computations (list and
      array manipulation, [logging], [time.sleep], [os.path.exists]) are
      total.
    - Wall-clock times and durations (Python floats) are rationals.
    - The functions of [simple_transcriber.py] run on several threads and
      the module has no lock.  A function of the embedding is the call
      running without another thread in between; [Transcriber.interleave]
      lets the calls take turns at the places where they wait, and a
      statement about a function says what the call does when nothing runs
      in between, unless it is about [interleave]. *)

From Stdlib Require Import List Bool Arith NArith Lia String Ascii QArith Lqa.
Import ListNotations.
Open Scope string_scope.
Open Scope list_scope.

Set Implicit Arguments.

(** ** Exceptions, results and the computation monad *)

(** An exception is identified with its message, [str(e)]. *)
Definition Exn := string.

Inductive Res (A : Type) : Type :=
| Val (a : A)
| Raise (e : Exn).
Arguments Val {A} a.
Arguments Raise {A} e.

Section Proc.
(** [S] is the state a computation runs on, [E] the type of events. *)
Variables S E : Type.

Definition Proc (A : Type) : Type := S -> Res A * S * list E.

Definition ret {A} (a : A) : Proc A := fun s => (Val a, s, []).

Definition raise {A} (e : Exn) : Proc A := fun s => (Raise e, s, []).

Definition bind {A B} (m : Proc A) (f : A -> Proc B) : Proc B :=
  fun s =>
    match m s with
    | (Val a, s1, t1) =>
        match f a s1 with
        | (r, s2, t2) => (r, s2, t1 ++ t2)
        end
    | (Raise e, s1, t1) => (Raise e, s1, t1)
    end.

(** [try: m except Exception as e: h e] *)
Definition try_except {A} (m : Proc A) (h : Exn -> Proc A) : Proc A :=
  fun s =>
    match m s with
    | (Val a, s1, t1) => (Val a, s1, t1)
    | (Raise e, s1, t1) =>
        match h e s1 with
        | (r, s2, t2) => (r, s2, t1 ++ t2)
        end
    end.

(** [try: m finally: c]: [c] runs on every exit of [m]; an exception of
    [c] replaces the result of [m]. *)
Definition try_finally {A} (m : Proc A) (c : Proc unit) : Proc A :=
  fun s =>
    match m s with
    | (r, s1, t1) =>
        match c s1 with
        | (Val _, s2, t2) => (r, s2, t1 ++ t2)
        | (Raise e, s2, t2) => (Raise e, s2, t1 ++ t2)
        end
    end.

Definition emit (e : E) : Proc unit := fun s => (Val tt, s, [e]).
Definition get : Proc S := fun s => (Val s, s, []).
Definition modify (f : S -> S) : Proc unit := fun s => (Val tt, f s, []).

(** An external call whose outcome is dictated by the environment. *)
Definition outcome (o : option Exn) : Proc unit :=
  match o with
  | None => ret tt
  | Some e => raise e
  end.

Definition when (b : bool) (m : Proc unit) : Proc unit :=
  if b then m else ret tt.
End Proc.

Arguments ret {S E A} a.
Arguments raise {S E A} e.
Arguments bind {S E A B} m f.
Arguments try_except {S E A} m h.
Arguments try_finally {S E A} m c.
Arguments emit {S E} e.
Arguments get {S E}.
Arguments modify {S E} f.
Arguments outcome {S E} o.
Arguments when {S E} b m.

Declare Scope proc_scope.
Delimit Scope proc_scope with proc.
Notation "x <- m ;; k" := (bind m (fun x => k))
  (at level 61, m at next level, right associativity) : proc_scope.
Notation "m ;; k" := (bind m (fun _ => k))
  (at level 61, right associativity) : proc_scope.
Open Scope proc_scope.

(** Projections of the triple a computation returns. *)
Definition result {S E A} (x : Res A * S * list E) : Res A := fst (fst x).
Definition state {S E A} (x : Res A * S * list E) : S := snd (fst x).
Definition trace {S E A} (x : Res A * S * list E) : list E := snd x.
Arguments result {S E A} x /.
Arguments state {S E A} x /.
Arguments trace {S E A} x /.

(** The run [x] preceded by the events [t]. *)
Definition prepend {S E A} (t : list E) (x : Res A * S * list E)
    : Res A * S * list E :=
  (result x, state x, t ++ trace x).

(** Runs a computation of a component on the part of a larger state. *)
Definition zoom {S T E A} (proj : T -> S) (inj : S -> T -> T)
    (m : Proc S E A) : Proc T E A :=
  fun t =>
    match m (proj t) with
    | (r, s1, tr) => (r, inj s1 t, tr)
    end.

(** ** Texts

    A Python [str] whose characters the code looks at is the list of its
    Unicode code points: [len(s)] is the length of the list, [s[:n]] its
    first [n] elements.  The strings the code only passes on (messages of
    exceptions, fixed messages, paths) are Coq strings. *)
Definition Str := list N.

(** The text a literal of ASCII characters stands for. *)
Definition text_of (s : string) : Str :=
  map N_of_ascii (list_ascii_of_string s).

(** Truth value of a [str]: every string but the empty one is true. *)
Definition truthy_str (s : Str) : bool :=
  match s with
  | [] => false
  | _ :: _ => true
  end.

(** ** Times *)

Definition Timestamp := Q.

(** Truth value of a Python float: every float but zero is true. *)
Definition truthy_float (x : Q) : bool := negb (Qeq_bool x 0).

(** Truth value of an optional float ([None] is false). *)
Definition truthy_opt_float (x : option Q) : bool :=
  match x with
  | None => false
  | Some v => truthy_float v
  end.

Definition is_some {A} (x : option A) : bool :=
  match x with
  | None => false
  | Some _ => true
  end.

(** ** Observable events

    One constructor per [logging] call of the three modules, named after
    the message it prints, and one per call that leaves the module. *)

Inductive Level := DEBUG | INFO | WARNING | ERROR.

Inductive LogMsg :=
(* session_logger.py *)
| MCreatedLogFolder
| MSessionLogCreated
| MCreateSessionFailed (e : Exn)
| MNoSessionFile
| MTranscriptionLogged (n : nat)
| MLogTranscriptionFailed (e : Exn)
| MErrorLogged
| MLogErrorFailed (e : Exn)
| MNoteAdded
| MAddNoteFailed (e : Exn)
| MSessionClosed (n : nat)
| MCloseSessionFailed (e : Exn)
(* simple_visual_indicators.py *)
| MMonitorError (e : Exn)
| MNotificationError (e : Exn)
| MTrayUpdateError (e : Exn)
| MVisualRecordingStarted
| MVisualRecordingStopped
| MVisualTranscriptionComplete
| MVisualErrorShown (msg : string)
| MVisualCleanedUp
(* simple_transcriber.py *)
| MAudioStatus
| MStartWhileRecording
| MRecordingStarted
| MStartFailed (e : Exn)
| MCheckMicrophone
| MStopNoRecording
| MNoAudioData
| MProcessingAudio
| MCapturedFrames (n : nat)
| MAudioShape (n : nat)
| MSavingAudio
| MSavedSoundfile
| MSoundfileUnavailable
| MSoundfileFailed (e : Exn)
| MSavedScipy
| MScipyFailed (e : Exn)
| MSavedWave
| MWaveFailed (e : Exn)
| MAllWavFailed
| MWavMissing
| MWavVerified
| MWavReadable
| MWavReadFailed (e : Exn)
| MTranscribing
| MDirectNumpy
| MTranscription (text : Str)
| MPasted
| MNoSpeech
| MTranscriptionError (e : Exn)
| MDiagPath
| MDiagAbsPath
| MDiagExists (b : bool)
| MDiagSize
| MProcessingError (e : Exn)
| MTraceback
| MCleanedTemp
| MRemoveFailed (e : Exn).

(** The notifications [_show_notification] is called with. *)
Inductive Notification :=
| NRecordingStarted               (* "Recording Started" *)
| NRecordingStopped               (* "Recording Stopped" *)
| NWarning30                      (* "30 seconds remaining!" *)
| NWarning10                      (* "10 seconds remaining!" *)
| NComplete (preview : Str)       (* "Transcription Complete" *)
| NError (msg : string).          (* "Error" *)

Inductive Event :=
| Log (lvl : Level) (m : LogMsg)
(* presentation *)
| ShowNotification (n : Notification)         (* _show_notification called *)
| Toast (n : Notification)                    (* plyer notification.notify *)
| VisualStart                                 (* visual_indicator.start_recording() *)
| VisualStop                                  (* visual_indicator.stop_recording() *)
| VisualComplete (text : Str)                 (* .transcription_complete(text) *)
| VisualError (msg : string)                  (* .show_error(msg) *)
| TrayStop                                    (* tray_icon.stop() *)
(* audio device *)
| StreamCreate                                (* sd.InputStream(...) *)
| StreamStart
| StreamStop
| StreamClose
(* auto-stop timer *)
| TimerStart
| TimerCancel
(* temporary WAV artifact *)
| SoundfileWrite
| ScipyWrite
| WaveWrite
| WavReadBack
| RemoveTemp                                  (* os.remove(TEMP_WAV_PATH) *)
(* engine and delivery *)
| Transcribe (audio : list Q)                 (* model.transcribe(audio_np) *)
| ClipboardCopy (text : Str)                  (* pyperclip.copy(text) *)
| PasteHotkey                                 (* pyautogui.hotkey('ctrl','v') *)
| Sleep
(* session log *)
| SessionLogTranscription (text : Str) (duration : option Q)
                          (started : option Timestamp)
| SessionLogError (msg : string) (started : option Timestamp).

(** ** Events of the code that starts and ends the program

    The lines logged and the calls made by the constructors, by [main] and
    by the two listeners, around the events of a recording. *)

Inductive AppMsg :=
(* simple_visual_indicators.py *)
| MPystrayUnavailable
| MPlyerUnavailable
| MTrayInitialized
| MTraySetupFailed (e : Exn)
(* simple_transcriber.py *)
| MLoadingModel
| MModelLoaded
| MModelLoadFailed (e : Exn)
| MHotkeyHelp
| MReady
| MHotkeyListenerError (e : Exn)
| MExitSignal
| MExitListenerError (e : Exn)
| MWorkingDirectory
| MTempFilePath
| MInitFailed
| MSessionLoggingInitialized
| MLogFolder
| MSessionFile
| MSessionLoggingFailed (e : Exn)
| MWithoutSessionLogging
| MVisualInitialized
| MVisualInitFailed (e : Exn)
| MWithoutVisual
| MInterrupted
| MUnexpectedError (e : Exn).

Inductive Target := TStartRecording | TStopRecording | TExitListener.

Inductive AppEvent :=
| Core (e : Event)                     (* an event of a recording *)
| AppLog (lvl : Level) (m : AppMsg)
| Banner                               (* the three [print] calls of [main] *)
| ImportPystray
| ImportPlyer
| TrayCreate                           (* the menu, the image, pystray.Icon *)
| TrayRun                              (* Thread(target=tray_icon.run).start() *)
| MonitorStart                         (* monitor_thread.start() *)
| LoadModel                            (* whisper.load_model(MODEL_NAME) *)
| WaitToggle                           (* keyboard.wait(HOTKEY_TOGGLE) *)
| WaitExit                             (* keyboard.wait(EXIT_HOTKEY) *)
| Spawn (t : Target)                   (* threading.Thread(target=t).start() *)
| ProcessExit (code : nat).            (* os._exit(code) *)

(** A computation of the recording code as a part of the program. *)
Definition core {S A} (m : Proc S Event A) : Proc S AppEvent A :=
  fun s =>
    match m s with
    | (r, s1, t) => (r, s1, map Core t)
    end.

(** Events handed on as they are. *)
Definition tell {S E} (t : list E) : Proc S E unit := fun s => (Val tt, s, t).

(** ** session_logger.py *)

Module SessionLog.

(** One constructor per [f.write] call of the module. *)
Inductive Chunk :=
| HRule                                   (* "=" * 50 + "\n" *)
| HTitle
| HSessionStarted (t : Timestamp)
| HApp
| HLogFile (t : Timestamp)
| HRuleBlank                              (* "=" * 50 + "\n\n" *)
| EntryHead (t : Timestamp) (n : nat)     (* "[HH:MM:SS] Recording #n" *)
| Duration (d : Q)                        (* " (Duration: d s)" *)
| Newline
| Text (text : Str)
| Separator                               (* "-" * 30 + "\n\n" *)
| ErrorHead (t : Timestamp) (n : nat)
| ErrorMsg (msg : string)
| Note (t : Timestamp) (note : string)
| FRule                                   (* "\n" + "=" * 50 + "\n" *)
| FTitle
| FSessionEnded (t : Timestamp)
| FTotalDuration (d : Q)
| FTotalRecordings (n : nat).

(** The fields of a [SessionLogger] object.  The session file is named
    after the folder and the creation time, so a path is that pair; such a
    path is never the empty string, and [not self.session_file_path] holds
    exactly when the field is [None]. *)
Record SessionLogger := mkLogger {
  log_folder_path : string;
  include_metadata : bool;
  session_file_path : option (string * Timestamp);
  session_start_time : option Timestamp;
  recording_count : nat
}.

(** The part of the file system the logger touches: its folder and the
    session file ([None]: the file does not exist). *)
Record LogFS := mkLogFS {
  folder_exists : bool;
  session_file : option (list Chunk)
}.

Definition LogState : Type := SessionLogger * LogFS.

(** What the outside world does during one call of a logger method. *)
Record LogEnv := mkLogEnv {
  log_now : Timestamp;                 (* datetime.now() *)
  makedirs_exn : option Exn;           (* os.makedirs raises *)
  open_exn : option Exn;               (* open(...) raises *)
  write_exn : option (nat * Exn)       (* the write of that index raises *)
}.

Definition LProc := Proc LogState Event.

Definition set_path (p : option (string * Timestamp)) (lg : SessionLogger) :=
  mkLogger (log_folder_path lg) (include_metadata lg) p
           (session_start_time lg) (recording_count lg).
Definition set_start (t : option Timestamp) (lg : SessionLogger) :=
  mkLogger (log_folder_path lg) (include_metadata lg) (session_file_path lg)
           t (recording_count lg).
Definition incr_count (lg : SessionLogger) :=
  mkLogger (log_folder_path lg) (include_metadata lg) (session_file_path lg)
           (session_start_time lg) (Datatypes.S (recording_count lg)).

Definition on_logger (f : SessionLogger -> SessionLogger) : LProc unit :=
  modify (fun s : LogState => (f (fst s), snd s)).
Definition on_fs (f : LogFS -> LogFS) : LProc unit :=
  modify (fun s : LogState => (fst s, f (snd s))).

Definition file_contents (fs : LogFS) : list Chunk :=
  match session_file fs with
  | None => []
  | Some c => c
  end.

(** [open(path, 'w')] truncates or creates, [open(path, 'a')] keeps what is
    there and creates the file when it is missing. *)
Inductive Mode := ModeW | ModeA.

Definition open_file (env : LogEnv) (m : Mode) : LProc unit :=
  outcome (open_exn env) ;;
  on_fs (fun fs =>
    mkLogFS (folder_exists fs)
            (Some match m with ModeW => [] | ModeA => file_contents fs end)).

Definition append_chunks (ws : list Chunk) : LProc unit :=
  on_fs (fun fs => mkLogFS (folder_exists fs) (Some (file_contents fs ++ ws))).

(** The [f.write] calls of one [with] block, in order; the environment may
    make the write of some index raise, the earlier ones having taken
    effect. *)
Definition write_chunks (env : LogEnv) (ws : list Chunk) : LProc unit :=
  match write_exn env with
  | Some (k, e) =>
      if Nat.ltb k (List.length ws)
      then append_chunks (firstn k ws) ;; raise e
      else append_chunks ws
  | None => append_chunks ws
  end.

Definition with_open (env : LogEnv) (m : Mode) (ws : list Chunk) : LProc unit :=
  open_file env m ;; write_chunks env ws.

Definition header_chunks (t : Timestamp) : list Chunk :=
  [HRule; HTitle; HRule; HSessionStarted t; HApp; HLogFile t; HRuleBlank].

Definition _create_session_file (env : LogEnv) : LProc bool :=
  try_except
    (s <- get ;;
     when (negb (folder_exists (snd s)))
       (outcome (makedirs_exn env) ;;
        on_fs (fun fs => mkLogFS true (session_file fs)) ;;
        emit (Log INFO MCreatedLogFolder)) ;;
     on_logger (set_start (Some (log_now env))) ;;
     on_logger (set_path (Some (log_folder_path (fst s), log_now env))) ;;
     with_open env ModeW (header_chunks (log_now env)) ;;
     emit (Log INFO MSessionLogCreated) ;;
     ret true)
    (fun e =>
       emit (Log ERROR (MCreateSessionFailed e)) ;;
       on_logger (set_path None) ;;
       ret false).

(** [SessionLogger(log_folder_path, include_metadata)] *)
Definition init (env : LogEnv) (folder : string) (metadata : bool)
    (fs : LogFS) : Res bool * LogState * list Event :=
  _create_session_file env (mkLogger folder metadata None None 0, fs).

Definition entry_chunks (lg : SessionLogger) (t : Timestamp)
    (text : Str) (recording_duration : option Q) : list Chunk :=
  [EntryHead t (recording_count lg)]
  ++ (if include_metadata lg && truthy_opt_float recording_duration
      then match recording_duration with
           | Some d => [Duration d]
           | None => []
           end
      else [])
  ++ [Newline; Text text; Separator].

Definition or_now (env : LogEnv) (t : option Timestamp) : Timestamp :=
  match t with
  | None => log_now env
  | Some t => t
  end.

Definition log_transcription (env : LogEnv) (text : Str)
    (recording_duration : option Q) (recording_start_time : option Timestamp)
    : LProc bool :=
  s <- get ;;
  if negb (is_some (session_file_path (fst s)))
  then emit (Log WARNING MNoSessionFile) ;; ret false
  else
    try_except
      (on_logger incr_count ;;
       s <- get ;;
       with_open env ModeA
         (entry_chunks (fst s) (or_now env recording_start_time)
                       text recording_duration) ;;
       emit (Log INFO (MTranscriptionLogged (recording_count (fst s)))) ;;
       ret true)
      (fun e => emit (Log ERROR (MLogTranscriptionFailed e)) ;; ret false).

Definition log_error (env : LogEnv) (error_message : string)
    (recording_start_time : option Timestamp) : LProc bool :=
  s <- get ;;
  if negb (is_some (session_file_path (fst s)))
  then ret false
  else
    try_except
      (on_logger incr_count ;;
       s <- get ;;
       with_open env ModeA
         [ErrorHead (or_now env recording_start_time) (recording_count (fst s));
          ErrorMsg error_message; Separator] ;;
       emit (Log INFO MErrorLogged) ;;
       ret true)
      (fun e => emit (Log ERROR (MLogErrorFailed e)) ;; ret false).

Definition add_session_note (env : LogEnv) (note : string) : LProc bool :=
  s <- get ;;
  if negb (is_some (session_file_path (fst s)))
  then ret false
  else
    try_except
      (with_open env ModeA [Note (log_now env) note; Separator] ;;
       emit (Log INFO MNoteAdded) ;;
       ret true)
      (fun e => emit (Log ERROR (MAddNoteFailed e)) ;; ret false).

(** [session_end_time - self.session_start_time] raises a [TypeError] when
    the start time is [None]. *)
Definition session_duration (env : LogEnv) : LProc Q :=
  s <- get ;;
  match session_start_time (fst s) with
  | Some t0 => ret (log_now env - t0)%Q
  | None => raise "unsupported operand type(s) for -"
  end.

Definition close_session (env : LogEnv) : LProc bool :=
  s <- get ;;
  if negb (is_some (session_file_path (fst s)))
  then ret false
  else
    try_except
      (d <- session_duration env ;;
       with_open env ModeA
         [FRule; FTitle; HRule; FSessionEnded (log_now env);
          FTotalDuration d; FTotalRecordings (recording_count (fst s)); HRule] ;;
       emit (Log INFO (MSessionClosed (recording_count (fst s)))) ;;
       ret true)
      (fun e => emit (Log ERROR (MCloseSessionFailed e)) ;; ret false).

(** *** The getters, and clients of a logger *)

(** [get_session_info]: the dictionary it returns, one field per key. *)
Record SessionInfo := mkInfo {
  info_session_file : option (string * Timestamp);
  info_start_time : option Timestamp;
  info_recording_count : nat;
  info_log_folder : string
}.

Definition get_session_info (lg : SessionLogger) : SessionInfo :=
  mkInfo (session_file_path lg) (session_start_time lg) (recording_count lg)
         (log_folder_path lg).

Definition get_session_file_path (lg : SessionLogger)
    : option (string * Timestamp) :=
  session_file_path lg.

(** A call of one of the methods that write to the session file. *)
Inductive Call :=
| LogTranscription (text : Str) (recording_duration : option Q)
                   (recording_start_time : option Timestamp)
| LogError (error_message : string) (recording_start_time : option Timestamp)
| AddSessionNote (note : string)
| CloseSession.

Definition call (env : LogEnv) (c : Call) : LProc bool :=
  match c with
  | LogTranscription text d t => log_transcription env text d t
  | LogError msg t => log_error env msg t
  | AddSessionNote note => add_session_note env note
  | CloseSession => close_session env
  end.

(** A client of the logger calling its methods one after the other, each
    call in an environment of its own; the value is the list of the values
    the calls returned. *)
Fixpoint session (cs : list (LogEnv * Call)) : LProc (list bool) :=
  match cs with
  | [] => ret []
  | (env, c) :: rest =>
      b <- call env c ;;
      bs <- session rest ;;
      ret (b :: bs)
  end.

End SessionLog.

(** ** simple_visual_indicators.py *)

Definition Qlt_bool (x y : Q) : bool := negb (Qle_bool y x).

(** [max(0, x)] *)
Definition max0 (x : Q) : Q := if Qlt_bool 0 x then x else 0.

Module Visual.

Inductive Color := Gray | Red.
Inductive Status := Idle | Recording.

(** The attributes of the [pystray.Icon] the module assigns. *)
Record TrayIcon := mkTray {
  icon : Color;
  title : Status;
  menu : Status
}.

Record SimpleVisualIndicator := mkVI {
  max_duration_sec : Q;
  recording : bool;
  start_time : option Timestamp;
  tray_icon : option TrayIcon;
  running : bool;
  warning_30_shown : bool;
  warning_10_shown : bool;
  has_pystray : bool;
  has_plyer : bool
}.

(** What the outside world does during one call of a method. *)
Record VisEnv := mkVisEnv {
  vis_now : Timestamp;                 (* time.time() *)
  tray_exn : option (nat * Exn);       (* the tray assignment of that index raises *)
  notify_exn : option Exn              (* notification.notify raises *)
}.

Definition VProc := Proc SimpleVisualIndicator Event.

Definition set_recording (b : bool) (v : SimpleVisualIndicator) :=
  mkVI (max_duration_sec v) b (start_time v) (tray_icon v) (running v)
       (warning_30_shown v) (warning_10_shown v) (has_pystray v) (has_plyer v).
Definition set_start_time (t : option Timestamp) (v : SimpleVisualIndicator) :=
  mkVI (max_duration_sec v) (recording v) t (tray_icon v) (running v)
       (warning_30_shown v) (warning_10_shown v) (has_pystray v) (has_plyer v).
Definition set_tray (t : option TrayIcon) (v : SimpleVisualIndicator) :=
  mkVI (max_duration_sec v) (recording v) (start_time v) t (running v)
       (warning_30_shown v) (warning_10_shown v) (has_pystray v) (has_plyer v).
Definition set_running (b : bool) (v : SimpleVisualIndicator) :=
  mkVI (max_duration_sec v) (recording v) (start_time v) (tray_icon v) b
       (warning_30_shown v) (warning_10_shown v) (has_pystray v) (has_plyer v).
Definition set_warning_30 (b : bool) (v : SimpleVisualIndicator) :=
  mkVI (max_duration_sec v) (recording v) (start_time v) (tray_icon v)
       (running v) b (warning_10_shown v) (has_pystray v) (has_plyer v).
Definition set_warning_10 (b : bool) (v : SimpleVisualIndicator) :=
  mkVI (max_duration_sec v) (recording v) (start_time v) (tray_icon v)
       (running v) (warning_30_shown v) b (has_pystray v) (has_plyer v).

Definition _show_notification (env : VisEnv) (n : Notification) : VProc unit :=
  emit (ShowNotification n) ;;
  v <- get ;;
  if negb (has_plyer v)
  then ret tt
  else
    try_except
      (emit (Toast n) ;; outcome (notify_exn env))
      (fun e => emit (Log WARNING (MNotificationError e))).

(** The three assignments [icon], [title], [menu] of a tray update, the
    environment deciding which of them, if any, raises. *)
Definition tray_assign (env : VisEnv) (k : nat)
    (f : TrayIcon -> TrayIcon) : VProc unit :=
  match tray_exn env with
  | Some (j, e) => if Nat.eqb j k then raise e
                   else modify (fun v => set_tray (option_map f (tray_icon v)) v)
  | None => modify (fun v => set_tray (option_map f (tray_icon v)) v)
  end.

Definition update_tray (env : VisEnv) (c : Color) (st : Status) : VProc unit :=
  v <- get ;;
  when (has_pystray v && is_some (tray_icon v))
    (try_except
       (tray_assign env 0 (fun t => mkTray c (title t) (menu t)) ;;
        tray_assign env 1 (fun t => mkTray (icon t) st (menu t)) ;;
        tray_assign env 2 (fun t => mkTray (icon t) (title t) st))
       (fun e => emit (Log WARNING (MTrayUpdateError e)))).

Definition start_recording (env : VisEnv) : VProc unit :=
  modify (set_recording true) ;;
  modify (set_start_time (Some (vis_now env))) ;;
  modify (set_warning_30 false) ;;
  modify (set_warning_10 false) ;;
  update_tray env Red Recording ;;
  _show_notification env NRecordingStarted ;;
  emit (Log INFO MVisualRecordingStarted).

Definition stop_recording (env : VisEnv) : VProc unit :=
  modify (set_recording false) ;;
  update_tray env Gray Idle ;;
  _show_notification env NRecordingStopped ;;
  emit (Log INFO MVisualRecordingStopped).

(** [text[:50] + "..." if len(text) > 50 else text] *)
Definition preview (text : Str) : Str :=
  if Nat.ltb 50 (List.length text)
  then firstn 50 text ++ text_of "..."
  else text.

Definition transcription_complete (env : VisEnv) (text : Str) : VProc unit :=
  _show_notification env (NComplete (preview text)) ;;
  emit (Log INFO MVisualTranscriptionComplete).

Definition show_error (env : VisEnv) (error_message : string) : VProc unit :=
  _show_notification env (NError error_message) ;;
  emit (Log INFO (MVisualErrorShown error_message)).

(** [cleanup]: the monitor loop ends at its next test of [self.running];
    an exception of [tray_icon.stop()] is dropped. *)
Definition cleanup (env : VisEnv) : VProc unit :=
  modify (set_running false) ;;
  v <- get ;;
  when (has_pystray v && is_some (tray_icon v))
    (try_except
       (emit TrayStop ;;
        match tray_exn env with
        | Some (_, e) => raise e
        | None => ret tt
        end)
       (fun _ => ret tt)) ;;
  emit (Log INFO MVisualCleanedUp).

(** The remaining time the monitor computes at clock reading [now]. *)
Definition remaining (v : SimpleVisualIndicator) (t0 now : Timestamp) : Q :=
  max0 (max_duration_sec v - (now - t0)).

Definition in_window_30 (r : Q) : bool := Qle_bool r 30 && Qlt_bool 29 r.
Definition in_window_10 (r : Q) : bool := Qle_bool r 10 && Qlt_bool 9 r.

(** The body of the [try] of one iteration of the monitor loop. *)
Definition monitor_check (env : VisEnv) : VProc unit :=
  v <- get ;;
  match start_time v with
  | Some t0 =>
      when (recording v && truthy_float t0)
        (let r := remaining v t0 (vis_now env) in
         when (in_window_30 r && negb (warning_30_shown v))
           (_show_notification env NWarning30 ;;
            modify (set_warning_30 true)) ;;
         v <- get ;;
         when (in_window_10 r && negb (warning_10_shown v))
           (_show_notification env NWarning10 ;;
            modify (set_warning_10 true)))
  | None => ret tt
  end.

Definition monitor_iteration (env : VisEnv) : VProc unit :=
  try_except
    (monitor_check env ;; emit Sleep)
    (fun e => emit (Log WARNING (MMonitorError e)) ;; emit Sleep).

(** [_monitor_recording_time]: the loop [while self.running], one
    environment per iteration it gets to run. *)
Fixpoint _monitor_recording_time (ticks : list VisEnv) : VProc unit :=
  match ticks with
  | [] => ret tt
  | env :: rest =>
      v <- get ;;
      if running v
      then monitor_iteration env ;; _monitor_recording_time rest
      else ret tt
  end.

(** *** The constructor, and clients of an indicator *)

(** What an [import] statement does: the module is there, or it is missing
    ([ImportError]), or importing it raises something else. *)
Inductive ImportOutcome := Imported | Missing | ImportRaises (e : Exn).

(** What the outside world does while an indicator is constructed. *)
Record SetupEnv := mkSetupEnv {
  import_pystray : ImportOutcome;
  import_plyer : ImportOutcome;
  icon_create : option Exn;            (* the menu, the image, pystray.Icon *)
  tray_thread : option Exn;            (* the thread of tray_icon.run *)
  monitor_thread : option Exn          (* the thread of the monitor *)
}.

Definition SProc := Proc SimpleVisualIndicator AppEvent.

Definition set_has_pystray (b : bool) (v : SimpleVisualIndicator) :=
  mkVI (max_duration_sec v) (recording v) (start_time v) (tray_icon v)
       (running v) (warning_30_shown v) (warning_10_shown v) b (has_plyer v).
Definition set_has_plyer (b : bool) (v : SimpleVisualIndicator) :=
  mkVI (max_duration_sec v) (recording v) (start_time v) (tray_icon v)
       (running v) (warning_30_shown v) (warning_10_shown v) (has_pystray v) b.

(** [try: import m; return True / except ImportError: log; return False] *)
Definition try_import (ev : AppEvent) (o : ImportOutcome) (unavailable : AppMsg)
    : SProc bool :=
  emit ev ;;
  match o with
  | Imported => ret true
  | Missing => emit (AppLog INFO unavailable) ;; ret false
  | ImportRaises e => raise e
  end.

Definition _try_import_pystray (env : SetupEnv) : SProc bool :=
  try_import ImportPystray (import_pystray env) MPystrayUnavailable.

Definition _try_import_plyer (env : SetupEnv) : SProc bool :=
  try_import ImportPlyer (import_plyer env) MPlyerUnavailable.

(** The icon [_setup_tray_icon] creates: gray, with the idle title and
    menu. *)
Definition idle_tray : TrayIcon := mkTray Gray Idle Idle.

Definition _setup_tray_icon (env : SetupEnv) : SProc unit :=
  v <- get ;;
  if negb (has_pystray v)
  then ret tt
  else
    try_except
      (emit TrayCreate ;;
       outcome (icon_create env) ;;
       modify (set_tray (Some idle_tray)) ;;
       emit TrayRun ;;
       outcome (tray_thread env) ;;
       emit (AppLog INFO MTrayInitialized))
      (fun e => emit (AppLog WARNING (MTraySetupFailed e))).

(** The attributes [__init__] assigns before it calls a method. *)
Definition blank (max_duration_sec : Q) : SimpleVisualIndicator :=
  mkVI max_duration_sec false None None true false false false false.

(** The body of [__init__] from the first import on. *)
Definition init_body (env : SetupEnv) : SProc unit :=
  p <- _try_import_pystray env ;;
  modify (set_has_pystray p) ;;
  q <- _try_import_plyer env ;;
  modify (set_has_plyer q) ;;
  v <- get ;;
  when (has_pystray v) (_setup_tray_icon env) ;;
  emit MonitorStart ;;
  outcome (monitor_thread env).

(** [SimpleVisualIndicator(max_duration_sec)]: the object, or the exception
    the constructor raises. *)
Definition init (env : SetupEnv) (max_duration_sec : Q)
    : Res SimpleVisualIndicator * list AppEvent :=
  match init_body env (blank max_duration_sec) with
  | (Val _, v, t) => (Val v, t)
  | (Raise e, _, t) => (Raise e, t)
  end.

(** One pass of the loop of [_monitor_recording_time]. *)
Definition monitor_pass (env : VisEnv) : VProc unit :=
  v <- get ;;
  if running v then monitor_iteration env else ret tt.

(** A call of a method by the transcriber, or a pass of the monitor. *)
Inductive Call :=
| StartRecording
| StopRecording
| TranscriptionComplete (text : Str)
| ShowError (error_message : string)
| Cleanup
| MonitorPass.

Definition call (env : VisEnv) (c : Call) : VProc unit :=
  match c with
  | StartRecording => start_recording env
  | StopRecording => stop_recording env
  | TranscriptionComplete text => transcription_complete env text
  | ShowError msg => show_error env msg
  | Cleanup => cleanup env
  | MonitorPass => monitor_pass env
  end.

(** The calls an indicator receives, one after the other, the passes of
    the monitor thread falling between them. *)
Fixpoint session (cs : list (VisEnv * Call)) : VProc unit :=
  match cs with
  | [] => ret tt
  | (env, c) :: rest => call env c ;; session rest
  end.

End Visual.

(** ** simple_transcriber.py *)

(** The characters [str.strip()] removes, those [str.isspace] holds of:
    U+0009 to U+000D, U+001C to U+0020, U+0085, U+00A0, U+1680, U+2000 to
    U+200A, U+2028, U+2029, U+202F, U+205F and U+3000. *)
Definition is_space (c : N) : bool :=
  ((9 <=? c) && (c <=? 13)
   || (28 <=? c) && (c <=? 32)
   || (c =? 133) || (c =? 160) || (c =? 5760)
   || (8192 <=? c) && (c <=? 8202)
   || (c =? 8232) || (c =? 8233) || (c =? 8239) || (c =? 8287)
   || (c =? 12288))%N.

Fixpoint lstrip (s : Str) : Str :=
  match s with
  | [] => []
  | c :: r => if is_space c then lstrip r else s
  end.

Fixpoint rstrip (s : Str) : Str :=
  match s with
  | [] => []
  | c :: r =>
      match rstrip r with
      | [] => if is_space c then [] else [c]
      | r' => c :: r'
      end
  end.

(** [s.strip()] *)
Definition strip (s : Str) : Str := rstrip (lstrip s).

Module Transcriber.

Definition MAX_DURATION_SEC : Q := 1800.
Definition ENABLE_VISUAL_INDICATORS : bool := true.
Definition ENABLE_SESSION_LOGGING : bool := true.
Definition LOG_FOLDER_PATH : string := "transcription_logs".
Definition LOG_INCLUDE_METADATA : bool := true.

(** The state of a [sd.InputStream] object. *)
Inductive StreamSt := Created | Active | Stopped.

(** The state of a [threading.Timer]: created and not started, waiting
    for its deadline, cancelled before it, running its callback, or done. *)
Inductive TimerSt := Unstarted | Armed | Cancelled | Running | Finished.

(** The globals of the module, with the objects they refer to.  Timers are
    kept in a heap, [auto_stop_timer] being an index into it, because a
    timer that is no longer referenced still fires.  [temp_wav] says whether
    a file exists at [TEMP_WAV_PATH]. *)
Record World := mkWorld {
  recording : bool;
  audio_frames : list (list Q);
  stream : option StreamSt;
  auto_stop_timer : option nat;
  timers : list TimerSt;
  visual_indicator : option Visual.SimpleVisualIndicator;
  session_logger : option SessionLog.SessionLogger;
  recording_start_time : option Timestamp;
  log_fs : SessionLog.LogFS;
  temp_wav : bool
}.

Definition set_recording (b : bool) (w : World) :=
  mkWorld b (audio_frames w) (stream w) (auto_stop_timer w) (timers w)
          (visual_indicator w) (session_logger w) (recording_start_time w)
          (log_fs w) (temp_wav w).
Definition set_audio_frames (fr : list (list Q)) (w : World) :=
  mkWorld (recording w) fr (stream w) (auto_stop_timer w) (timers w)
          (visual_indicator w) (session_logger w) (recording_start_time w)
          (log_fs w) (temp_wav w).
Definition set_stream (st : option StreamSt) (w : World) :=
  mkWorld (recording w) (audio_frames w) st (auto_stop_timer w) (timers w)
          (visual_indicator w) (session_logger w) (recording_start_time w)
          (log_fs w) (temp_wav w).
Definition set_auto_stop_timer (i : option nat) (w : World) :=
  mkWorld (recording w) (audio_frames w) (stream w) i (timers w)
          (visual_indicator w) (session_logger w) (recording_start_time w)
          (log_fs w) (temp_wav w).
Definition set_timers (ts : list TimerSt) (w : World) :=
  mkWorld (recording w) (audio_frames w) (stream w) (auto_stop_timer w) ts
          (visual_indicator w) (session_logger w) (recording_start_time w)
          (log_fs w) (temp_wav w).
Definition set_visual_indicator (v : option Visual.SimpleVisualIndicator)
    (w : World) :=
  mkWorld (recording w) (audio_frames w) (stream w) (auto_stop_timer w)
          (timers w) v (session_logger w) (recording_start_time w)
          (log_fs w) (temp_wav w).
Definition set_logger (s : SessionLog.LogState) (w : World) :=
  mkWorld (recording w) (audio_frames w) (stream w) (auto_stop_timer w)
          (timers w) (visual_indicator w) (Some (fst s))
          (recording_start_time w) (snd s) (temp_wav w).
Definition set_recording_start_time (t : option Timestamp) (w : World) :=
  mkWorld (recording w) (audio_frames w) (stream w) (auto_stop_timer w)
          (timers w) (visual_indicator w) (session_logger w) t
          (log_fs w) (temp_wav w).
Definition set_temp_wav (b : bool) (w : World) :=
  mkWorld (recording w) (audio_frames w) (stream w) (auto_stop_timer w)
          (timers w) (visual_indicator w) (session_logger w)
          (recording_start_time w) (log_fs w) b.

(** Outcome of one attempt to write the WAV file; a failed attempt may
    leave a partial file behind. *)
Inductive WriteOutcome := WriteOk | WriteFails (e : Exn) (leftover : bool).

(** [import soundfile] raises [ImportError], or [sf.write] runs. *)
Inductive SoundfileOutcome := SfUnavailable | SfWrite (o : WriteOutcome).

(** The places of [stop_recording_and_transcribe] and [start_recording]
    that call a collaborator. *)
Inductive Site := AtStart | AtStop | AtResult | AtHandler.

(** What the outside world does during one call of [start_recording] or
    [stop_recording_and_transcribe]. *)
Record Env := mkEnv {
  now : Timestamp;                         (* time.time() *)
  stream_create : option Exn;              (* sd.InputStream(...) *)
  stream_start : option Exn;               (* stream.start() *)
  timer_start : option Exn;                (* auto_stop_timer.start() *)
  stream_stop : option Exn;                (* stream.stop() *)
  stream_close : option Exn;               (* stream.close() *)
  soundfile : SoundfileOutcome;            (* sf.write *)
  scipy_write : WriteOutcome;              (* wav.write *)
  wave_write : WriteOutcome;               (* wave.open ... writeframes *)
  wav_read : option Exn;                   (* wav.read *)
  transcribe : list Q -> Exn + Str;        (* model.transcribe(..)['text'] *)
  clipboard : option Exn;                  (* pyperclip.copy *)
  hotkey : option Exn;                     (* pyautogui.hotkey *)
  os_remove : option Exn;                  (* os.remove *)
  vis_env : Site -> Visual.VisEnv;
  log_env : Site -> SessionLog.LogEnv
}.

Definition WProc := Proc World Event.

(** [if visual_indicator and ENABLE_VISUAL_INDICATORS: visual_indicator.m()] *)
Definition with_visual (m : Visual.VProc unit) : WProc unit :=
  w <- get ;;
  match visual_indicator w with
  | Some v =>
      when ENABLE_VISUAL_INDICATORS
        (zoom (fun _ => v) (fun v' => set_visual_indicator (Some v')) m)
  | None => ret tt
  end.

(** [if session_logger and ENABLE_SESSION_LOGGING: session_logger.m()],
    the value the method returns being dropped. *)
Definition with_logger (m : SessionLog.LProc bool) : WProc unit :=
  w <- get ;;
  match session_logger w with
  | Some lg =>
      when ENABLE_SESSION_LOGGING
        (zoom (fun w => (lg, log_fs w)) set_logger m ;; ret tt)
  | None => ret tt
  end.

(** The list [l] with [f] applied to its element of index [i]. *)
Fixpoint update_nth {A} (i : nat) (f : A -> A) (l : list A) : list A :=
  match l, i with
  | [], _ => []
  | x :: r, O => f x :: r
  | x :: r, Datatypes.S j => x :: update_nth j f r
  end.

(** *** audio_callback *)

Definition audio_callback (indata : list Q) (status : bool) : WProc unit :=
  when status (emit (Log WARNING MAudioStatus)) ;;
  w <- get ;;
  when (recording w)
    (modify (fun w => set_audio_frames (audio_frames w ++ [indata]) w)).

(** *** start_recording *)

(** [auto_stop_timer = threading.Timer(...); auto_stop_timer.start()]:
    the global refers to the new timer before the timer is started, and
    keeps referring to it when starting its thread raises. *)
Definition new_timer (env : Env) : WProc unit :=
  w <- get ;;
  let i := List.length (timers w) in
  modify (set_timers (timers w ++ [Unstarted])) ;;
  modify (set_auto_stop_timer (Some i)) ;;
  emit TimerStart ;;
  outcome (timer_start env) ;;
  modify (fun w => set_timers (update_nth i (fun _ => Armed) (timers w)) w).

Definition start_recording (env : Env) : WProc unit :=
  w <- get ;;
  if recording w
  then emit (Log DEBUG MStartWhileRecording)
  else
    modify (set_audio_frames []) ;;
    modify (set_recording true) ;;
    modify (set_recording_start_time (Some (now env))) ;;
    try_except
      (emit StreamCreate ;;
       outcome (stream_create env) ;;
       modify (set_stream (Some Created)) ;;
       emit StreamStart ;;
       outcome (stream_start env) ;;
       modify (set_stream (Some Active)) ;;
       emit (Log INFO MRecordingStarted) ;;
       with_visual (emit VisualStart ;;
                    Visual.start_recording (vis_env env AtStart)) ;;
       new_timer env)
      (fun e =>
         modify (set_recording false) ;;
         emit (Log ERROR (MStartFailed e)) ;;
         emit (Log ERROR MCheckMicrophone)).

(** *** stop_recording_and_transcribe *)

Definition is_alive (t : TimerSt) : bool :=
  match t with
  | Armed | Running => true
  | Unstarted | Cancelled | Finished => false
  end.

(** [Timer.cancel()] stops a timer that has not fired yet and does nothing
    to one whose callback already runs. *)
Definition cancel (t : TimerSt) : TimerSt :=
  match t with
  | Armed => Cancelled
  | other => other
  end.

(** [if auto_stop_timer and auto_stop_timer.is_alive(): auto_stop_timer.cancel()] *)
Definition cancel_timer : WProc unit :=
  w <- get ;;
  match auto_stop_timer w with
  | Some i =>
      match nth_error (timers w) i with
      | Some t =>
          when (is_alive t)
            (emit TimerCancel ;;
             modify (fun w => set_timers (update_nth i cancel (timers w)) w))
      | None => ret tt
      end
  | None => ret tt
  end.

(** [if stream: stream.stop(); stream.close(); stream = None] *)
Definition release_stream (env : Env) : WProc unit :=
  w <- get ;;
  when (is_some (stream w))
    (emit StreamStop ;;
     outcome (stream_stop env) ;;
     modify (set_stream (Some Stopped)) ;;
     emit StreamClose ;;
     outcome (stream_close env) ;;
     modify (set_stream None)).

(** One attempt to write the file at [TEMP_WAV_PATH]. *)
Definition write_artifact (o : WriteOutcome) : WProc unit :=
  match o with
  | WriteOk => modify (set_temp_wav true)
  | WriteFails e leftover =>
      modify (fun w => set_temp_wav (temp_wav w || leftover) w) ;;
      raise e
  end.

(** The three methods of writing the WAV file; the value is [wav_saved]. *)
Definition save_wav (env : Env) : WProc bool :=
  saved1 <-
    match soundfile env with
    | SfUnavailable => emit (Log INFO MSoundfileUnavailable) ;; ret false
    | SfWrite o =>
        try_except
          (emit SoundfileWrite ;;
           write_artifact o ;;
           emit (Log INFO MSavedSoundfile) ;;
           ret true)
          (fun e => emit (Log WARNING (MSoundfileFailed e)) ;; ret false)
    end ;;
  saved2 <-
    (if negb saved1
     then try_except
            (emit ScipyWrite ;;
             write_artifact (scipy_write env) ;;
             emit (Log INFO MSavedScipy) ;;
             ret true)
            (fun e => emit (Log ERROR (MScipyFailed e)) ;; ret false)
     else ret saved1) ;;
  if negb saved2
  then try_except
         (emit WaveWrite ;;
          write_artifact (wave_write env) ;;
          emit (Log INFO MSavedWave) ;;
          ret true)
         (fun e => emit (Log ERROR (MWaveFailed e)) ;; ret false)
  else ret saved2.

(** [datetime.fromtimestamp(recording_start_time) if recording_start_time
    else None] *)
Definition start_datetime (recording_start_time : option Timestamp)
    : option Timestamp :=
  if truthy_opt_float recording_start_time then recording_start_time else None.

(** [recording_duration], [None] unless [recording_start_time] is true. *)
Definition measured_duration (env : Env)
    (recording_start_time : option Timestamp) : option Q :=
  match recording_start_time with
  | Some t0 => if truthy_float t0 then Some (now env - t0)%Q else None
  | None => None
  end.

(** The branch [if text:] of the transcription block. *)
Definition deliver (env : Env) (text : Str) : WProc unit :=
  emit (Log INFO (MTranscription text)) ;;
  w <- get ;;
  let recording_duration := measured_duration env (recording_start_time w) in
  let started := start_datetime (recording_start_time w) in
  with_logger
    (emit (SessionLogTranscription text recording_duration started) ;;
     SessionLog.log_transcription (log_env env AtResult) text
       recording_duration started) ;;
  with_visual
    (emit (VisualComplete text) ;;
     Visual.transcription_complete (vis_env env AtResult) text) ;;
  emit (ClipboardCopy text) ;;
  outcome (clipboard env) ;;
  emit Sleep ;;
  emit PasteHotkey ;;
  outcome (hotkey env) ;;
  emit (Log INFO MPasted).

Definition report_error (env : Env) (site : Site)
    (log_message shown_message : string) : WProc unit :=
  w <- get ;;
  let started := start_datetime (recording_start_time w) in
  with_logger
    (emit (SessionLogError log_message started) ;;
     SessionLog.log_error (log_env env site) log_message started) ;;
  with_visual
    (emit (VisualError shown_message) ;;
     Visual.show_error (vis_env env site) shown_message).

Definition no_speech : string := "No speech detected in recording".

(** The body of the inner [try]: the engine, then the delivery. *)
Definition transcribe_and_deliver (env : Env) (audio_np : list Q) : WProc unit :=
  emit (Log INFO MDirectNumpy) ;;
  emit (Transcribe audio_np) ;;
  match transcribe env audio_np with
  | inl e => raise e
  | inr raw =>
      let text := strip raw in
      if truthy_str text
      then deliver env text
      else
        emit (Log WARNING MNoSpeech) ;;
        report_error env AtResult no_speech no_speech
  end.

(** [except Exception as transcribe_error] of the inner [try]. *)
Definition transcription_failed (env : Env) (transcribe_error : Exn)
    : WProc unit :=
  emit (Log ERROR (MTranscriptionError transcribe_error)) ;;
  emit (Log ERROR MDiagPath) ;;
  emit (Log ERROR MDiagAbsPath) ;;
  w <- get ;;
  emit (Log ERROR (MDiagExists (temp_wav w))) ;;
  when (temp_wav w) (emit (Log ERROR MDiagSize)) ;;
  report_error env AtHandler
    (String.append "Transcription failed: " transcribe_error)
    "Transcription failed".

(** The inner [try] around [model.transcribe] and the delivery. *)
Definition transcribe_block (env : Env) (audio_np : list Q) : WProc unit :=
  try_except (transcribe_and_deliver env audio_np) (transcription_failed env).

(** From the check that the file exists to the end of the outer [try]. *)
Definition verify_and_transcribe (env : Env) (audio_np : list Q) : WProc unit :=
  emit Sleep ;;
  w <- get ;;
  if negb (temp_wav w)
  then emit (Log ERROR MWavMissing)
  else
    emit (Log INFO MWavVerified) ;;
    try_except
      (emit WavReadBack ;;
       outcome (wav_read env) ;;
       emit (Log INFO MWavReadable))
      (fun e => emit (Log WARNING (MWavReadFailed e))) ;;
    emit (Log INFO MTranscribing) ;;
    transcribe_block env audio_np.

(** What the outer [try] does with a buffer that is not empty. *)
Definition serialize_and_transcribe (env : Env) : WProc unit :=
  w <- get ;;
  emit (Log INFO MProcessingAudio) ;;
  emit (Log INFO (MCapturedFrames (List.length (audio_frames w)))) ;;
  let audio_np := List.concat (audio_frames w) in
  emit (Log INFO (MAudioShape (List.length audio_np))) ;;
  emit (Log INFO MSavingAudio) ;;
  wav_saved <- save_wav env ;;
  if negb wav_saved
  then emit (Log ERROR MAllWavFailed)
  else verify_and_transcribe env audio_np.

(** The body of the outer [try]. *)
Definition process (env : Env) : WProc unit :=
  release_stream env ;;
  w <- get ;;
  match audio_frames w with
  | [] => emit (Log WARNING MNoAudioData)
  | _ :: _ => serialize_and_transcribe env
  end.

(** The [finally] clause. *)
Definition cleanup (env : Env) : WProc unit :=
  w <- get ;;
  when (temp_wav w)
    (try_except
       (emit RemoveTemp ;;
        outcome (os_remove env) ;;
        modify (set_temp_wav false) ;;
        emit (Log DEBUG MCleanedTemp))
       (fun e => emit (Log WARNING (MRemoveFailed e)))).

(** [if visual_indicator and ENABLE_VISUAL_INDICATORS:
    visual_indicator.stop_recording()] *)
Definition announce_stop (env : Env) : WProc unit :=
  with_visual (emit VisualStop ;; Visual.stop_recording (vis_env env AtStop)).

(** [except Exception as e] of the outer [try]. *)
Definition processing_error (e : Exn) : WProc unit :=
  emit (Log ERROR (MProcessingError e)) ;; emit (Log ERROR MTraceback).

(** The outer [try] with its [except] clause. *)
Definition guarded_process (env : Env) : WProc unit :=
  try_except (process env) processing_error.

Definition stop_recording_and_transcribe (env : Env) : WProc unit :=
  w <- get ;;
  if negb (recording w)
  then emit (Log DEBUG MStopNoRecording)
  else
    modify (set_recording false) ;;
    announce_stop env ;;
    cancel_timer ;;
    try_finally (guarded_process env) (cleanup env).

(** *** The auto-stop timer firing

    The thread of timer [i] reaches its deadline: unless the timer was
    cancelled, it calls [stop_recording_and_transcribe] and ends. *)
Definition timer_fire (i : nat) (env : Env) : WProc unit :=
  w <- get ;;
  match nth_error (timers w) i with
  | Some Armed =>
      modify (fun w => set_timers (update_nth i (fun _ => Running) (timers w)) w) ;;
      try_finally
        (stop_recording_and_transcribe env)
        (modify (fun w =>
           set_timers (update_nth i (fun _ => Finished) (timers w)) w))
  | _ => ret tt
  end.

(** *** Calls served one after the other

    The calls the program serves: the hot key toggling a recording, the
    audio device delivering a chunk, a timer reaching its deadline.  [run]
    serves them one after the other, each to its end before the next
    begins: these are the runs of the program in which no two calls
    overlap.  The runs in which they do are those of [interleave] below. *)
Inductive Request :=
| ReqStart (env : Env)
| ReqStop (env : Env)
| ReqAudio (indata : list Q) (status : bool)
| ReqTimer (i : nat) (env : Env).

Definition serve (r : Request) : WProc unit :=
  match r with
  | ReqStart env => start_recording env
  | ReqStop env => stop_recording_and_transcribe env
  | ReqAudio indata status => audio_callback indata status
  | ReqTimer i env => timer_fire i env
  end.

(** The state a sequence of requests, served one after the other, leads to
    and the events it produces. *)
Fixpoint run (rs : list Request) (w : World) : World * list Event :=
  match rs with
  | [] => (w, [])
  | r :: rest =>
      let w1 := state (serve r w) in
      (fst (run rest w1), trace (serve r w) ++ snd (run rest w1))
  end.

(** The globals as the module initialises them, and as [main] leaves them
    once it has created the collaborators. *)
Definition initial (v : option Visual.SimpleVisualIndicator)
    (lg : option SessionLog.SessionLogger) (fs : SessionLog.LogFS)
    (wav : bool) : World :=
  mkWorld false [] None None [] v lg None fs wav.

(** *** Threads

    [start_recording] and [stop_recording_and_transcribe] run on threads of
    their own, next to the callback of the stream and to the timers, and
    the module has no lock: while a call is between two of its statements
    another thread may run.  A task is a call in progress, at one of the
    places where the model lets another thread in: before the call tests
    its guard, between the guard and the assignments that follow it, while
    the stream is opened and, for a stop, while the engine transcribes. *)

Inductive StartAt :=
| StartGuard            (* before [if recording:] *)
| StartReset            (* past the guard, before [audio_frames = []] *)
| StartOpen             (* the flag set, before [sd.InputStream(...)] *)
| StartTimer.           (* the stream started, before [threading.Timer(...)] *)

Inductive StopAt :=
| StopGuard                          (* before [if not recording:] *)
| StopClaim                          (* past the guard, before [recording = False] *)
| StopEngine (audio_np : list Q).    (* inside [model.transcribe(audio_np)] *)

(** [except Exception as e] of [start_recording]. *)
Definition start_failed (e : Exn) : WProc unit :=
  modify (set_recording false) ;;
  emit (Log ERROR (MStartFailed e)) ;;
  emit (Log ERROR MCheckMicrophone).

(** [start_recording] from one of these places to the next; the value is
    the place the call has reached, [None] when it has returned. *)
Definition start_step (env : Env) (pc : StartAt) : WProc (option StartAt) :=
  match pc with
  | StartGuard =>
      w <- get ;;
      if recording w
      then emit (Log DEBUG MStartWhileRecording) ;; ret None
      else ret (Some StartReset)
  | StartReset =>
      modify (set_audio_frames []) ;;
      modify (set_recording true) ;;
      modify (set_recording_start_time (Some (now env))) ;;
      ret (Some StartOpen)
  | StartOpen =>
      try_except
        (emit StreamCreate ;;
         outcome (stream_create env) ;;
         modify (set_stream (Some Created)) ;;
         emit StreamStart ;;
         outcome (stream_start env) ;;
         modify (set_stream (Some Active)) ;;
         emit (Log INFO MRecordingStarted) ;;
         with_visual (emit VisualStart ;;
                      Visual.start_recording (vis_env env AtStart)) ;;
         ret (Some StartTimer))
        (fun e => start_failed e ;; ret None)
  | StartTimer =>
      try_except
        (new_timer env ;; ret None)
        (fun e => start_failed e ;; ret None)
  end.

(** What the inner [try] does with the answer of the engine. *)
Definition handle_answer (env : Env) (audio_np : list Q) : WProc unit :=
  match transcribe env audio_np with
  | inl e => raise e
  | inr raw =>
      let text := strip raw in
      if truthy_str text
      then deliver env text
      else
        emit (Log WARNING MNoSpeech) ;;
        report_error env AtResult no_speech no_speech
  end.

(** The outer [try] from the check that the file exists to the call of the
    engine; the value is the array the engine is called with, [None] when
    the function returns before. *)
Definition verify_wav (env : Env) (audio_np : list Q)
    : WProc (option (list Q)) :=
  emit Sleep ;;
  w <- get ;;
  if negb (temp_wav w)
  then emit (Log ERROR MWavMissing) ;; ret None
  else
    emit (Log INFO MWavVerified) ;;
    try_except
      (emit WavReadBack ;;
       outcome (wav_read env) ;;
       emit (Log INFO MWavReadable))
      (fun e => emit (Log WARNING (MWavReadFailed e))) ;;
    emit (Log INFO MTranscribing) ;;
    emit (Log INFO MDirectNumpy) ;;
    emit (Transcribe audio_np) ;;
    ret (Some audio_np).

Definition serialize (env : Env) : WProc (option (list Q)) :=
  w <- get ;;
  emit (Log INFO MProcessingAudio) ;;
  emit (Log INFO (MCapturedFrames (List.length (audio_frames w)))) ;;
  let audio_np := List.concat (audio_frames w) in
  emit (Log INFO (MAudioShape (List.length audio_np))) ;;
  emit (Log INFO MSavingAudio) ;;
  wav_saved <- save_wav env ;;
  if negb wav_saved
  then emit (Log ERROR MAllWavFailed) ;; ret None
  else verify_wav env audio_np.

(** The body of the outer [try] up to the call of the engine. *)
Definition until_engine (env : Env) : WProc (option (list Q)) :=
  release_stream env ;;
  w <- get ;;
  match audio_frames w with
  | [] => emit (Log WARNING MNoAudioData) ;; ret None
  | _ :: _ => serialize env
  end.

(** The function from the return of the engine to its end. *)
Definition after_engine (env : Env) (audio_np : list Q) : WProc unit :=
  try_finally
    (try_except
       (try_except (handle_answer env audio_np) (transcription_failed env))
       processing_error)
    (cleanup env).

(** [stop_recording_and_transcribe] from one of these places to the next. *)
Definition stop_step (env : Env) (pc : StopAt) : WProc (option StopAt) :=
  match pc with
  | StopGuard =>
      w <- get ;;
      if negb (recording w)
      then emit (Log DEBUG MStopNoRecording) ;; ret None
      else ret (Some StopClaim)
  | StopClaim =>
      modify (set_recording false) ;;
      announce_stop env ;;
      cancel_timer ;;
      r <- try_except
             (audio_np <- until_engine env ;; ret (inl audio_np))
             (fun e => ret (inr e)) ;;
      match r with
      | inl (Some audio_np) => ret (Some (StopEngine audio_np))
      | inl None => cleanup env ;; ret None
      | inr e => try_finally (processing_error e) (cleanup env) ;; ret None
      end
  | StopEngine audio_np => after_engine env audio_np ;; ret None
  end.

(** A call in progress: a start, a stop, a callback of the stream, or the
    thread of timer [i], which waits for its deadline ([None]) or runs
    [stop_recording_and_transcribe]. *)
Inductive Task :=
| Starting (env : Env) (pc : StartAt)
| Stopping (env : Env) (pc : StopAt)
| Callback (indata : list Q) (status : bool)
| Timer (i : nat) (env : Env) (pc : option StopAt).

(** The task goes on to the next place; the value is what is left of it,
    [None] when the call has returned. *)
Definition step (t : Task) : WProc (option Task) :=
  match t with
  | Starting env pc =>
      pc' <- start_step env pc ;; ret (option_map (Starting env) pc')
  | Stopping env pc =>
      pc' <- stop_step env pc ;; ret (option_map (Stopping env) pc')
  | Callback indata status => audio_callback indata status ;; ret None
  | Timer i env None =>
      w <- get ;;
      match nth_error (timers w) i with
      | Some Armed =>
          modify (fun w =>
            set_timers (update_nth i (fun _ => Running) (timers w)) w) ;;
          ret (Some (Timer i env (Some StopGuard)))
      | _ => ret None
      end
  | Timer i env (Some pc) =>
      pc' <- stop_step env pc ;;
      match pc' with
      | Some p => ret (Some (Timer i env (Some p)))
      | None =>
          modify (fun w =>
            set_timers (update_nth i (fun _ => Finished) (timers w)) w) ;;
          ret None
      end
  end.

(** The call a request starts. *)
Definition task_of (r : Request) : Task :=
  match r with
  | ReqStart env => Starting env StartGuard
  | ReqStop env => Stopping env StopGuard
  | ReqAudio indata status => Callback indata status
  | ReqTimer i env => Timer i env None
  end.

(** The threads taking turns: the schedule names, turn by turn, the task
    that goes on to its next place; a turn given to a task that has
    returned does nothing, and an exception that leaves a task ends that
    task only.  The value is what is left of the tasks. *)
Fixpoint interleave (schedule : list nat) (tasks : list (option Task))
    : WProc (list (option Task)) :=
  match schedule with
  | [] => ret tasks
  | i :: rest =>
      match nth_error tasks i with
      | Some (Some t) =>
          t' <- try_except (step t) (fun _ => ret None) ;;
          interleave rest (update_nth i (fun _ => t') tasks)
      | _ => interleave rest tasks
      end
  end.

(** The schedule that runs [n] tasks one after the other, each to its
    end: no call takes more than four turns. *)
Definition one_by_one (n : nat) : list nat :=
  flat_map (fun i => repeat i 4) (seq 0 n).

(** *** The model, the listeners and [main] *)

Definition MODEL_NAME : string := "medium".
Definition HOTKEY_TOGGLE : string := "ctrl+alt+t".
Definition EXIT_HOTKEY : string := "esc".

(** The globals of the module: those of a recording, and [model], [None]
    until the model is loaded. *)
Record Program := mkProgram {
  globals : World;
  model : bool
}.

Definition AProc := Proc Program AppEvent.

Definition set_model (b : bool) (p : Program) := mkProgram (globals p) b.
Definition set_globals (w : World) (p : Program) := mkProgram w (model p).

(** A computation on the globals of a recording as one of the program. *)
Definition on_globals {A} (m : Proc World AppEvent A) : AProc A :=
  zoom globals set_globals m.

Definition set_session_logger (lg : option SessionLog.SessionLogger) (w : World) :=
  mkWorld (recording w) (audio_frames w) (stream w) (auto_stop_timer w)
          (timers w) (visual_indicator w) lg (recording_start_time w)
          (log_fs w) (temp_wav w).
Definition set_log_fs (fs : SessionLog.LogFS) (w : World) :=
  mkWorld (recording w) (audio_frames w) (stream w) (auto_stop_timer w)
          (timers w) (visual_indicator w) (session_logger w)
          (recording_start_time w) fs (temp_wav w).

(** *** load_whisper_model *)

Definition load_whisper_model (load_model : option Exn) : AProc bool :=
  try_except
    (emit (AppLog INFO MLoadingModel) ;;
     emit LoadModel ;;
     outcome load_model ;;
     modify (set_model true) ;;
     emit (AppLog INFO MModelLoaded) ;;
     ret true)
    (fun e => emit (AppLog ERROR (MModelLoadFailed e)) ;; ret false).

(** *** hotkey_listener *)

(** One press of the hot key: what [keyboard.wait] and the start of the
    thread do, and the environment of the function the thread runs. *)
Record Press := mkPress {
  wait_toggle : option Exn;            (* keyboard.wait(HOTKEY_TOGGLE) *)
  spawn : option Exn;                  (* threading.Thread(...).start() *)
  press_env : Env
}.

(** What the listener gets while it waits: a press of the hot key, or a
    [KeyboardInterrupt], which no [except Exception] catches. *)
Inductive Key :=
| Toggle (p : Press)
| Interrupt.

(** How far the listener got: it still waits for a key, it left its loop
    after an error, or it was interrupted. *)
Inductive ListenerEnd := Waiting | Broke | Interrupted.

(** [threading.Thread(target=m, daemon=True).start()]: the thread runs to
    its end before the next key is handled; an exception raised inside the
    thread does not reach the thread that started it. *)
Definition start_thread (t : Target) (o : option Exn) (m : WProc unit)
    : Proc World AppEvent unit :=
  emit (Spawn t) ;;
  outcome o ;;
  try_except (core m) (fun _ => ret tt).

(** The body of the [try] of the loop. *)
Definition handle_press (p : Press) : Proc World AppEvent unit :=
  emit WaitToggle ;;
  outcome (wait_toggle p) ;;
  w <- get ;;
  if negb (recording w)
  then start_thread TStartRecording (spawn p) (start_recording (press_env p))
  else start_thread TStopRecording (spawn p)
         (stop_recording_and_transcribe (press_env p)).

(** The loop [while True], over the keys the listener gets. *)
Fixpoint listen (keys : list Key) : Proc World AppEvent ListenerEnd :=
  match keys with
  | [] => emit WaitToggle ;; ret Waiting
  | Interrupt :: _ => emit WaitToggle ;; ret Interrupted
  | Toggle p :: rest =>
      again <- try_except
                 (handle_press p ;; ret true)
                 (fun e =>
                    emit (AppLog ERROR (MHotkeyListenerError e)) ;; ret false) ;;
      if again then listen rest else ret Broke
  end.

Definition hotkey_listener (keys : list Key) : Proc World AppEvent ListenerEnd :=
  emit (AppLog INFO MHotkeyHelp) ;;
  emit (AppLog INFO MReady) ;;
  listen keys.

(** *** exit_listener *)

(** What the outside world does once the exit key is pressed. *)
Record ExitEnv := mkExitEnv {
  wait_exit : option Exn;              (* keyboard.wait(EXIT_HOTKEY) *)
  exit_stream_stop : option Exn;       (* stream.stop() *)
  exit_stream_close : option Exn;      (* stream.close() *)
  exit_remove : option Exn;            (* os.remove(TEMP_WAV_PATH) *)
  exit_log_env : SessionLog.LogEnv;
  exit_vis_env : Visual.VisEnv
}.

(** [if session_logger: session_logger.close_session()] *)
Definition close_session_log (env : ExitEnv) : WProc unit :=
  w <- get ;;
  match session_logger w with
  | Some lg =>
      zoom (fun w => (lg, log_fs w)) set_logger
           (SessionLog.close_session (exit_log_env env)) ;;
      ret tt
  | None => ret tt
  end.

(** [if visual_indicator: visual_indicator.cleanup()] *)
Definition cleanup_indicator (env : ExitEnv) : WProc unit :=
  w <- get ;;
  match visual_indicator w with
  | Some v =>
      zoom (fun _ => v) (fun v' => set_visual_indicator (Some v'))
           (Visual.cleanup (exit_vis_env env))
  | None => ret tt
  end.

(** [if recording and stream: stream.stop(); stream.close()]; the global
    keeps referring to the stream. *)
Definition release_on_exit (env : ExitEnv) : WProc unit :=
  w <- get ;;
  when (recording w && is_some (stream w))
    (emit StreamStop ;;
     outcome (exit_stream_stop env) ;;
     modify (set_stream (Some Stopped)) ;;
     emit StreamClose ;;
     outcome (exit_stream_close env)).

(** [if os.path.exists(TEMP_WAV_PATH): os.remove(TEMP_WAV_PATH)] *)
Definition remove_on_exit (env : ExitEnv) : WProc unit :=
  w <- get ;;
  when (temp_wav w)
    (emit RemoveTemp ;;
     outcome (exit_remove env) ;;
     modify (set_temp_wav false)).

(** From the exit signal to [os._exit(0)]. *)
Definition shut_down (env : ExitEnv) : WProc unit :=
  release_on_exit env ;;
  remove_on_exit env ;;
  close_session_log env ;;
  cleanup_indicator env.

(** The value is the status the process ends with. *)
Definition exit_listener (env : ExitEnv) : Proc World AppEvent nat :=
  try_except
    (emit WaitExit ;;
     outcome (wait_exit env) ;;
     emit (AppLog INFO MExitSignal) ;;
     core (shut_down env) ;;
     emit (ProcessExit 0) ;;
     ret 0%nat)
    (fun e =>
       emit (AppLog ERROR (MExitListenerError e)) ;;
       emit (ProcessExit 1) ;;
       ret 1%nat).

(** *** main *)

(** What the outside world does while [main] sets the program up. *)
Record MainEnv := mkMainEnv {
  load_model : option Exn;             (* whisper.load_model(MODEL_NAME) *)
  logger_env : SessionLog.LogEnv;      (* SessionLogger(...) *)
  setup_env : Visual.SetupEnv;        (* SimpleVisualIndicator(...) *)
  exit_thread : option Exn             (* exit_thread.start() *)
}.

(** [os.path.basename(None)] raises a [TypeError]. *)
Definition basename_of_none : Exn :=
  "expected str, bytes or os.PathLike object, not NoneType".

(** The block [if ENABLE_SESSION_LOGGING:] of [main]. *)
Definition init_session_logging (env : MainEnv) : Proc World AppEvent unit :=
  when ENABLE_SESSION_LOGGING
    (try_except
       (w <- get ;;
        match SessionLog.init (logger_env env) LOG_FOLDER_PATH
                LOG_INCLUDE_METADATA (log_fs w) with
        | (Val _, s, t) =>
            tell (map Core t) ;;
            modify (set_logger s) ;;
            let session_info := SessionLog.get_session_info (fst s) in
            emit (AppLog INFO MSessionLoggingInitialized) ;;
            emit (AppLog INFO MLogFolder) ;;
            match SessionLog.info_session_file session_info with
            | Some _ => emit (AppLog INFO MSessionFile)
            | None => raise basename_of_none
            end
        | (Raise e, s, t) =>
            tell (map Core t) ;;
            modify (set_log_fs (snd s)) ;;
            raise e
        end)
       (fun e =>
          emit (AppLog WARNING (MSessionLoggingFailed e)) ;;
          emit (AppLog INFO MWithoutSessionLogging) ;;
          modify (set_session_logger None))).

(** The block [if ENABLE_VISUAL_INDICATORS:] of [main]. *)
Definition init_visual_indicators (env : MainEnv) : Proc World AppEvent unit :=
  when ENABLE_VISUAL_INDICATORS
    (try_except
       (match Visual.init (setup_env env) MAX_DURATION_SEC with
        | (Val v, t) =>
            tell t ;;
            modify (set_visual_indicator (Some v)) ;;
            emit (AppLog INFO MVisualInitialized)
        | (Raise e, t) => tell t ;; raise e
        end)
       (fun e =>
          emit (AppLog WARNING (MVisualInitFailed e)) ;;
          emit (AppLog INFO MWithoutVisual))).

(** How a run of [main] ends: [main] returns a value, or the exit listener
    ends the process, or the program still waits for a key. *)
Inductive Ending :=
| Returned (code : option nat)
| Exited (status : nat)
| StillRunning.


(** [main], for the keys the hot-key listener gets and, if the exit key is
    pressed while the listener waits after them, what happens then. *)
Definition main (env : MainEnv) (keys : list Key) (esc : option ExitEnv)
    : AProc Ending :=
  emit Banner ;;
  emit (AppLog INFO MWorkingDirectory) ;;
  emit (AppLog INFO MTempFilePath) ;;
  loaded <- load_whisper_model (load_model env) ;;
  if negb loaded
  then emit (AppLog ERROR MInitFailed) ;; ret (Returned (Some 1%nat))
  else
    on_globals (init_session_logging env) ;;
    on_globals (init_visual_indicators env) ;;
    try_except
      (emit (Spawn TExitListener) ;;
       outcome (exit_thread env) ;;
       e <- on_globals (hotkey_listener keys) ;;
       match e with
       | Interrupted =>
           emit (AppLog INFO MInterrupted) ;; ret (Returned (Some 0%nat))
       | Broke => ret (Returned None)
       | Waiting =>
           match esc with
           | Some x => c <- on_globals (exit_listener x) ;; ret (Exited c)
           | None => ret StillRunning
           end
       end)
      (fun e =>
         emit (AppLog ERROR (MUnexpectedError e)) ;; ret (Returned (Some 1%nat))).

(** The program before [main] runs. *)
Definition program0 (fs : SessionLog.LogFS) (wav : bool) : Program :=
  mkProgram (initial None None fs wav) false.

End Transcriber.

(** * Vocabulary of the statements *)

Import Transcriber.

(** Number of events of a trace that satisfy [p]. *)
Definition count (p : Event -> bool) (t : list Event) : nat :=
  List.length (filter p t).

Definition is_transcribe (e : Event) : bool :=
  match e with Transcribe _ => true | _ => false end.
Definition is_clipboard (e : Event) : bool :=
  match e with ClipboardCopy _ => true | _ => false end.
Definition is_paste (e : Event) : bool :=
  match e with PasteHotkey => true | _ => false end.
Definition is_session_log (e : Event) : bool :=
  match e with
  | SessionLogTranscription _ _ _ | SessionLogError _ _ => true
  | _ => false
  end.
Definition is_visual_result (e : Event) : bool :=
  match e with VisualComplete _ | VisualError _ => true | _ => false end.
Definition is_warning_30 (e : Event) : bool :=
  match e with ShowNotification NWarning30 => true | _ => false end.
Definition is_warning_10 (e : Event) : bool :=
  match e with ShowNotification NWarning10 => true | _ => false end.

(** Events produced inside the methods of the collaborators: the lines
    they log and the notifications they show. *)
Definition presentational (e : Event) : bool :=
  match e with
  | Log _ _ | ShowNotification _ | Toast _ => true
  | _ => false
  end.

(** Events that are neither the engine, nor the delivery of a result, nor a
    call that reports an outcome to a collaborator. *)
Definition quiet (e : Event) : bool :=
  negb (is_transcribe e || is_clipboard e || is_paste e
        || is_session_log e || is_visual_result e).

(** Judgements on computations: the events of every run satisfy [p]; no run
    raises; every run leaves the component [f] of the state as it was. *)
Definition only {S E A} (p : E -> bool) (m : Proc S E A) : Prop :=
  forall s, forallb p (trace (m s)) = true.
Definition total {S E A} (m : Proc S E A) : Prop :=
  forall s, exists a, result (m s) = Val a.
Definition keeps {S E A T} (f : S -> T) (m : Proc S E A) : Prop :=
  forall s, f (state (m s)) = f s.

(** Stopping and closing the stream raise nothing (or there is no stream). *)
Definition release_ok (env : Transcriber.Env) (w : Transcriber.World) : bool :=
  match Transcriber.stream w with
  | None => true
  | Some _ => negb (is_some (Transcriber.stream_stop env))
              && negb (is_some (Transcriber.stream_close env))
  end.

Definition write_ok (o : Transcriber.WriteOutcome) : bool :=
  match o with
  | Transcriber.WriteOk => true
  | Transcriber.WriteFails _ _ => false
  end.

Definition soundfile_ok (o : Transcriber.SoundfileOutcome) : bool :=
  match o with
  | Transcriber.SfWrite o => write_ok o
  | Transcriber.SfUnavailable => false
  end.

(** One of the three methods writes the WAV file. *)
Definition wav_saved (env : Transcriber.Env) : bool :=
  soundfile_ok (Transcriber.soundfile env)
  || write_ok (Transcriber.scipy_write env)
  || write_ok (Transcriber.wave_write env).

Definition has_frames (w : Transcriber.World) : bool :=
  match Transcriber.audio_frames w with
  | [] => false
  | _ :: _ => true
  end.

(** The stop gets as far as calling the engine. *)
Definition reaches_engine (env : Transcriber.Env) (w : Transcriber.World) : bool :=
  release_ok env w && has_frames w && wav_saved env.

(** [stop_recording_and_transcribe] past its guard. *)
Definition stop_body (env : Transcriber.Env) : Transcriber.WProc unit :=
  modify (Transcriber.set_recording false) ;;
  Transcriber.announce_stop env ;;
  Transcriber.cancel_timer ;;
  try_finally (Transcriber.guarded_process env) (Transcriber.cleanup env).

(** What the processing of a stop reads from the globals. *)
Definition inputs (w : Transcriber.World) :=
  (Transcriber.recording w, Transcriber.audio_frames w, Transcriber.stream w,
   Transcriber.session_logger w, Transcriber.log_fs w,
   Transcriber.recording_start_time w, Transcriber.temp_wav w).

(** The events of a guarded call of a collaborator method: nothing when
    the collaborator is absent, else the call followed by what the method
    logs and shows. *)
Definition call_shape (present : bool) (ev : Event) (t : list Event) : Prop :=
  if present
  then exists t', t = ev :: t' /\ forallb presentational t' = true
  else t = [].

(** What the reports of a stop depend on. *)
Definition context (w : Transcriber.World) :=
  (Transcriber.recording w, Transcriber.audio_frames w, Transcriber.recording_start_time w, Transcriber.temp_wav w,
   is_some (Transcriber.session_logger w), is_some (Transcriber.visual_indicator w)).

(** How the delivery ends once [pyperclip.copy(text)] is called: the result
    and the events that follow the call. *)
Definition delivery_tail (env : Transcriber.Env) : Res unit * list Event :=
  match Transcriber.clipboard env with
  | Some e => (Raise e, [])
  | None =>
      match Transcriber.hotkey env with
      | Some e => (Raise e, [Sleep; PasteHotkey])
      | None => (Val tt, [Sleep; PasteHotkey; Log INFO MPasted])
      end
  end.

(** The lines the handler of the inner [try] logs, [wav] telling whether
    the WAV file exists. *)
Definition diagnostics (wav : bool) (e : Exn) : list Event :=
  [Log ERROR (MTranscriptionError e); Log ERROR MDiagPath;
   Log ERROR MDiagAbsPath; Log ERROR (MDiagExists wav)]
  ++ (if wav then [Log ERROR MDiagSize] else []).

(** The events of a failure outcome forwarded to the session log (when
    there is a logger) and to the visual indicator (when there is one),
    for a session started at [started]. *)
Definition failure_report (started : option Timestamp) (logger visual : bool)
    (logged shown : string) (t : list Event) : Prop :=
  exists tl tv,
    t = tl ++ tv
    /\ call_shape logger (SessionLogError logged (Transcriber.start_datetime started)) tl
    /\ call_shape visual (VisualError shown) tv.

Definition transcription_failed_message (e : Exn) : string :=
  String.append "Transcription failed: " e.

(** What follows the call of the engine in the inner [try], for a session
    started at [started], with or without a logger and a visual indicator,
    the WAV file existing or not. *)
Definition block_rest (env : Transcriber.Env) (audio : list Q)
    (started : option Timestamp) (logger visual wav : bool)
    (rest : list Event) : Prop :=
  match Transcriber.transcribe env audio with
  | inl e =>
      exists t,
        rest = diagnostics wav e ++ t
        /\ failure_report started logger visual
             (transcription_failed_message e) "Transcription failed" t
  | inr raw =>
      let text := strip raw in
      if truthy_str text
      then
        exists tl tv t,
          rest = Log INFO (MTranscription text)
                 :: tl ++ tv
                 ++ ClipboardCopy text :: snd (delivery_tail env) ++ t
          /\ call_shape logger
               (SessionLogTranscription text
                  (Transcriber.measured_duration env started)
                  (Transcriber.start_datetime started)) tl
          /\ call_shape visual (VisualComplete text) tv
          /\ match fst (delivery_tail env) with
             | Val _ => t = []
             | Raise e =>
                 exists t',
                   t = diagnostics wav e ++ t'
                   /\ failure_report started logger visual
                        (transcription_failed_message e)
                        "Transcription failed" t'
             end
      else
        exists t,
          rest = Log WARNING MNoSpeech :: t
          /\ failure_report started logger visual
               Transcriber.no_speech Transcriber.no_speech t
  end.

(** The environment makes [open] raise, or one of the first [n] writes. *)
Definition io_fails (env : SessionLog.LogEnv) (n : nat) : bool :=
  is_some (SessionLog.open_exn env)
  || match SessionLog.write_exn env with
     | Some (k, _) => Nat.ltb k n
     | None => false
     end.

(** A logger whose session file could not be created, and an environment
    in which nothing fails. *)
Definition logger_without_file : SessionLog.SessionLogger :=
  SessionLog.mkLogger LOG_FOLDER_PATH LOG_INCLUDE_METADATA None (Some 100) 0.
Definition logger_with_file : SessionLog.SessionLogger :=
  SessionLog.mkLogger LOG_FOLDER_PATH LOG_INCLUDE_METADATA
    (Some (LOG_FOLDER_PATH, 100)) (Some 100) 0.
Definition quiet_log_env : SessionLog.LogEnv :=
  SessionLog.mkLogEnv 160 None None None.
Definition empty_log_fs : SessionLog.LogFS :=
  SessionLog.mkLogFS true (Some []).

(** The text a transcription yields, when it yields one that is not empty. *)
Definition result_text (env : Transcriber.Env) (audio : list Q)
    : option Str :=
  match Transcriber.transcribe env audio with
  | inl _ => None
  | inr raw => if truthy_str (strip raw) then Some (strip raw) else None
  end.

(** ** Concrete sessions *)

Definition quiet_vis_env : Visual.VisEnv := Visual.mkVisEnv 105 None None.

(** An environment in which stopping the stream raises [stop_exn], the
    three writers end as [sf], [sc] and [wv], the engine answers [answer],
    the clipboard raises [clip] and the removal of the file [rm]; nothing
    else fails. *)
Definition make_env (stop_exn : option Exn)
    (sf : Transcriber.SoundfileOutcome) (sc wv : Transcriber.WriteOutcome)
    (answer : Exn + Str) (clip rm : option Exn) : Transcriber.Env :=
  Transcriber.mkEnv 112 None None None stop_exn None sf sc wv None
    (fun _ => answer) clip None rm
    (fun _ => quiet_vis_env) (fun _ => quiet_log_env).

Definition env_ok : Transcriber.Env :=
  make_env None (Transcriber.SfWrite Transcriber.WriteOk) Transcriber.WriteOk
    Transcriber.WriteOk (inr (text_of " hello world ")) None None.


(** [stream.stop()] raises. *)
Definition env_stop_raises : Transcriber.Env :=
  make_env (Some "PortAudioError") (Transcriber.SfWrite Transcriber.WriteOk)
    Transcriber.WriteOk Transcriber.WriteOk (inr (text_of " hello world ")) None None.

(** The three ways of writing the WAV file fail. *)
Definition env_no_wav : Transcriber.Env :=
  make_env None Transcriber.SfUnavailable
    (Transcriber.WriteFails "disk full" true)
    (Transcriber.WriteFails "disk full" true) (inr (text_of " hello world ")) None None.

(** The engine raises. *)
Definition env_engine_raises : Transcriber.Env :=
  make_env None (Transcriber.SfWrite Transcriber.WriteOk) Transcriber.WriteOk
    Transcriber.WriteOk (inl "out of memory") None None.


(** [os.remove] raises. *)
Definition env_no_remove : Transcriber.Env :=
  make_env None (Transcriber.SfWrite Transcriber.WriteOk) Transcriber.WriteOk
    Transcriber.WriteOk (inr (text_of " hello world ")) None (Some "file in use").

Definition indicator0 : Visual.SimpleVisualIndicator :=
  Visual.mkVI Transcriber.MAX_DURATION_SEC false None None true false false
              false true.

(** The program after [main] set it up, a session that captured nothing
    yet, and a session that captured one chunk. *)
Definition world_idle : Transcriber.World :=
  Transcriber.initial (Some indicator0) (Some logger_with_file) empty_log_fs
                      false.
Definition world_silent : Transcriber.World :=
  fst (Transcriber.run [Transcriber.ReqStart env_ok] world_idle).
Definition world_capturing : Transcriber.World :=
  fst (Transcriber.run
         [Transcriber.ReqStart env_ok; Transcriber.ReqAudio [1; 2] false]
         world_idle).

(** ** Timers and starts *)

(** The request is a stop, a timer reaching its deadline or a chunk of
    audio: anything but a start. *)
Definition no_start (r : Request) : bool :=
  match r with
  | ReqStart _ => false
  | _ => true
  end.

(** The timer waits for its deadline. *)
Definition armed (t : TimerSt) : bool :=
  match t with Armed => true | _ => false end.

(** No timer of the heap waits for its deadline. *)
Definition no_timer_armed (w : World) : bool :=
  forallb (fun t => negb (armed t)) (timers w).

(** Creating or starting the input stream raises. *)
Definition opening_fails (env : Env) : bool :=
  is_some (stream_create env) || is_some (stream_start env).

(** The start raises inside its [try]: the stream cannot be opened, or the
    thread of the auto-stop timer cannot be started. *)
Definition start_raises (env : Env) : bool :=
  opening_fails env || is_some (timer_start env).

(** The exception a failing start catches. *)
Definition opening_error (env : Env) : Exn :=
  match stream_create env, stream_start env with
  | Some e, _ => e
  | None, Some e => e
  | None, None => ""
  end.


(** The states the program gets into from its initial state by serving
    calls one after the other, each to its end before the next begins. *)
Definition reachable (w : World) : Prop :=
  exists v lg fs wav rs, w = fst (run rs (initial v lg fs wav)).

(** Only while a recording is in progress is a timer armed, and then it is
    the one [auto_stop_timer] refers to. *)
Definition timers_owned (w : World) : Prop :=
  forall i, nth_error (timers w) i = Some Armed ->
            recording w = true /\ auto_stop_timer w = Some i.

(** The heap once the timer [auto_stop_timer] refers to was cancelled. *)
Definition cancelled_timers (w : World) : list TimerSt :=
  match auto_stop_timer w with
  | Some i => update_nth i cancel (timers w)
  | None => timers w
  end.

Definition no_armed (l : list TimerSt) : Prop :=
  forall j, nth_error l j <> Some Armed.

(** The program after a complete session. *)
Definition world_after_session : Transcriber.World :=
  fst (Transcriber.run
         [Transcriber.ReqStart env_ok; Transcriber.ReqAudio [1; 2] false;
          Transcriber.ReqStop env_ok]
         world_idle).

(** The globals a failed start leaves behind. *)
Definition after_failed_start (env : Env) (w : World) : World :=
  let w1 := set_recording_start_time (Some (now env))
              (set_recording true (set_audio_frames [] w)) in
  set_recording false
    (match stream_create env with
     | Some _ => w1
     | None => set_stream (Some Created) w1
     end).

(** ** The monitor of the recording time *)

(** The clock readings of the monitor: [n] iterations, the first [offset]
    seconds after [t0], each [period] seconds after the one before. *)
Definition session_ticks (t0 offset period : Q) (n : nat) : list Visual.VisEnv :=
  map (fun k => Visual.mkVisEnv (t0 + offset + period * inject_Z (Z.of_nat k))
                                None None)
      (seq 0 n).

(** Consecutive readings are between [lo] and [hi] seconds apart. *)
Fixpoint gaps_within (lo hi : Q) (ts : list Q) : bool :=
  match ts with
  | a :: (b :: _) as rest =>
      Qle_bool lo (b - a) && Qle_bool (b - a) hi && gaps_within lo hi rest
  | _ => true
  end.

(** The monitor observes a whole session started at [t0] that lasts [d]
    seconds: it reads the clock within a second of the start, then every
    second, with at most a hundredth of a second of delay, until the
    session is over. *)
Definition full_session (t0 d : Q) (ts : list Q) : bool :=
  match ts with
  | [] => false
  | first :: _ =>
      Qle_bool t0 first && Qle_bool first (t0 + 1)
      && gaps_within 1 (101 # 100) ts
      && Qle_bool (t0 + d) (last ts first)
  end.

Definition seen_30 (v : Visual.SimpleVisualIndicator) (t0 : Timestamp)
    (ticks : list Visual.VisEnv) : bool :=
  existsb (fun env => Visual.in_window_30
                        (Visual.remaining v t0 (Visual.vis_now env))) ticks.
Definition seen_10 (v : Visual.SimpleVisualIndicator) (t0 : Timestamp)
    (ticks : list Visual.VisEnv) : bool :=
  existsb (fun env => Visual.in_window_10
                        (Visual.remaining v t0 (Visual.vis_now env))) ticks.

(** The monitor, one millisecond late at every iteration. *)
Definition late_ticks : list Visual.VisEnv :=
  session_ticks 105 (463 # 2000) (1001 # 1000) 1800.

(** The monitor on time: one iteration every second. *)
Definition punctual_ticks : list Visual.VisEnv :=
  session_ticks 105 (1 # 2) 1 1800.

(** ** Sessions of the logger *)

(** The call numbers a recording. *)
Definition numbers_recording (c : SessionLog.Call) : bool :=
  match c with
  | SessionLog.LogTranscription _ _ _ | SessionLog.LogError _ _ => true
  | SessionLog.AddSessionNote _ | SessionLog.CloseSession => false
  end.

(** Number of recordings a sequence of calls reports. *)
Definition recordings (cs : list (SessionLog.LogEnv * SessionLog.Call))
    : nat :=
  List.length (filter (fun ec => numbers_recording (snd ec)) cs).

(** The numbers of the entries of a session file, in the order of the file. *)
Fixpoint entry_numbers (c : list SessionLog.Chunk) : list nat :=
  match c with
  | [] => []
  | SessionLog.EntryHead _ n :: r => n :: entry_numbers r
  | SessionLog.ErrorHead _ n :: r => n :: entry_numbers r
  | _ :: r => entry_numbers r
  end.

(** Each number of [l] is greater than the one before, the first greater
    than [lo]. *)
Fixpoint increasing_from (lo : nat) (l : list nat) : bool :=
  match l with
  | [] => true
  | n :: r => Nat.ltb lo n && increasing_from n r
  end.

(** Neither opening the file nor writing to it fails in the environment. *)
Definition io_works (env : SessionLog.LogEnv) : bool :=
  negb (is_some (SessionLog.open_exn env))
  && negb (is_some (SessionLog.write_exn env)).

(** The folder cannot be made, or the file cannot be opened, or one of the
    seven lines of the header cannot be written. *)
Definition creation_fails (env : SessionLog.LogEnv) (fs : SessionLog.LogFS)
    : bool :=
  (negb (SessionLog.folder_exists fs)
   && is_some (SessionLog.makedirs_exn env))
  || io_fails env 7.

(** The footer [close_session] writes. *)
Definition footer_chunks (ended : Timestamp) (total : Q) (n : nat)
    : list SessionLog.Chunk :=
  [SessionLog.FRule; SessionLog.FTitle; SessionLog.HRule;
   SessionLog.FSessionEnded ended; SessionLog.FTotalDuration total;
   SessionLog.FTotalRecordings n; SessionLog.HRule].

(** ** Sessions of the visual indicator *)

Definition is_toast (e : Event) : bool :=
  match e with Toast _ => true | _ => false end.
Definition is_show_notification (e : Event) : bool :=
  match e with ShowNotification _ => true | _ => false end.
Definition is_tray_stop (e : Event) : bool :=
  match e with TrayStop => true | _ => false end.

Definition is_start_call (c : Visual.Call) : bool :=
  match c with Visual.StartRecording => true | _ => false end.

Definition imported (o : Visual.ImportOutcome) : bool :=
  match o with Visual.Imported => true | _ => false end.
Definition import_raises (o : Visual.ImportOutcome) : bool :=
  match o with Visual.ImportRaises _ => true | _ => false end.

(** The warning a recording may still show: one while the recording is in
    progress and the warning was not shown, none otherwise. *)
Definition due_30 (v : Visual.SimpleVisualIndicator) : nat :=
  if Visual.recording v && negb (Visual.warning_30_shown v) then 1 else 0.
Definition due_10 (v : Visual.SimpleVisualIndicator) : nat :=
  if Visual.recording v && negb (Visual.warning_10_shown v) then 1 else 0.

(** No call of the sequence is [start_recording]. *)
Definition same_recording (cs : list (Visual.VisEnv * Visual.Call)) : bool :=
  forallb (fun ec => negb (is_start_call (snd ec))) cs.

(** The constructor of the indicator raises: an import raises something
    else than [ImportError], or the monitor thread cannot be started. *)
Definition construction_raises (env : Visual.SetupEnv) : bool :=
  import_raises (Visual.import_pystray env)
  || import_raises (Visual.import_plyer env)
  || is_some (Visual.monitor_thread env).

(** The indicator a constructor that returns builds. *)
Definition constructed (env : Visual.SetupEnv) (d : Q)
    : Visual.SimpleVisualIndicator :=
  Visual.mkVI d false None
    (if imported (Visual.import_pystray env)
        && negb (is_some (Visual.icon_create env))
     then Some Visual.idle_tray else None)
    true false false
    (imported (Visual.import_pystray env))
    (imported (Visual.import_plyer env)).

(** ** Writing the WAV file, the buffer, the delivered text *)

Definition is_soundfile_write (e : Event) : bool :=
  match e with SoundfileWrite => true | _ => false end.
Definition is_scipy_write (e : Event) : bool :=
  match e with ScipyWrite => true | _ => false end.
Definition is_wave_write (e : Event) : bool :=
  match e with WaveWrite => true | _ => false end.

(** The file a failed attempt leaves behind, if any. *)
Definition leftover_of (o : WriteOutcome) : bool :=
  match o with
  | WriteOk => false
  | WriteFails _ leftover => leftover
  end.

Definition soundfile_leftover (o : SoundfileOutcome) : bool :=
  match o with
  | SfUnavailable => false
  | SfWrite o => leftover_of o
  end.

(** The chunks of audio as requests. *)
Definition audio_requests (chunks : list (list Q * bool)) : list Request :=
  map (fun c => ReqAudio (fst c) (snd c)) chunks.

(** The first character of the string is white space. *)
Definition starts_with_space (s : Str) : bool :=
  match s with
  | [] => false
  | c :: _ => is_space c
  end.

(** The last character of the string is white space. *)
Fixpoint ends_with_space (s : Str) : bool :=
  match s with
  | [] => false
  | [c] => is_space c
  | _ :: r => ends_with_space r
  end.

(** The events that hand a transcribed text on: to the clipboard, to the
    session log, to the visual indicator. *)
Definition is_delivery (e : Event) : bool :=
  match e with
  | ClipboardCopy _ | VisualComplete _ | SessionLogTranscription _ _ _ => true
  | _ => false
  end.

(** The text such an event hands on. *)
Definition delivered_text (e : Event) : Str :=
  match e with
  | ClipboardCopy text | VisualComplete text
  | SessionLogTranscription text _ _ => text
  | _ => []
  end.

(** ** The listeners and [main] *)

(** The events of a recording among those of the program. *)
Definition core_events (t : list AppEvent) : list Event :=
  flat_map (fun e => match e with Core x => [x] | _ => [] end) t.

(** Neither [keyboard.wait] nor the start of the thread raises. *)
Definition press_works (p : Press) : bool :=
  negb (is_some (wait_toggle p)) && negb (is_some (spawn p)).

(** The request a press of the hot key amounts to. *)
Definition request_of (p : Press) (w : World) : Request :=
  if recording w then ReqStop (press_env p) else ReqStart (press_env p).

(** The requests the listener has served when it is through with the
    keys. *)
Fixpoint served (keys : list Key) (w : World) : list Request :=
  match keys with
  | Toggle p :: rest =>
      if press_works p
      then request_of p w :: served rest (state (serve (request_of p w) w))
      else []
  | _ => []
  end.

(** How the listener ends on the keys. *)
Fixpoint listener_end (keys : list Key) : ListenerEnd :=
  match keys with
  | [] => Waiting
  | Interrupt :: _ => Interrupted
  | Toggle p :: rest => if press_works p then listener_end rest else Broke
  end.

(** A recording is in progress and stopping or closing its stream raises. *)
Definition release_fails_on_exit (env : ExitEnv) (w : World) : bool :=
  recording w && is_some (stream w)
  && (is_some (exit_stream_stop env) || is_some (exit_stream_close env)).

(** The temporary file exists and removing it raises. *)
Definition remove_fails_on_exit (env : ExitEnv) (w : World) : bool :=
  temp_wav w && is_some (exit_remove env).

(** Something raises inside the [try] of [exit_listener]. *)
Definition exit_fails (env : ExitEnv) (w : World) : bool :=
  is_some (wait_exit env)
  || release_fails_on_exit env w
  || remove_fails_on_exit env w.

(** The session file the logger of the program writes to, if there is a
    logger ([None]: no logger; [Some None]: a logger without a file). *)
Definition logger_file (w : World) : option (option (string * Timestamp)) :=
  option_map SessionLog.session_file_path (session_logger w).

(** The globals once [main] has set up the session log and the visual
    indicator. *)
Definition after_setup (env : MainEnv) (w : World) : World :=
  state (init_visual_indicators env (state (init_session_logging env w))).

(** The globals when the listener is through with the keys. *)
Definition after_keys (env : MainEnv) (keys : list Key) (w : World) : World :=
  fst (run (served keys (after_setup env w)) (after_setup env w)).

(** An environment of [main] in which the model loads, the session file is
    created and plyer is the one optional library installed; an exit
    thread in whose environment nothing raises. *)
Definition main_env_ok : MainEnv :=
  mkMainEnv None quiet_log_env
    (Visual.mkSetupEnv Visual.Missing Visual.Imported None None None) None.

Definition exit_env_ok : ExitEnv :=
  mkExitEnv None None None None quiet_log_env quiet_vis_env.

(** How [main] ends on the keys, once the model is loaded and the exit
    thread runs. *)
Definition ending_on (env : MainEnv) (keys : list Key) (esc : option ExitEnv)
    (w : World) : Ending :=
  match listener_end keys with
  | Interrupted => Returned (Some 0%nat)
  | Broke => Returned None
  | Waiting =>
      match esc with
      | Some x =>
          Exited (if exit_fails x (after_keys env keys w) then 1 else 0)%nat
      | None => StillRunning
      end
  end.

(** ** Threads *)

(** What the inner [try] still does once [until_engine] has returned. *)
Definition after_until_engine (env : Env) (r : option (list Q)) : WProc unit :=
  match r with
  | Some audio_np =>
      try_except (handle_answer env audio_np) (transcription_failed env)
  | None => ret tt
  end.

(** The task taking [n] turns in a row. *)
Fixpoint turns (n : nat) (t : option Task) : WProc (option Task) :=
  match n, t with
  | Datatypes.S k, Some t => t' <- step t ;; turns k t'
  | _, _ => ret t
  end.

(** An environment in which nothing fails, the clock reading [t]. *)
Definition env_at (t : Timestamp) : Env :=
  mkEnv t None None None None None (SfWrite WriteOk) WriteOk WriteOk None
    (fun _ => inr (text_of " hello world ")) None None None
    (fun _ => quiet_vis_env) (fun _ => quiet_log_env).

(** The engine answers with white space of all kinds around the text:
    U+00A0, U+2003, then the text, then U+0085, a line feed and U+3000. *)
Definition env_unicode : Env :=
  make_env None (SfWrite WriteOk) WriteOk WriteOk
    (inr ([160; 8195]%N ++ text_of "hello world" ++ [133; 10; 12288]%N))
    None None.

(** A manual stop and the thread of the first timer. *)
Definition stop_and_timer (env1 env2 : Env) : list (option Task) :=
  [Some (Stopping env1 StopGuard); Some (Timer 0 env2 None)].

(** The timer reaches its deadline and tests the guard, the manual stop
    tests the guard, and only then does either clear the flag. *)
Definition racing_stops : list nat := [1; 1; 0; 0; 1; 0; 1]%nat.

(** * Properties *)

(** ** Rules for the judgements *)

Section Rules.
Context {S E : Type}.
Implicit Types (p : E -> bool).

Lemma run_eta {A} (m : Proc S E A) s :
  m s = (result (m s), state (m s), trace (m s)).
Proof. destruct (m s) as [[r s'] t]; reflexivity. Qed.

Lemma prepend_run {A} (t : list E) (r : Res A) (s : S) t2 :
  prepend t (r, s, t2) = (r, s, t ++ t2).
Proof. reflexivity. Qed.

Lemma prepend_nil {A} (x : Res A * S * list E) : prepend [] x = x.
Proof. destruct x as [[r s] t]; reflexivity. Qed.

Lemma bind_val {A B} (m : Proc S E A) (k : A -> Proc S E B) s a s1 t1 :
  m s = (Val a, s1, t1) -> bind m k s = prepend t1 (k a s1).
Proof.
  intros H; unfold bind, prepend; rewrite H.
  destruct (k a s1) as [[r s2] t2]; reflexivity.
Qed.

Lemma bind_raise {A B} (m : Proc S E A) (k : A -> Proc S E B) s e s1 t1 :
  m s = (Raise e, s1, t1) -> bind m k s = (Raise e, s1, t1).
Proof. intros H; unfold bind; rewrite H; reflexivity. Qed.

Lemma try_except_val {A} (m : Proc S E A) h s a s1 t1 :
  m s = (Val a, s1, t1) -> try_except m h s = (Val a, s1, t1).
Proof. intros H; unfold try_except; rewrite H; reflexivity. Qed.

Lemma try_except_raise {A} (m : Proc S E A) h s e s1 t1 :
  m s = (Raise e, s1, t1) -> try_except m h s = prepend t1 (h e s1).
Proof.
  intros H; unfold try_except, prepend; rewrite H.
  destruct (h e s1) as [[r s2] t2]; reflexivity.
Qed.

(** [only] *)
Lemma only_ret p {A} (a : A) : only p (ret (S:=S) (E:=E) a).
Proof. intros s; reflexivity. Qed.
Lemma only_raise p {A} e : only p (raise (S:=S) (E:=E) (A:=A) e).
Proof. intros s; reflexivity. Qed.
Lemma only_get p : only p (get (S:=S) (E:=E)).
Proof. intros s; reflexivity. Qed.
Lemma only_modify p f : only p (modify (S:=S) (E:=E) f).
Proof. intros s; reflexivity. Qed.
Lemma only_outcome p o : only p (outcome (S:=S) (E:=E) o).
Proof. intros s; destruct o; reflexivity. Qed.
Lemma only_emit p e : p e = true -> only p (emit (S:=S) e).
Proof. intros H s; simpl; rewrite H; reflexivity. Qed.
Lemma only_when p b m : only p m -> only p (when (S:=S) (E:=E) b m).
Proof. intros H; destruct b; [exact H | intros s; reflexivity]. Qed.
Lemma only_bind p {A B} (m : Proc S E A) (k : A -> Proc S E B) :
  only p m -> (forall a, only p (k a)) -> only p (bind m k).
Proof.
  intros Hm Hk s; unfold bind.
  specialize (Hm s); destruct (m s) as [[[a|e] s1] t1]; simpl in *; auto.
  specialize (Hk a s1); destruct (k a s1) as [[r s2] t2]; simpl in *.
  rewrite forallb_app, Hm, Hk; reflexivity.
Qed.
Lemma only_try_except p {A} (m : Proc S E A) h :
  only p m -> (forall e, only p (h e)) -> only p (try_except m h).
Proof.
  intros Hm Hh s; unfold try_except.
  specialize (Hm s); destruct (m s) as [[[a|e] s1] t1]; simpl in *; auto.
  specialize (Hh e s1); destruct (h e s1) as [[r s2] t2]; simpl in *.
  rewrite forallb_app, Hm, Hh; reflexivity.
Qed.
Lemma only_try_finally p {A} (m : Proc S E A) c :
  only p m -> only p c -> only p (try_finally m c).
Proof.
  intros Hm Hc s; unfold try_finally.
  specialize (Hm s); destruct (m s) as [[r s1] t1]; simpl in *.
  specialize (Hc s1); destruct (c s1) as [[[a|e] s2] t2]; simpl in *;
    rewrite forallb_app, Hm, Hc; reflexivity.
Qed.

(** [total] *)
Lemma total_ret {A} (a : A) : total (ret (S:=S) (E:=E) a).
Proof. intros s; eexists; reflexivity. Qed.
Lemma total_get : total (get (S:=S) (E:=E)).
Proof. intros s; eexists; reflexivity. Qed.
Lemma total_modify f : total (modify (S:=S) (E:=E) f).
Proof. intros s; eexists; reflexivity. Qed.
Lemma total_emit e : total (emit (S:=S) (E:=E) e).
Proof. intros s; eexists; reflexivity. Qed.
Lemma total_when b m : total m -> total (when (S:=S) (E:=E) b m).
Proof. intros H; destruct b; [exact H | intros s; eexists; reflexivity]. Qed.
Lemma total_bind {A B} (m : Proc S E A) (k : A -> Proc S E B) :
  total m -> (forall a, total (k a)) -> total (bind m k).
Proof.
  intros Hm Hk s; unfold bind.
  destruct (Hm s) as [a Ha]; destruct (m s) as [[r s1] t1]; simpl in Ha; subst r.
  destruct (Hk a s1) as [b Hb]; destruct (k a s1) as [[r s2] t2]; simpl in *.
  eauto.
Qed.
Lemma total_try_except {A} (m : Proc S E A) h :
  (forall e, total (h e)) -> total (try_except m h).
Proof.
  intros Hh s; unfold try_except.
  destruct (m s) as [[[a|e] s1] t1]; simpl; eauto.
  destruct (Hh e s1) as [b Hb]; destruct (h e s1) as [[r s2] t2]; simpl in *.
  eauto.
Qed.
Lemma total_try_finally {A} (m : Proc S E A) c :
  total m -> total c -> total (try_finally m c).
Proof.
  intros Hm Hc s; unfold try_finally.
  destruct (Hm s) as [a Ha]; destruct (m s) as [[r s1] t1]; simpl in Ha; subst r.
  destruct (Hc s1) as [b Hb]; destruct (c s1) as [[r s2] t2]; simpl in Hb; subst r.
  simpl; eauto.
Qed.

(** [keeps] *)
Section Keeps.
Context {T : Type} (f : S -> T).
Lemma keeps_ret {A} (a : A) : keeps f (ret (E:=E) a).
Proof. intros s; reflexivity. Qed.
Lemma keeps_raise {A} e : keeps f (raise (E:=E) (A:=A) e).
Proof. intros s; reflexivity. Qed.
Lemma keeps_get : keeps f (get (E:=E)).
Proof. intros s; reflexivity. Qed.
Lemma keeps_emit e : keeps f (emit (E:=E) e).
Proof. intros s; reflexivity. Qed.
Lemma keeps_outcome o : keeps f (outcome (E:=E) o).
Proof. intros s; destruct o; reflexivity. Qed.
Lemma keeps_modify g : (forall s, f (g s) = f s) -> keeps f (modify (E:=E) g).
Proof. intros H s; apply H. Qed.
Lemma keeps_when b m : keeps f m -> keeps f (when (E:=E) b m).
Proof. intros H; destruct b; [exact H | intros s; reflexivity]. Qed.
Lemma keeps_bind {A B} (m : Proc S E A) (k : A -> Proc S E B) :
  keeps f m -> (forall a, keeps f (k a)) -> keeps f (bind m k).
Proof.
  intros Hm Hk s; unfold bind.
  specialize (Hm s); destruct (m s) as [[[a|e] s1] t1]; simpl in *; auto.
  specialize (Hk a s1); destruct (k a s1) as [[r s2] t2]; simpl in *.
  congruence.
Qed.
Lemma keeps_try_except {A} (m : Proc S E A) h :
  keeps f m -> (forall e, keeps f (h e)) -> keeps f (try_except m h).
Proof.
  intros Hm Hh s; unfold try_except.
  specialize (Hm s); destruct (m s) as [[[a|e] s1] t1]; simpl in *; auto.
  specialize (Hh e s1); destruct (h e s1) as [[r s2] t2]; simpl in *.
  congruence.
Qed.
Lemma keeps_try_finally {A} (m : Proc S E A) c :
  keeps f m -> keeps f c -> keeps f (try_finally m c).
Proof.
  intros Hm Hc s; unfold try_finally.
  specialize (Hm s); destruct (m s) as [[r s1] t1]; simpl in *.
  specialize (Hc s1); destruct (c s1) as [[[a|e] s2] t2]; simpl in *;
    congruence.
Qed.
End Keeps.
End Rules.

Arguments bind_val {S E A B m} k {s a s1 t1} _.
Arguments bind_raise {S E A B m} k {s e s1 t1} _.
Arguments try_except_val {S E A m} h {s a s1 t1} _.
Arguments try_except_raise {S E A m} h {s e s1 t1} _.
Arguments prepend : simpl never.

Lemma only_zoom {S T E A} (p : E -> bool) (proj : T -> S) inj
    (m : Proc S E A) :
  only p m -> only p (zoom proj inj m).
Proof.
  intros H t; unfold zoom; specialize (H (proj t)).
  destruct (m (proj t)) as [[r s1] tr]; exact H.
Qed.

Lemma total_zoom {S T E A} (proj : T -> S) inj (m : Proc S E A) :
  total m -> total (zoom (E:=E) proj inj m).
Proof.
  intros H t; unfold zoom; destruct (H (proj t)) as [a Ha].
  destruct (m (proj t)) as [[r s1] tr]; simpl in *; eauto.
Qed.

Lemma keeps_zoom {S T E A U} (f : T -> U) (proj : T -> S) inj
    (m : Proc S E A) :
  (forall s t, f (inj s t) = f t) -> keeps f (zoom proj inj m).
Proof.
  intros H t; unfold zoom.
  destruct (m (proj t)) as [[r s1] tr]; simpl; apply H.
Qed.

(** Weakening of [only], and what it says about counts and membership. *)
Lemma forallb_weaken (p q : Event -> bool) t :
  (forall e, p e = true -> q e = true) ->
  forallb p t = true -> forallb q t = true.
Proof.
  intros H; induction t as [|e t IH]; simpl; auto.
  intros Hpt; apply andb_true_iff in Hpt as [He Ht].
  rewrite (H e He), (IH Ht); reflexivity.
Qed.

Lemma count_app p t1 t2 :
  count p (t1 ++ t2) = (count p t1 + count p t2)%nat.
Proof. unfold count; rewrite filter_app, length_app; reflexivity. Qed.

Lemma count_none (p q : Event -> bool) t :
  (forall e, p e = true -> q e = false) ->
  forallb p t = true -> count q t = 0%nat.
Proof.
  intros H; induction t as [|e t IH]; simpl; auto.
  intros Hpt; apply andb_true_iff in Hpt as [He Ht].
  unfold count in *; simpl; rewrite (H e He); auto.
Qed.

Lemma only_weaken {S A} (p q : Event -> bool) (m : Proc S Event A) :
  (forall e, p e = true -> q e = true) -> only p m -> only q m.
Proof. intros H Hm s; apply forallb_weaken with p; auto. Qed.

Lemma presentational_quiet e : presentational e = true -> quiet e = true.
Proof. destruct e; intros H; try discriminate H; reflexivity. Qed.

Create HintDb procs.

(** Decomposes a judgement along the syntax of the computation. *)
Ltac proc_step :=
  match goal with
  | |- only _ (bind _ _) => apply only_bind; [|intros ?]
  | |- only _ (try_except _ _) => apply only_try_except; [|intros ?]
  | |- only _ (try_finally _ _) => apply only_try_finally
  | |- only _ (when _ _) => apply only_when
  | |- only _ (ret _) => apply only_ret
  | |- only _ (raise _) => apply only_raise
  | |- only _ get => apply only_get
  | |- only _ (modify _) => apply only_modify
  | |- only _ (outcome _) => apply only_outcome
  | |- only _ (emit _) => apply only_emit; reflexivity
  | |- only _ (zoom _ _ _) => apply only_zoom
  | |- total (bind _ _) => apply total_bind; [|intros ?]
  | |- total (try_except _ _) => apply total_try_except; intros ?
  | |- total (try_finally _ _) => apply total_try_finally
  | |- total (when _ _) => apply total_when
  | |- total (ret _) => apply total_ret
  | |- total get => apply total_get
  | |- total (modify _) => apply total_modify
  | |- total (emit _) => apply total_emit
  | |- total (zoom _ _ _) => apply total_zoom
  | |- keeps _ (bind _ _) => apply keeps_bind; [|intros ?]
  | |- keeps _ (try_except _ _) => apply keeps_try_except; [|intros ?]
  | |- keeps _ (try_finally _ _) => apply keeps_try_finally
  | |- keeps _ (when _ _) => apply keeps_when
  | |- keeps _ (ret _) => apply keeps_ret
  | |- keeps _ (raise _) => apply keeps_raise
  | |- keeps _ get => apply keeps_get
  | |- keeps _ (emit _) => apply keeps_emit
  | |- keeps _ (outcome _) => apply keeps_outcome
  | |- keeps _ (modify _) =>
      apply keeps_modify; intros; cbv beta;
      first [reflexivity | solve [auto]]
  | |- keeps _ (zoom _ _ _) =>
      apply keeps_zoom; intros; cbv beta;
      first [reflexivity | solve [auto]]
  | |- only quiet _ =>
      apply (@only_weaken _ _ presentational quiet _ presentational_quiet);
      solve [auto with procs]
  | |- _ (match ?x with _ => _ end) => destruct x
  end.

Ltac proc_auto := repeat first [solve [auto with procs] | proc_step].

(** ** The visual indicator *)

Lemma show_notification_only env n :
  only presentational (Visual._show_notification env n).
Proof. unfold Visual._show_notification; proc_auto. Qed.

Lemma show_notification_total env n : total (Visual._show_notification env n).
Proof. unfold Visual._show_notification; proc_auto. Qed.

#[export] Hint Resolve show_notification_only show_notification_total : procs.

Lemma update_tray_only env c st : only presentational (Visual.update_tray env c st).
Proof. unfold Visual.update_tray, Visual.tray_assign; proc_auto. Qed.

Lemma update_tray_total env c st : total (Visual.update_tray env c st).
Proof. unfold Visual.update_tray; proc_auto. Qed.

#[export] Hint Resolve update_tray_only update_tray_total : procs.

Lemma visual_start_only env : only presentational (Visual.start_recording env).
Proof. unfold Visual.start_recording; proc_auto. Qed.
Lemma visual_start_total env : total (Visual.start_recording env).
Proof. unfold Visual.start_recording; proc_auto. Qed.
Lemma visual_stop_only env : only presentational (Visual.stop_recording env).
Proof. unfold Visual.stop_recording; proc_auto. Qed.
Lemma visual_stop_total env : total (Visual.stop_recording env).
Proof. unfold Visual.stop_recording; proc_auto. Qed.
Lemma visual_complete_only env text :
  only presentational (Visual.transcription_complete env text).
Proof. unfold Visual.transcription_complete; proc_auto. Qed.
Lemma visual_complete_total env text :
  total (Visual.transcription_complete env text).
Proof. unfold Visual.transcription_complete; proc_auto. Qed.
Lemma visual_error_only env msg : only presentational (Visual.show_error env msg).
Proof. unfold Visual.show_error; proc_auto. Qed.
Lemma visual_error_total env msg : total (Visual.show_error env msg).
Proof. unfold Visual.show_error; proc_auto. Qed.

#[export] Hint Resolve visual_start_only visual_start_total visual_stop_only
  visual_stop_total visual_complete_only visual_complete_total
  visual_error_only visual_error_total : procs.

(** ** The session logger *)

Lemma with_open_only env m ws : only presentational (SessionLog.with_open env m ws).
Proof.
  unfold SessionLog.with_open, SessionLog.open_file, SessionLog.write_chunks,
    SessionLog.append_chunks, SessionLog.on_fs; proc_auto.
Qed.

#[export] Hint Resolve with_open_only : procs.

Lemma log_transcription_only env text d t :
  only presentational (SessionLog.log_transcription env text d t).
Proof. unfold SessionLog.log_transcription, SessionLog.on_logger; proc_auto. Qed.
Lemma log_transcription_total env text d t :
  total (SessionLog.log_transcription env text d t).
Proof. unfold SessionLog.log_transcription; proc_auto. Qed.
Lemma log_error_only env msg t :
  only presentational (SessionLog.log_error env msg t).
Proof. unfold SessionLog.log_error, SessionLog.on_logger; proc_auto. Qed.
Lemma log_error_total env msg t : total (SessionLog.log_error env msg t).
Proof. unfold SessionLog.log_error; proc_auto. Qed.
Lemma add_session_note_total env note : total (SessionLog.add_session_note env note).
Proof. unfold SessionLog.add_session_note; proc_auto. Qed.
Lemma close_session_total env : total (SessionLog.close_session env).
Proof. unfold SessionLog.close_session; proc_auto. Qed.
Lemma create_session_file_total env : total (SessionLog._create_session_file env).
Proof. unfold SessionLog._create_session_file, SessionLog.on_logger; proc_auto. Qed.

#[export] Hint Resolve log_transcription_only log_transcription_total
  log_error_only log_error_total add_session_note_total close_session_total
  create_session_file_total : procs.

(** ** The blocks of the transcriber *)

Create HintDb procdefs.

#[export] Hint Unfold Transcriber.with_visual Transcriber.with_logger
  Transcriber.cancel_timer Transcriber.release_stream Transcriber.save_wav
  Transcriber.write_artifact Transcriber.cleanup Transcriber.process
  Transcriber.verify_and_transcribe Transcriber.serialize_and_transcribe
  Transcriber.transcribe_block Transcriber.deliver Transcriber.report_error
  Transcriber.new_timer Transcriber.start_recording
  Transcriber.audio_callback Transcriber.stop_recording_and_transcribe
  Transcriber.timer_fire Transcriber.announce_stop
  Transcriber.processing_error Transcriber.guarded_process
  Transcriber.transcribe_and_deliver Transcriber.transcription_failed
  : procdefs.

Ltac proc_solve :=
  repeat first [solve [auto with procs]
               | proc_step
               | progress autounfold with procdefs].

Lemma run_total_only {S A} (p : Event -> bool) (m : Proc S Event A) s :
  total m -> only p m ->
  exists a s' t, m s = (Val a, s', t) /\ forallb p t = true.
Proof.
  intros Ht Ho; specialize (Ht s); specialize (Ho s).
  destruct (m s) as [[r s'] t]; simpl in *; destruct Ht as [a ->]; eauto.
Qed.

Lemma announce_stop_total env : total (announce_stop env).
Proof. proc_solve. Qed.
Lemma announce_stop_only env : only quiet (announce_stop env).
Proof. proc_solve. Qed.
Lemma cancel_timer_total : total cancel_timer.
Proof. proc_solve. Qed.
Lemma cancel_timer_only : only quiet cancel_timer.
Proof. proc_solve. Qed.
Lemma cleanup_total env : total (cleanup env).
Proof. proc_solve. Qed.
Lemma cleanup_only env : only quiet (cleanup env).
Proof. proc_solve. Qed.
Lemma release_stream_only env : only quiet (release_stream env).
Proof. proc_solve. Qed.
Lemma save_wav_only env : only quiet (save_wav env).
Proof. proc_solve. Qed.
Lemma guarded_process_total env : total (guarded_process env).
Proof. proc_solve. Qed.
Lemma stop_total env : total (stop_recording_and_transcribe env).
Proof. proc_solve. Qed.
Lemma start_total env : total (start_recording env).
Proof. proc_solve. Qed.
Lemma start_only env : only quiet (start_recording env).
Proof. proc_solve. Qed.
Lemma audio_callback_total indata status : total (audio_callback indata status).
Proof. proc_solve. Qed.

Lemma with_visual_keeps {T} (f : World -> T) m :
  (forall v w, f (set_visual_indicator v w) = f w) -> keeps f (with_visual m).
Proof. intros H; proc_solve. Qed.

Lemma with_visual_some m w :
  is_some (visual_indicator (state (with_visual m w)))
  = is_some (visual_indicator w).
Proof.
  unfold with_visual, bind, get, zoom, when; simpl.
  destruct (visual_indicator w) as [v|] eqn:Hv; simpl;
    [destruct (m v) as [[[a|e] v'] t]; simpl; reflexivity | now rewrite Hv].
Qed.

Lemma with_logger_keeps {T} (f : World -> T) m :
  (forall s w, f (set_logger s w) = f w) -> keeps f (with_logger m).
Proof. intros H; proc_solve. Qed.

Lemma with_logger_some m w :
  is_some (session_logger (state (with_logger m w)))
  = is_some (session_logger w).
Proof.
  unfold with_logger, bind, get, zoom, when, ret; simpl.
  destruct (session_logger w) as [lg|] eqn:Hl; simpl;
    [destruct (m (lg, log_fs w)) as [[[a|e] s'] t]; simpl; reflexivity
    | now rewrite Hl].
Qed.

Lemma announce_stop_keeps {T} (f : World -> T) env :
  (forall v w, f (set_visual_indicator v w) = f w) -> keeps f (announce_stop env).
Proof. intros H; apply with_visual_keeps, H. Qed.

Lemma cancel_timer_keeps {T} (f : World -> T) :
  (forall ts w, f (set_timers ts w) = f w) -> keeps f cancel_timer.
Proof. intros H; proc_solve. Qed.

Lemma release_stream_keeps {T} (f : World -> T) env :
  (forall st w, f (set_stream st w) = f w) -> keeps f (release_stream env).
Proof. intros H; proc_solve. Qed.

Lemma save_wav_keeps {T} (f : World -> T) env :
  (forall b w, f (set_temp_wav b w) = f w) -> keeps f (save_wav env).
Proof. intros H; proc_solve. Qed.

Lemma cleanup_keeps {T} (f : World -> T) env :
  (forall b w, f (set_temp_wav b w) = f w) -> keeps f (cleanup env).
Proof. intros H; proc_solve. Qed.

(** A stop changes neither the buffer, nor the start time, nor which timer
    the global refers to; it leaves the flag as its guard-passing prefix
    set it. *)
Lemma guarded_process_keeps {T} (f : World -> T) env :
  (forall st w, f (set_stream st w) = f w) ->
  (forall b w, f (set_temp_wav b w) = f w) ->
  (forall v w, f (set_visual_indicator v w) = f w) ->
  (forall s w, f (set_logger s w) = f w) ->
  keeps f (guarded_process env).
Proof. intros H1 H2 H3 H4; proc_solve. Qed.

Lemma stop_noop env w :
  recording w = false ->
  stop_recording_and_transcribe env w = (Val tt, w, [Log DEBUG MStopNoRecording]).
Proof.
  intros H; unfold stop_recording_and_transcribe, bind, get; simpl.
  rewrite H; reflexivity.
Qed.

Lemma stop_on env w :
  recording w = true ->
  stop_recording_and_transcribe env w = stop_body env w.
Proof.
  intros H; unfold stop_recording_and_transcribe.
  unfold bind at 1; unfold get; rewrite H; simpl.
  change (match stop_body env w with (r, s2, t2) => (r, s2, t2) end
          = stop_body env w).
  destruct (stop_body env w) as [[r s2] t2]; reflexivity.
Qed.

Lemma stop_body_keeps {T} (f : World -> T) env :
  (forall st w, f (set_stream st w) = f w) ->
  (forall b w, f (set_temp_wav b w) = f w) ->
  (forall v w, f (set_visual_indicator v w) = f w) ->
  (forall s w, f (set_logger s w) = f w) ->
  (forall ts w, f (set_timers ts w) = f w) ->
  forall w, f (state (stop_body env w)) = f (set_recording false w).
Proof.
  intros H1 H2 H3 H4 H5 w.
  pose (rest := bind (announce_stop env) (fun _ =>
                bind cancel_timer (fun _ =>
                try_finally (guarded_process env) (cleanup env)))).
  assert (Hk : keeps f rest) by (unfold rest; proc_solve).
  change (stop_body env w)
    with (bind (modify (set_recording false)) (fun _ => rest) w).
  unfold bind at 1, modify.
  specialize (Hk (set_recording false w)).
  destruct (rest (set_recording false w)) as [[r s2] t2]; exact Hk.
Qed.

Lemma stop_clears_recording env w :
  recording (state (stop_recording_and_transcribe env w)) = false.
Proof.
  destruct (recording w) eqn:H.
  - rewrite (stop_on env w H).
    now rewrite (stop_body_keeps recording env) by reflexivity.
  - now rewrite (stop_noop env w H).
Qed.

(** The four blocks a stop that passes the guard consists of. *)
Lemma stop_phases env w :
  recording w = true ->
  exists w1 w2 w3 w4 tA tB tC tD,
    announce_stop env (set_recording false w) = (Val tt, w1, tA) /\
    cancel_timer w1 = (Val tt, w2, tB) /\
    guarded_process env w2 = (Val tt, w3, tC) /\
    cleanup env w3 = (Val tt, w4, tD) /\
    stop_recording_and_transcribe env w = (Val tt, w4, tA ++ tB ++ tC ++ tD) /\
    forallb quiet tA = true /\ forallb quiet tB = true /\
    forallb quiet tD = true /\
    inputs w2 = inputs (set_recording false w) /\
    is_some (visual_indicator w2) = is_some (visual_indicator w).
Proof.
  intros H; rewrite (stop_on env w H).
  destruct (@run_total_only _ _ quiet (announce_stop env) (set_recording false w)
              (announce_stop_total env) (announce_stop_only env))
    as ([] & w1 & tA & EA & HA).
  destruct (@run_total_only _ _ quiet cancel_timer w1
              cancel_timer_total cancel_timer_only)
    as ([] & w2 & tB & EB & HB).
  destruct (guarded_process_total env w2) as [[] EC].
  destruct (guarded_process env w2) as [[rC w3] tC] eqn:EC'; simpl in EC; subst rC.
  destruct (@run_total_only _ _ quiet (cleanup env) w3
              (cleanup_total env) (cleanup_only env))
    as ([] & w4 & tD & ED & HD).
  exists w1, w2, w3, w4, tA, tB, tC, tD; repeat split; auto.
  - unfold stop_body, bind, modify, try_finally.
    rewrite EA, EB, EC', ED; reflexivity.
  - assert (K1 := announce_stop_keeps inputs env (fun _ _ => eq_refl)
                    (set_recording false w)).
    assert (K2 := cancel_timer_keeps inputs (fun _ _ => eq_refl) w1).
    rewrite EA in K1; rewrite EB in K2; simpl in K1, K2; congruence.
  - assert (K1 := with_visual_some
                    (emit VisualStop ;; Visual.stop_recording (vis_env env AtStop))
                    (set_recording false w)).
    fold (announce_stop env) in K1; rewrite EA in K1; simpl in K1.
    assert (K2 := cancel_timer_keeps (fun w => is_some (visual_indicator w))
                    (fun _ _ => eq_refl) w1).
    rewrite EB in K2; simpl in K2; congruence.
Qed.

Unset Implicit Arguments.

(** ** The processing of a stop *)

Lemma release_stream_result env w :
  result (release_stream env w)
  = if release_ok env w then Val tt
    else Raise (match stream_stop env with
                | Some e => e
                | None => match stream_close env with Some e => e | None => "" end
                end).
Proof.
  unfold release_stream, release_ok, bind, get, when, emit, outcome, modify, ret, raise.
  simpl. destruct (stream w); simpl; auto.
  destruct (stream_stop env); simpl; auto.
  destruct (stream_close env); simpl; auto.
Qed.

Lemma save_wav_result env w :
  result (save_wav env w) = Val (wav_saved env)
  /\ (wav_saved env = true -> temp_wav (state (save_wav env w)) = true).
Proof.
  unfold save_wav, wav_saved, write_artifact, bind, try_except, emit, outcome, modify, ret, raise.
  destruct (soundfile env) as [|[|e1 l1]]; simpl;
  destruct (scipy_write env) as [|e2 l2]; simpl;
  destruct (wave_write env) as [|e3 l3]; simpl; auto; split; auto; discriminate.
Qed.

Lemma with_logger_call ev m w :
  total m -> only presentational m ->
  exists w' t, with_logger (emit ev ;; m) w = (Val tt, w', t)
    /\ call_shape (is_some (session_logger w)) ev t.
Proof.
  intros Ht Ho. unfold with_logger, bind at 1, get. simpl.
  destruct (session_logger w) as [lg|]; simpl.
  - unfold zoom, bind, emit, ret. simpl.
    destruct (@run_total_only _ _ presentational m (lg, log_fs w) Ht Ho) as (a & s' & t & E & H).
    rewrite E. simpl. eexists _, _. split; [reflexivity|]. exists t; rewrite app_nil_r; auto.
  - eexists _, _; split; reflexivity.
Qed.

Lemma with_visual_call ev m w :
  total m -> only presentational m ->
  exists w' t, with_visual (emit ev ;; m) w = (Val tt, w', t)
    /\ call_shape (is_some (visual_indicator w)) ev t.
Proof.
  intros Ht Ho. unfold with_visual, bind at 1, get. simpl.
  destruct (visual_indicator w) as [v|]; simpl.
  - unfold zoom, bind, emit, ret. simpl.
    destruct (@run_total_only _ _ presentational m v Ht Ho) as ([] & s' & t & E & H).
    rewrite E. simpl. eexists _, _. split; [reflexivity|]. eexists; split; eauto.
  - eexists _, _; split; reflexivity.
Qed.

Lemma report_error_run env site lm sm w :
  exists w' tl tv,
    report_error env site lm sm w = (Val tt, w', tl ++ tv)
    /\ failure_report (recording_start_time w) (is_some (session_logger w))
         (is_some (visual_indicator w)) lm sm (tl ++ tv)
    /\ context w' = context w.
Proof.
  unfold report_error.
  rewrite (@bind_val _ _ _ _ get _ w w w [] eq_refl), prepend_nil; cbv beta.
  set (L := emit (SessionLogError lm (start_datetime (recording_start_time w))) ;;
            SessionLog.log_error (log_env env site) lm (start_datetime (recording_start_time w))).
  set (V := emit (VisualError sm) ;; Visual.show_error (vis_env env site) sm).
  destruct (with_logger_call (SessionLogError lm (start_datetime (recording_start_time w)))
     (SessionLog.log_error (log_env env site) lm (start_datetime (recording_start_time w))) w
     (log_error_total _ _ _) (log_error_only _ _ _)) as (w1 & tl & E1 & S1).
  fold L in E1.
  assert (K1 := with_logger_keeps
       (fun w => (recording w, audio_frames w, recording_start_time w, temp_wav w, visual_indicator w))
       L (fun _ _ => eq_refl) w).
  assert (K1' := with_logger_some L w).
  rewrite E1 in K1, K1'. simpl in K1, K1'.
  destruct (with_visual_call (VisualError sm)
     (Visual.show_error (vis_env env site) sm) w1
     (visual_error_total _ _) (visual_error_only _ _)) as (w2 & tv & E2 & S2).
  fold V in E2.
  assert (K2 := with_visual_keeps
       (fun w => (recording w, audio_frames w, recording_start_time w, temp_wav w, session_logger w))
       V (fun _ _ => eq_refl) w1).
  assert (K2' := with_visual_some V w1).
  rewrite E2 in K2, K2'. simpl in K2, K2'.
  rewrite (bind_val _ E1), E2. simpl.
  exists w2, tl, tv. split; [reflexivity|].
  injection K1 as R1 F1 T1 W1 V1. injection K2 as R2 F2 T2 W2 L2.
  split.
  - exists tl, tv. rewrite V1 in S2. auto.
  - unfold context. rewrite R2, R1, F2, F1, T2, T1, W2, W1, L2, K1', K2', V1. reflexivity.
Qed.

Ltac step_emit :=
  match goal with
  | |- context [bind (emit ?e) ?k ?w] =>
      rewrite (@bind_val _ _ _ _ (emit e) k w tt w [e] eq_refl); cbv beta
  end.
Ltac step_get :=
  match goal with
  | |- context [bind get ?k ?w] =>
      rewrite (@bind_val _ _ _ _ get k w w w [] eq_refl), prepend_nil;
      cbv beta
  end.

Lemma deliver_run env text w :
  exists w' tl tv,
    deliver env text w
    = (fst (delivery_tail env), w',
       Log INFO (MTranscription text)
       :: tl ++ tv ++ ClipboardCopy text :: snd (delivery_tail env))
    /\ call_shape (is_some (session_logger w))
         (SessionLogTranscription text (measured_duration env (recording_start_time w)) (start_datetime (recording_start_time w))) tl
    /\ call_shape (is_some (visual_indicator w)) (VisualComplete text) tv
    /\ context w' = context w.
Proof.
  unfold deliver.
  step_emit. step_get.
  set (ev := SessionLogTranscription text (measured_duration env (recording_start_time w)) (start_datetime (recording_start_time w))).
  set (L := emit ev ;; SessionLog.log_transcription (log_env env AtResult) text
            (measured_duration env (recording_start_time w)) (start_datetime (recording_start_time w))).
  set (V := emit (VisualComplete text) ;; Visual.transcription_complete (vis_env env AtResult) text).
  destruct (with_logger_call ev
     (SessionLog.log_transcription (log_env env AtResult) text (measured_duration env (recording_start_time w)) (start_datetime (recording_start_time w))) w
     (log_transcription_total _ _ _ _) (log_transcription_only _ _ _ _)) as (w1 & tl & E1 & S1).
  fold L in E1.
  assert (K1 := with_logger_keeps
       (fun w => (recording w, audio_frames w, recording_start_time w, temp_wav w, visual_indicator w))
       L (fun _ _ => eq_refl) w).
  assert (K1' := with_logger_some L w).
  rewrite E1 in K1, K1'. simpl in K1, K1'.
  destruct (with_visual_call (VisualComplete text)
     (Visual.transcription_complete (vis_env env AtResult) text) w1
     (visual_complete_total _ _) (visual_complete_only _ _)) as (w2 & tv & E2 & S2).
  fold V in E2.
  assert (K2 := with_visual_keeps
       (fun w => (recording w, audio_frames w, recording_start_time w, temp_wav w, session_logger w))
       V (fun _ _ => eq_refl) w1).
  assert (K2' := with_visual_some V w1).
  rewrite E2 in K2, K2'. simpl in K2, K2'.
  rewrite (bind_val _ E1), (bind_val _ E2).
  injection K1 as R1 F1 T1 W1 V1. injection K2 as R2 F2 T2 W2 L2.
  exists w2, tl, tv. split; [|split; [exact S1|split]].
  - unfold delivery_tail, bind, emit, outcome, ret, raise.
    destruct (clipboard env); simpl; [reflexivity|].
    destruct (hotkey env); simpl; reflexivity.
  - rewrite V1 in S2. exact S2.
  - unfold context. rewrite R2, R1, F2, F1, T2, T1, W2, W1, L2, K1', K2', V1. reflexivity.
Qed.

(** ** The session logger: calls without a file, failures, the duration *)

Section LoggerFacts.
Import SessionLog.

Lemma with_open_ok env m ws s :
  io_fails env (List.length ws) = false ->
  with_open env m ws s
  = (Val tt,
     (fst s, mkLogFS (folder_exists (snd s))
               (Some (match m with
                      | ModeW => []
                      | ModeA => file_contents (snd s)
                      end ++ ws))),
     []).
Proof.
  unfold io_fails, with_open, open_file, write_chunks, append_chunks, on_fs,
    bind, outcome, modify, raise, ret.
  destruct (open_exn env); simpl; [discriminate|].
  destruct (write_exn env) as [[k e]|]; simpl; [intros ->|intros _];
    destruct m; reflexivity.
Qed.

Lemma with_open_fails env m ws s :
  io_fails env (List.length ws) = true ->
  exists e s', with_open env m ws s = (Raise e, s', []) /\ fst s' = fst s.
Proof.
  unfold io_fails, with_open, open_file, write_chunks, append_chunks, on_fs,
    bind, outcome, modify, raise, ret.
  destruct (open_exn env); simpl; [intros _; eauto|].
  destruct (write_exn env) as [[k e]|]; simpl; [intros ->|discriminate].
  simpl; eauto.
Qed.

Ltac log_run :=
  cbv beta iota zeta delta
    [log_transcription log_error add_session_note close_session
     session_duration _create_session_file init
     bind get on_logger on_fs modify try_except emit ret raise when outcome
     fst snd result state trace negb is_some
     session_file_path recording_count include_metadata session_start_time
     log_folder_path incr_count set_path set_start].

Ltac with_open_cases Hio :=
  match goal with
  | |- context [with_open ?e ?m ?ws ?s] =>
      let ex := fresh "ex" in let s' := fresh "s'" in
      destruct (io_fails e (List.length ws)) eqn:Hio;
      [destruct (with_open_fails e m ws s Hio) as (ex & s' & -> & _)
      | rewrite (with_open_ok e m ws s Hio)]
  end.

Lemma log_transcription_result env text d t lg fs :
  is_some (session_file_path lg) = true ->
  result (log_transcription env text d t (lg, fs))
  = Val (negb (io_fails env
           (List.length (entry_chunks (incr_count lg) (or_now env t) text d)))).
Proof.
  intros Hp; destruct lg as [folder md [path|] st n]; [|discriminate].
  log_run; with_open_cases Hio; reflexivity.
Qed.

Lemma log_error_result env msg t lg fs :
  is_some (session_file_path lg) = true ->
  result (log_error env msg t (lg, fs)) = Val (negb (io_fails env 3)).
Proof.
  intros Hp; destruct lg as [folder md [path|] st n]; [|discriminate].
  log_run; with_open_cases Hio; simpl in Hio; rewrite Hio; reflexivity.
Qed.

Lemma add_session_note_result env note lg fs :
  is_some (session_file_path lg) = true ->
  result (add_session_note env note (lg, fs)) = Val (negb (io_fails env 2)).
Proof.
  intros Hp; destruct lg as [folder md [path|] st n]; [|discriminate].
  log_run; with_open_cases Hio; simpl in Hio; rewrite Hio; reflexivity.
Qed.

Lemma close_session_result env lg fs :
  is_some (session_file_path lg) = true ->
  result (close_session env (lg, fs))
  = Val (is_some (session_start_time lg) && negb (io_fails env 7)).
Proof.
  intros Hp; destruct lg as [folder md [path|] [st|] n]; try discriminate;
    log_run; [|reflexivity].
  with_open_cases Hio; simpl in Hio; rewrite Hio; reflexivity.
Qed.

Lemma create_session_file_result env s :
  result (_create_session_file env s)
  = Val (is_some (session_file_path (fst (state (_create_session_file env s))))).
Proof.
  destruct s as [lg fs]; log_run.
  destruct (folder_exists fs); log_run.
  - with_open_cases Hio; reflexivity.
  - destruct (makedirs_exn env); log_run; [reflexivity|].
    with_open_cases Hio; reflexivity.
Qed.

(** C9. When the session file could not be created the logger has no path:
    [SessionLogger(...)] returns from [_create_session_file] with [False]
    exactly when [session_file_path] is [None] afterwards.  With no path,
    [log_transcription], [log_error], [add_session_note] and
    [close_session] return [False], write nothing, change nothing and raise
    nothing.  With a path, none of them raises either: each returns [True]
    unless opening the file or one of its writes fails (or, for
    [close_session], the start time is missing), and [False] then. *)
Theorem logger_failures_return_false :
  forall (env : LogEnv) (lg : SessionLogger) (fs : LogFS),
    (forall folder metadata,
        let r := init env folder metadata fs in
        result r = Val (is_some (session_file_path (fst (state r)))))
    /\ (session_file_path lg = None ->
        (forall text d t,
            log_transcription env text d t (lg, fs)
            = (Val false, (lg, fs), [Log WARNING MNoSessionFile]))
        /\ (forall msg t,
               log_error env msg t (lg, fs) = (Val false, (lg, fs), []))
        /\ (forall note,
               add_session_note env note (lg, fs) = (Val false, (lg, fs), []))
        /\ close_session env (lg, fs) = (Val false, (lg, fs), []))
    /\ (is_some (session_file_path lg) = true ->
        (forall text d t,
            result (log_transcription env text d t (lg, fs))
            = Val (negb (io_fails env
                    (List.length
                       (entry_chunks (incr_count lg) (or_now env t) text d)))))
        /\ (forall msg t,
               result (log_error env msg t (lg, fs))
               = Val (negb (io_fails env 3)))
        /\ (forall note,
               result (add_session_note env note (lg, fs))
               = Val (negb (io_fails env 2)))
        /\ result (close_session env (lg, fs))
           = Val (is_some (session_start_time lg) && negb (io_fails env 7))).
Proof.
  intros env lg fs; split; [|split].
  - intros folder metadata r; apply create_session_file_result.
  - intros Hp; destruct lg as [folder md path st n]; simpl in Hp; subst path.
    repeat split; intros; reflexivity.
  - intros Hp; repeat split; intros.
    + apply log_transcription_result, Hp.
    + apply log_error_result, Hp.
    + apply add_session_note_result, Hp.
    + apply close_session_result, Hp.
Qed.

Lemma logger_failures_return_false_witness :
  session_file_path logger_without_file = None
  /\ close_session quiet_log_env (logger_without_file, empty_log_fs)
     = (Val false, (logger_without_file, empty_log_fs), [])
  /\ is_some (session_file_path logger_with_file) = true
  /\ result (log_error quiet_log_env "x" None (logger_with_file, empty_log_fs))
     = Val (negb (io_fails quiet_log_env 3)).
Proof.
  split; [reflexivity|]; split; [|split; [reflexivity|]].
  - apply (proj1 (proj2 (logger_failures_return_false
                           quiet_log_env logger_without_file empty_log_fs))).
    reflexivity.
  - apply (proj2 (proj2 (logger_failures_return_false
                           quiet_log_env logger_with_file empty_log_fs))).
    reflexivity.
Defined.

(** C10. A call of [log_transcription] that succeeds on a logger with
    metadata enabled appends the entry head, the duration annotation, a
    line break, the text and the separator; the annotation is written if
    and only if the duration is true as a Python value, so a duration of
    [None] and a duration equal to zero both leave it out. *)
Theorem duration_written_iff_truthy :
  forall (env : LogEnv) (text : Str) (d : option Q) (t : option Timestamp)
         (lg : SessionLogger) (fs : LogFS),
    include_metadata lg = true ->
    result (log_transcription env text d t (lg, fs)) = Val true ->
    exists annotation,
      file_contents (snd (state (log_transcription env text d t (lg, fs))))
      = file_contents fs
        ++ EntryHead (or_now env t) (Datatypes.S (recording_count lg))
           :: annotation ++ [Newline; Text text; Separator]
      /\ (forall x, In (Duration x) annotation <-> d = Some x /\ ~ (x == 0)%Q)
      /\ (d = None -> annotation = [])
      /\ (forall x, d = Some x -> (x == 0)%Q -> annotation = []).
Proof.
  intros env text d t lg fs Hmd Hres.
  destruct lg as [folder md [path|] st n]; simpl in Hmd; subst md;
    [|discriminate Hres].
  revert Hres; log_run; with_open_cases Hio; [discriminate|intros _].
  unfold entry_chunks, file_contents; simpl.
  destruct d as [x|]; simpl.
  - unfold truthy_float; destruct (Qeq_bool x 0) eqn:Hx; simpl;
      [exists [] | exists [Duration x]]; (split; [reflexivity|]).
    + apply Qeq_bool_iff in Hx; split; [|split].
      * intros y; split; [intros [] |].
        intros [Hd Hn]; inversion Hd; subst; contradiction.
      * reflexivity.
      * reflexivity.
    + apply Qeq_bool_neq in Hx; split; [|split].
      * intros y; split.
        -- intros [Hin|[]]; inversion Hin; subst; split; [reflexivity|exact Hx].
        -- intros [Hd _]; inversion Hd; subst; left; reflexivity.
      * discriminate.
      * intros y Hy Hy0; inversion Hy; subst; contradiction.
  - exists []; split; [reflexivity|]; split; [|split].
    + intros y; split; [intros [] | intros [Hd _]; discriminate].
    + reflexivity.
    + discriminate.
Qed.

Lemma duration_written_iff_truthy_witness :
  include_metadata logger_with_file = true
  /\ result (log_transcription quiet_log_env (text_of "hello") (Some 0) None
               (logger_with_file, empty_log_fs)) = Val true
  /\ exists annotation,
      file_contents
        (snd (state (log_transcription quiet_log_env (text_of "hello") (Some 0) None
                       (logger_with_file, empty_log_fs))))
      = file_contents empty_log_fs
        ++ EntryHead (or_now quiet_log_env None)
             (Datatypes.S (recording_count logger_with_file))
           :: annotation ++ [Newline; Text (text_of "hello"); Separator]
      /\ (forall x, In (Duration x) annotation
                    <-> Some 0 = Some x /\ ~ (x == 0)%Q)
      /\ (Some 0 = None -> annotation = [])
      /\ (forall x, Some 0 = Some x -> (x == 0)%Q -> annotation = []).
Proof.
  split; [reflexivity|]; split; [reflexivity|].
  apply (duration_written_iff_truthy quiet_log_env (text_of "hello") (Some 0) None
           logger_with_file empty_log_fs); reflexivity.
Defined.

End LoggerFacts.

(** ** From the release of the stream to the end of the outer [try] *)

Lemma context_fields w w' :
  context w' = context w ->
  recording w' = recording w /\ audio_frames w' = audio_frames w
  /\ recording_start_time w' = recording_start_time w
  /\ temp_wav w' = temp_wav w
  /\ is_some (session_logger w') = is_some (session_logger w)
  /\ is_some (visual_indicator w') = is_some (visual_indicator w).
Proof. unfold context; intros H; injection H; auto 10. Qed.

Lemma transcription_failed_run env e w :
  exists w' t,
    transcription_failed env e w = (Val tt, w', diagnostics (temp_wav w) e ++ t)
    /\ failure_report (recording_start_time w) (is_some (session_logger w))
         (is_some (visual_indicator w))
         (transcription_failed_message e) "Transcription failed" t
    /\ context w' = context w.
Proof.
  unfold transcription_failed.
  do 3 step_emit. step_get. step_emit.
  destruct (report_error_run env AtHandler (transcription_failed_message e)
              "Transcription failed" w) as (w' & tl & tv & E & F & C).
  exists w', (tl ++ tv); split; [|auto].
  unfold diagnostics, transcription_failed_message in *.
  destruct (temp_wav w); unfold when; [step_emit|];
    [|rewrite (@bind_val _ _ _ _ (ret tt) _ w tt w [] eq_refl)];
    rewrite E; reflexivity.
Qed.

Lemma transcribe_block_run env audio w :
  exists w' rest,
    transcribe_block env audio w
    = (Val tt, w', Log INFO MDirectNumpy :: Transcribe audio :: rest)
    /\ context w' = context w
    /\ block_rest env audio (recording_start_time w)
         (is_some (session_logger w)) (is_some (visual_indicator w))
         (temp_wav w) rest.
Proof.
  unfold transcribe_block, block_rest, transcribe_and_deliver.
  destruct (transcribe env audio) as [e|raw].
  - (* the engine raises *)
    destruct (transcription_failed_run env e w) as (w' & t & E & F & C).
    rewrite (try_except_raise _ (e:=e) (s1:=w)
               (t1:=[Log INFO MDirectNumpy; Transcribe audio]) eq_refl).
    rewrite E, prepend_run; simpl. eexists _, _; split; [reflexivity|]; split; [exact C|].
    exists t; auto.
  - simpl. destruct (truthy_str (strip raw)) eqn:Htext.
    + (* a text to deliver *)
      destruct (deliver_run env (strip raw) w) as (w1 & tl & tv & E & Sl & Sv & C1).
      destruct (fst (delivery_tail env)) as [[]|e] eqn:Hd.
      * rewrite (try_except_val _ (a:=tt) (s1:=w1)
          (t1:=[Log INFO MDirectNumpy; Transcribe audio] ++
               Log INFO (MTranscription (strip raw))
               :: tl ++ tv ++ ClipboardCopy (strip raw) :: snd (delivery_tail env))).
        2:{ do 2 step_emit. rewrite E, !prepend_run. reflexivity. }
        eexists _, _; split; [reflexivity|]; split; [exact C1|].
        exists tl, tv, []. rewrite app_nil_r. auto.
      * destruct (transcription_failed_run env e w1) as (w2 & t & E2 & F2 & C2).
        apply context_fields in C1 as (R1 & A1 & T1 & W1 & L1 & V1).
        rewrite (try_except_raise _ (e:=e) (s1:=w1)
          (t1:=[Log INFO MDirectNumpy; Transcribe audio] ++
               Log INFO (MTranscription (strip raw))
               :: tl ++ tv ++ ClipboardCopy (strip raw) :: snd (delivery_tail env))).
        2:{ do 2 step_emit. rewrite E, !prepend_run. reflexivity. }
        rewrite E2, prepend_run; simpl.
        exists w2, (Log INFO (MTranscription (strip raw))
                    :: tl ++ tv ++ ClipboardCopy (strip raw)
                    :: snd (delivery_tail env) ++ diagnostics (temp_wav w1) e ++ t).
        split; [|split].
        -- simpl. rewrite <- ?app_assoc. simpl. rewrite <- ?app_assoc. reflexivity.
        -- rewrite C2. unfold context. congruence.
        -- exists tl, tv, (diagnostics (temp_wav w1) e ++ t).
           split; [reflexivity|]. split; [exact Sl|]. split; [exact Sv|].
           exists t. rewrite <- W1, <- T1, <- L1, <- V1. auto.
    + (* no speech *)
      destruct (report_error_run env AtResult no_speech no_speech w)
        as (w' & tl & tv & E & F & C).
      rewrite (try_except_val _ (a:=tt) (s1:=w')
          (t1:=[Log INFO MDirectNumpy; Transcribe audio] ++
               Log WARNING MNoSpeech :: tl ++ tv)).
      2:{ do 3 step_emit. rewrite E, !prepend_run. reflexivity. }
      eexists _, _; split; [reflexivity|]; split; [exact C|].
      exists (tl ++ tv); auto.
Qed.

Lemma read_back_run env w :
  exists t,
    try_except (S:=World)
      (emit WavReadBack ;; outcome (wav_read env) ;; emit (Log INFO MWavReadable))
      (fun e => emit (Log WARNING (MWavReadFailed e))) w
    = (Val tt, w, t)
    /\ forallb quiet t = true.
Proof.
  unfold try_except, bind, emit, outcome, ret, raise.
  destruct (wav_read env); simpl; eauto.
Qed.

Lemma verify_and_transcribe_run env audio w :
  temp_wav w = true ->
  exists w' pre rest,
    verify_and_transcribe env audio w
    = (Val tt, w', pre ++ Log INFO MDirectNumpy :: Transcribe audio :: rest)
    /\ forallb quiet pre = true
    /\ context w' = context w
    /\ block_rest env audio (recording_start_time w)
         (is_some (session_logger w)) (is_some (visual_indicator w)) true rest.
Proof.
  intros Hw; unfold verify_and_transcribe.
  step_emit. step_get. rewrite Hw; cbn [negb]; cbv iota.
  step_emit.
  destruct (read_back_run env w) as (tr & Er & Hr).
  rewrite (bind_val _ Er). step_emit.
  destruct (transcribe_block_run env audio w) as (w' & rest & E & C & B).
  rewrite E, !prepend_run; simpl.
  exists w', ([Sleep; Log INFO MWavVerified] ++ tr ++ [Log INFO MTranscribing]), rest.
  split; [|split; [|split; [exact C|]]].
  - simpl. rewrite <- ?app_assoc. reflexivity.
  - rewrite forallb_app, forallb_app, Hr. reflexivity.
  - rewrite Hw in B; exact B.
Qed.

Lemma save_wav_run env w :
  exists w' t,
    save_wav env w = (Val (wav_saved env), w', t)
    /\ forallb quiet t = true
    /\ (wav_saved env = true -> temp_wav w' = true)
    /\ (recording w', audio_frames w', recording_start_time w',
        session_logger w', visual_indicator w')
       = (recording w, audio_frames w, recording_start_time w,
          session_logger w, visual_indicator w).
Proof.
  destruct (save_wav_result env w) as [Hr Ht].
  assert (Ho := save_wav_only env w).
  assert (Hk := save_wav_keeps
            (fun w => (recording w, audio_frames w, recording_start_time w,
                       session_logger w, visual_indicator w))
            env (fun _ _ => eq_refl) w).
  destruct (save_wav env w) as [[r w'] t]; simpl in *; subst r.
  exists w', t; auto.
Qed.

Lemma serialize_and_transcribe_run env w :
  exists w' t,
    serialize_and_transcribe env w = (Val tt, w', t)
    /\ recording w' = recording w
    /\ if wav_saved env
       then exists pre rest,
              t = pre ++ Log INFO MDirectNumpy
                       :: Transcribe (List.concat (audio_frames w)) :: rest
              /\ forallb quiet pre = true
              /\ block_rest env (List.concat (audio_frames w))
                   (recording_start_time w) (is_some (session_logger w))
                   (is_some (visual_indicator w)) true rest
       else forallb quiet t = true /\ In (Log ERROR MAllWavFailed) t.
Proof.
  unfold serialize_and_transcribe.
  step_get. do 4 step_emit.
  destruct (save_wav_run env w) as (w1 & ts & Es & Hs & Hw & Hk).
  rewrite (bind_val _ Es). injection Hk as R A T L V.
  destruct (wav_saved env); cbn [negb]; cbv iota.
  - destruct (verify_and_transcribe_run env (List.concat (audio_frames w)) w1
                (Hw eq_refl)) as (w' & pre & rest & E & Hp & C & B).
    rewrite E, !prepend_run; simpl.
    apply context_fields in C as (R1 & _).
    eexists _, _; split; [reflexivity|]; split; [congruence|].
    exists ([Log INFO MProcessingAudio;
             Log INFO (MCapturedFrames (List.length (audio_frames w)));
             Log INFO (MAudioShape (List.length (List.concat (audio_frames w))));
             Log INFO MSavingAudio] ++ ts ++ pre), rest.
    split; [|split].
    + simpl. rewrite <- ?app_assoc. reflexivity.
    + rewrite forallb_app, forallb_app, Hs, Hp. reflexivity.
    + rewrite T, L, V in B. exact B.
  - unfold emit; rewrite !prepend_run; simpl. eexists _, _; split; [reflexivity|]; split; [exact R|]. split.
    + simpl; rewrite forallb_app, Hs; reflexivity.
    + simpl; do 4 right; apply in_or_app; right; left; reflexivity.
Qed.

Lemma release_stream_run env w :
  exists r w' t,
    release_stream env w = (r, w', t)
    /\ forallb quiet t = true
    /\ (r = Val tt <-> release_ok env w = true)
    /\ (audio_frames w', recording_start_time w', session_logger w',
        visual_indicator w', temp_wav w')
       = (audio_frames w, recording_start_time w, session_logger w,
          visual_indicator w, temp_wav w).
Proof.
  assert (Hr := release_stream_result env w).
  assert (Ho := release_stream_only env w).
  assert (Hk := release_stream_keeps
            (fun w => (audio_frames w, recording_start_time w, session_logger w,
                       visual_indicator w, temp_wav w))
            env (fun _ _ => eq_refl) w).
  destruct (release_stream env w) as [[r w'] t]; simpl in *.
  exists r, w', t; repeat split; auto; rewrite Hr;
    destruct (release_ok env w); congruence.
Qed.

Lemma guarded_process_run env w :
  exists w' t,
    guarded_process env w = (Val tt, w', t)
    /\ if reaches_engine env w
       then exists pre rest,
              t = pre ++ Log INFO MDirectNumpy
                       :: Transcribe (List.concat (audio_frames w)) :: rest
              /\ forallb quiet pre = true
              /\ block_rest env (List.concat (audio_frames w))
                   (recording_start_time w) (is_some (session_logger w))
                   (is_some (visual_indicator w)) true rest
       else forallb quiet t = true
            /\ (release_ok env w = true -> has_frames w = false ->
                In (Log WARNING MNoAudioData) t)
            /\ (release_ok env w = true -> has_frames w = true ->
                In (Log ERROR MAllWavFailed) t)
            /\ (release_ok env w = false ->
                exists e, In (Log ERROR (MProcessingError e)) t).
Proof.
  unfold guarded_process, process, reaches_engine, has_frames.
  destruct (release_stream_run env w) as (r & w1 & t1 & E1 & H1 & Hr & Hk).
  injection Hk as A T L V W.
  destruct (release_ok env w) eqn:Hok.
  - assert (r = Val tt) as -> by (apply Hr; reflexivity).
    rewrite (try_except_val _ (a:=tt)
               (s1:=state (prepend t1 ((w0 <- get ;;
                      match audio_frames w0 with
                      | [] => emit (Log WARNING MNoAudioData)
                      | _ :: _ => serialize_and_transcribe env
                      end) w1)))
               (t1:=trace (prepend t1 ((w0 <- get ;;
                      match audio_frames w0 with
                      | [] => emit (Log WARNING MNoAudioData)
                      | _ :: _ => serialize_and_transcribe env
                      end) w1)))).
    2:{ rewrite (bind_val _ E1). step_get. rewrite A.
        destruct (audio_frames w).
        - reflexivity.
        - destruct (serialize_and_transcribe_run env w1) as (w' & t & E & _).
          rewrite E. reflexivity. }
    step_get. rewrite A.
    destruct (audio_frames w) as [|c fr] eqn:Hfr.
    + unfold emit; rewrite prepend_run; simpl.
      eexists _, _; split; [reflexivity|]. split; [|split; [|split]].
      * rewrite forallb_app, H1; reflexivity.
      * intros _ _; apply in_or_app; right; left; reflexivity.
      * discriminate.
      * discriminate.
    + destruct (serialize_and_transcribe_run env w1) as (w' & t & E & _ & B).
      rewrite E, prepend_run; simpl.
      eexists _, _; split; [reflexivity|].
      rewrite A, T, L, V in B.
      destruct (wav_saved env).
      * destruct B as (pre & rest & -> & Hp & B).
        exists (t1 ++ pre), rest; split; [|split; auto].
        -- rewrite <- app_assoc; reflexivity.
        -- rewrite forallb_app, H1, Hp; reflexivity.
      * destruct B as [Hq Hin]. split; [|split; [|split]].
        -- rewrite forallb_app, H1, Hq; reflexivity.
        -- discriminate.
        -- intros _ _; apply in_or_app; right; exact Hin.
        -- discriminate.
  - destruct r as [[]|e]; [assert (false = true) by (apply Hr; reflexivity); discriminate|].
    rewrite (try_except_raise _ (bind_raise _ E1)).
    unfold processing_error, bind, emit; rewrite prepend_run; simpl.
    eexists _, _; split; [reflexivity|]. split; [|split; [|split]].
    + rewrite forallb_app, H1; reflexivity.
    + discriminate.
    + discriminate.
    + intros _; exists e; apply in_or_app; right; left; reflexivity.
Qed.

(** ** A stop that passes the guard *)

Lemma cleanup_run env w :
  cleanup env w
  = if temp_wav w
    then match os_remove env with
         | None => (Val tt, set_temp_wav false w,
                    [RemoveTemp; Log DEBUG MCleanedTemp])
         | Some e => (Val tt, w, [RemoveTemp; Log WARNING (MRemoveFailed e)])
         end
    else (Val tt, w, []).
Proof.
  unfold cleanup, bind, get, when, try_except, emit, outcome, modify, ret, raise.
  simpl. destruct (temp_wav w); [destruct (os_remove env)|]; reflexivity.
Qed.

Lemma stop_run env w :
  recording w = true ->
  exists w' tA tC tD,
    stop_recording_and_transcribe env w = (Val tt, w', tA ++ tC ++ tD)
    /\ forallb quiet tA = true
    /\ forallb quiet tD = true
    /\ recording w' = false
    /\ (os_remove env = None -> temp_wav w' = false)
    /\ (temp_wav w' = true ->
        exists e, os_remove env = Some e
                  /\ tD = [RemoveTemp; Log WARNING (MRemoveFailed e)])
    /\ if reaches_engine env w
       then exists pre rest,
              tC = pre ++ Log INFO MDirectNumpy
                       :: Transcribe (List.concat (audio_frames w)) :: rest
              /\ forallb quiet pre = true
              /\ block_rest env (List.concat (audio_frames w))
                   (recording_start_time w) (is_some (session_logger w))
                   (is_some (visual_indicator w)) true rest
       else forallb quiet tC = true
            /\ (release_ok env w = true -> has_frames w = false ->
                In (Log WARNING MNoAudioData) tC)
            /\ (release_ok env w = true -> has_frames w = true ->
                In (Log ERROR MAllWavFailed) tC)
            /\ (release_ok env w = false ->
                exists e, In (Log ERROR (MProcessingError e)) tC).
Proof.
  intros Hrec.
  destruct (stop_phases env w Hrec)
    as (w1 & w2 & w3 & w4 & tA & tB & tC & tD & EA & EB & EC & ED & E
        & HA & HB & HD & Hin & Hvis).
  unfold inputs in Hin; simpl in Hin. injection Hin as R A S L F T W.
  exists w4, (tA ++ tB), tC, tD.
  rewrite <- app_assoc. split; [exact E|].
  split; [rewrite forallb_app, HA, HB; reflexivity|].
  split; [exact HD|].
  split.
  { rewrite <- (stop_clears_recording env w), E; reflexivity. }
  rewrite cleanup_run in ED.
  split; [|split].
  - intros Hrm; rewrite Hrm in ED.
    destruct (temp_wav w3) eqn:H3; injection ED as <- _; [reflexivity|exact H3].
  - intros H4. destruct (temp_wav w3) eqn:H3.
    + destruct (os_remove env) as [e|]; injection ED as <- <-.
      * exists e; auto.
      * discriminate H4.
    + injection ED as <- _. congruence.
  - destruct (guarded_process_run env w2) as (w3' & tC' & EC' & Hshape).
    rewrite EC in EC'; injection EC' as <- <-.
    unfold reaches_engine, release_ok, has_frames in *.
    rewrite A, S, L, T, Hvis in Hshape. exact Hshape.
Qed.

(** ** Counting the events of a stop *)

Lemma count_cons q e t :
  count q (e :: t) = ((if q e then 1 else 0) + count q t)%nat.
Proof. unfold count; simpl; destruct (q e); reflexivity. Qed.

Lemma count_shape q b ev t :
  (forall e, presentational e = true -> q e = false) ->
  call_shape b ev t ->
  count q t = (if b then if q ev then 1 else 0 else 0)%nat.
Proof.
  intros Hq; unfold call_shape; destruct b.
  - intros (t' & -> & Ht'); rewrite count_cons, (count_none presentational q t' Hq Ht').
    destruct (q ev); reflexivity.
  - intros ->; reflexivity.
Qed.

Lemma count_report q st lg vi a b t :
  (forall e, presentational e = true -> q e = false) ->
  (forall m s, q (SessionLogError m s) = false) ->
  (forall m, q (VisualError m) = false) ->
  failure_report st lg vi a b t -> count q t = 0%nat.
Proof.
  intros Hq H1 H2 (tl & tv & -> & Sl & Sv).
  rewrite count_app, (count_shape q _ _ _ Hq Sl), (count_shape q _ _ _ Hq Sv), H1, H2.
  destruct lg, vi; reflexivity.
Qed.

Lemma count_diagnostics q wav e :
  (forall e, presentational e = true -> q e = false) ->
  count q (diagnostics wav e) = 0%nat.
Proof.
  intros Hq; apply (count_none presentational q); auto.
  destruct wav; reflexivity.
Qed.

Lemma count_quiet q t :
  (forall e, quiet e = true -> q e = false) ->
  forallb quiet t = true -> count q t = 0%nat.
Proof. intros; apply (count_none quiet q); auto. Qed.

Lemma quiet_transcribe e : quiet e = true -> is_transcribe e = false.
Proof. destruct e; simpl; auto; discriminate. Qed.
Lemma quiet_clipboard e : quiet e = true -> is_clipboard e = false.
Proof. destruct e; simpl; auto; discriminate. Qed.
Lemma quiet_paste e : quiet e = true -> is_paste e = false.
Proof. destruct e; simpl; auto; discriminate. Qed.
Lemma quiet_session_log e : quiet e = true -> is_session_log e = false.
Proof. destruct e; simpl; auto; discriminate. Qed.
Lemma quiet_visual_result e : quiet e = true -> is_visual_result e = false.
Proof. destruct e; simpl; auto; discriminate. Qed.
Lemma pres_transcribe e : presentational e = true -> is_transcribe e = false.
Proof. destruct e; simpl; auto; discriminate. Qed.
Lemma pres_clipboard e : presentational e = true -> is_clipboard e = false.
Proof. destruct e; simpl; auto; discriminate. Qed.
Lemma pres_paste e : presentational e = true -> is_paste e = false.
Proof. destruct e; simpl; auto; discriminate. Qed.

Lemma count_tail_transcribe env : count is_transcribe (snd (delivery_tail env)) = 0%nat.
Proof. unfold delivery_tail; destruct (clipboard env), (hotkey env); reflexivity. Qed.
Lemma count_tail_clipboard env : count is_clipboard (snd (delivery_tail env)) = 0%nat.
Proof. unfold delivery_tail; destruct (clipboard env), (hotkey env); reflexivity. Qed.
Lemma count_tail_paste env :
  count is_paste (snd (delivery_tail env))
  = (if is_some (clipboard env) then 0 else 1)%nat.
Proof. unfold delivery_tail; destruct (clipboard env), (hotkey env); reflexivity. Qed.

(** What follows the call of the engine holds no further call of it. *)
Lemma block_rest_counts env audio st lg vi wav rest :
  block_rest env audio st lg vi wav rest ->
  count is_transcribe rest = 0%nat
  /\ count is_clipboard rest
     = (if is_some (result_text env audio) then 1 else 0)%nat
  /\ count is_paste rest
     = (if is_some (result_text env audio) && negb (is_some (clipboard env))
        then 1 else 0)%nat.
Proof.
  unfold block_rest, result_text.
  destruct (transcribe env audio) as [e|raw].
  - intros (t & -> & F).
    rewrite !count_app, !count_diagnostics by
      (first [exact pres_transcribe | exact pres_clipboard | exact pres_paste]).
    rewrite (count_report is_transcribe _ _ _ _ _ _ pres_transcribe
               (fun _ _ => eq_refl) (fun _ => eq_refl) F).
    rewrite (count_report is_clipboard _ _ _ _ _ _ pres_clipboard
               (fun _ _ => eq_refl) (fun _ => eq_refl) F).
    rewrite (count_report is_paste _ _ _ _ _ _ pres_paste
               (fun _ _ => eq_refl) (fun _ => eq_refl) F).
    auto.
  - cbv zeta. destruct (truthy_str (strip raw)).
    + intros (tl & tv & t & -> & Sl & Sv & Ht).
      assert (Hrest : count is_transcribe t = 0%nat /\ count is_clipboard t = 0%nat
                      /\ count is_paste t = 0%nat).
      { destruct (fst (delivery_tail env)) as [[]|e].
        - subst t; auto.
        - destruct Ht as (t' & -> & F).
          rewrite !count_app, !count_diagnostics by
            (first [exact pres_transcribe | exact pres_clipboard | exact pres_paste]).
          rewrite (count_report is_transcribe _ _ _ _ _ _ pres_transcribe
                     (fun _ _ => eq_refl) (fun _ => eq_refl) F).
          rewrite (count_report is_clipboard _ _ _ _ _ _ pres_clipboard
                     (fun _ _ => eq_refl) (fun _ => eq_refl) F).
          rewrite (count_report is_paste _ _ _ _ _ _ pres_paste
                     (fun _ _ => eq_refl) (fun _ => eq_refl) F).
          auto. }
      destruct Hrest as (H1 & H2 & H3).
      rewrite !count_cons, !count_app, !count_cons, !count_app, H1, H2, H3.
      rewrite (count_shape is_transcribe _ _ _ pres_transcribe Sl),
              (count_shape is_transcribe _ _ _ pres_transcribe Sv),
              (count_shape is_clipboard _ _ _ pres_clipboard Sl),
              (count_shape is_clipboard _ _ _ pres_clipboard Sv),
              (count_shape is_paste _ _ _ pres_paste Sl),
              (count_shape is_paste _ _ _ pres_paste Sv).
      rewrite count_tail_transcribe, count_tail_clipboard, count_tail_paste.
      simpl. destruct lg, vi, (is_some (clipboard env)); auto.
    + intros (t & -> & F).
      rewrite !count_cons.
      rewrite (count_report is_transcribe _ _ _ _ _ _ pres_transcribe
                 (fun _ _ => eq_refl) (fun _ => eq_refl) F).
      rewrite (count_report is_clipboard _ _ _ _ _ _ pres_clipboard
                 (fun _ _ => eq_refl) (fun _ => eq_refl) F).
      rewrite (count_report is_paste _ _ _ _ _ _ pres_paste
                 (fun _ _ => eq_refl) (fun _ => eq_refl) F).
      auto.
Qed.

(** ** Stop requests: guard, empty buffer, cleanup, delivery, failures *)

Lemma in_count (q : Event -> bool) e t :
  In e t -> q e = true -> count q t <> 0%nat.
Proof.
  intros Hin Hq; induction t as [|x t IH]; [destruct Hin|].
  rewrite count_cons; destruct Hin as [->|Hin].
  - rewrite Hq; discriminate.
  - specialize (IH Hin); destruct (q x); lia.
Qed.

(** Evaluates a closed statement. *)
Ltac evaluate := vm_compute; reflexivity.

Lemma stop_transcribe_count env w :
  recording w = true ->
  count is_transcribe (trace (stop_recording_and_transcribe env w))
  = (if reaches_engine env w then 1 else 0)%nat.
Proof.
  intros Hrec.
  destruct (stop_run env w Hrec)
    as (w' & tA & tC & tD & E & HA & HD & _ & _ & _ & Hshape).
  rewrite E; simpl trace.
  rewrite !count_app, (count_quiet _ _ quiet_transcribe HA),
    (count_quiet _ _ quiet_transcribe HD).
  destruct (reaches_engine env w).
  - destruct Hshape as (pre & rest & -> & Hp & B).
    apply block_rest_counts in B as (B1 & _).
    rewrite count_app, !count_cons, B1, (count_quiet _ _ quiet_transcribe Hp).
    reflexivity.
  - destruct Hshape as (Hq & _).
    rewrite (count_quiet _ _ quiet_transcribe Hq); reflexivity.
Qed.

Lemma run_stops_after_stop envs w :
  recording w = false ->
  run (map ReqStop envs) w
  = (w, map (fun _ => Log DEBUG MStopNoRecording) envs).
Proof.
  intros Hrec; induction envs as [|env envs IH]; simpl; [reflexivity|].
  rewrite (stop_noop env w Hrec); simpl; rewrite IH; reflexivity.
Qed.

Lemma count_noop_stops (envs : list Env) :
  count is_transcribe (map (fun _ => Log DEBUG MStopNoRecording) envs) = 0%nat.
Proof. induction envs; simpl; auto. Qed.

Lemma audio_callback_state indata status w :
  state (audio_callback indata status w)
  = if recording w
    then set_audio_frames (audio_frames w ++ [indata]) w
    else w.
Proof.
  unfold audio_callback, bind, when, emit, get, modify, ret.
  destruct status, (recording w); reflexivity.
Qed.

Lemma audio_callback_quiet indata status w :
  count is_transcribe (trace (audio_callback indata status w)) = 0%nat.
Proof.
  unfold audio_callback, bind, when, emit, get, modify, ret.
  destruct status, (recording w); reflexivity.
Qed.

Lemma timer_fire_state i env w :
  state (timer_fire i env w)
  = match nth_error (timers w) i with
    | Some Armed =>
        let w1 := set_timers (update_nth i (fun _ => Running) (timers w)) w in
        let w2 := state (stop_recording_and_transcribe env w1) in
        set_timers (update_nth i (fun _ => Finished) (timers w2)) w2
    | _ => w
    end.
Proof.
  unfold timer_fire; step_get.
  destruct (nth_error (timers w) i) as [[]|]; try reflexivity.
  unfold bind, modify, try_finally.
  destruct (stop_recording_and_transcribe env _) as [[r w2] t]; reflexivity.
Qed.

Lemma timer_fire_trace i env w :
  trace (timer_fire i env w)
  = match nth_error (timers w) i with
    | Some Armed =>
        trace (stop_recording_and_transcribe env
                 (set_timers (update_nth i (fun _ => Running) (timers w)) w))
    | _ => []
    end.
Proof.
  unfold timer_fire; step_get.
  destruct (nth_error (timers w) i) as [[]|]; try reflexivity.
  unfold bind, modify, try_finally.
  destruct (stop_recording_and_transcribe env _) as [[r w2] t].
  cbn [trace snd]; rewrite app_nil_r; reflexivity.
Qed.

(** One stop calls the engine at most once, and only with the flag set. *)
Lemma stop_transcribe_bound env w :
  (count is_transcribe (trace (stop_recording_and_transcribe env w))
   <= if recording w then 1 else 0)%nat.
Proof.
  destruct (recording w) eqn:Hrec.
  - rewrite (stop_transcribe_count env w Hrec).
    destruct (reaches_engine env w); lia.
  - rewrite (stop_noop env w Hrec); cbn; lia.
Qed.

(** Serving a request that is not a start spends the flag: the calls of
    the engine it makes and the flag it leaves are paid by the flag it
    found. *)
Lemma serve_transcribe_bound r w :
  no_start r = true ->
  (count is_transcribe (trace (serve r w))
   + (if recording (state (serve r w)) then 1 else 0)
   <= if recording w then 1 else 0)%nat.
Proof.
  destruct r as [env|env|indata status|i env]; intros Hr; [discriminate| | |];
    cbn [serve].
  - rewrite stop_clears_recording.
    pose proof (stop_transcribe_bound env w) as Hb.
    rewrite Nat.add_0_r; exact Hb.
  - rewrite audio_callback_state, audio_callback_quiet.
    destruct (recording w) eqn:Hrec; cbn; rewrite ?Hrec; lia.
  - rewrite timer_fire_state, timer_fire_trace.
    destruct (nth_error (timers w) i) as [[]|]; cbn [count filter List.length];
      try (destruct (recording w); lia).
    cbv zeta; cbn [recording set_timers].
    rewrite stop_clears_recording.
    match goal with
    | |- context [stop_recording_and_transcribe env ?x] =>
        pose proof (stop_transcribe_bound env x) as Hb;
        change (recording x) with (recording w) in Hb
    end.
    rewrite Nat.add_0_r; exact Hb.
Qed.

Lemma run_transcribe_bound rs :
  forall w, forallb no_start rs = true ->
  (count is_transcribe (snd (run rs w)) <= if recording w then 1 else 0)%nat.
Proof.
  induction rs as [|r rs IH]; intros w Hrs; [cbn; destruct (recording w); lia|].
  cbn [forallb] in Hrs; apply andb_true_iff in Hrs as [Hr Hrs].
  cbn [run snd]; rewrite count_app.
  pose proof (serve_transcribe_bound r w Hr) as Hhd.
  pose proof (IH (state (serve r w)) Hrs) as Htl.
  revert Hhd Htl.
  destruct (recording (state (serve r w))), (recording w); lia.
Qed.

(** X21. With the calls served one after the other, each returning before
    the next begins: a stop that finds no recording in progress is a
    no-op, it logs one debug line and changes nothing.  When stop is
    called any number of times on a capturing session, the first call
    passes the guard and clears the flag, every later one is such a no-op,
    and over all of them the engine is called once if the first call gets
    as far as the engine, and not at all otherwise.  However manual stops,
    timers reaching their deadline and chunks of audio follow one another,
    as long as no recording is started in between the engine is called at
    most once, and not at all when no recording is in progress. *)
Theorem stop_requests_one_attempt :
  forall (env : Env) (envs : list Env) (rs : list Request) (w : World),
    (recording w = false ->
     stop_recording_and_transcribe env w
     = (Val tt, w, [Log DEBUG MStopNoRecording]))
    /\ (recording w = true ->
        let first := stop_recording_and_transcribe env w in
        recording (state first) = false
        /\ run (map ReqStop (env :: envs)) w
           = (state first,
              trace first ++ map (fun _ => Log DEBUG MStopNoRecording) envs)
        /\ count is_transcribe (snd (run (map ReqStop (env :: envs)) w))
           = (if reaches_engine env w then 1 else 0)%nat)
    /\ (forallb no_start rs = true ->
        (count is_transcribe (snd (run rs w))
         <= if recording w then 1 else 0)%nat).
Proof.
  intros env envs rs w; split; [apply stop_noop|].
  split; [|apply run_transcribe_bound].
  intros Hrec first.
  assert (Hoff : recording (state first) = false)
    by apply stop_clears_recording.
  assert (Hrun : run (map ReqStop (env :: envs)) w
                 = (state first,
                    trace first ++ map (fun _ => Log DEBUG MStopNoRecording) envs)).
  { change (run (map ReqStop (env :: envs)) w)
      with (fst (run (map ReqStop envs) (state first)),
            trace first ++ snd (run (map ReqStop envs) (state first))).
    rewrite (run_stops_after_stop envs _ Hoff); reflexivity. }
  split; [exact Hoff|]; split; [exact Hrun|].
  rewrite Hrun; cbn [snd].
  rewrite count_app, count_noop_stops. unfold first.
  rewrite (stop_transcribe_count env w Hrec); lia.
Qed.

Lemma stop_requests_one_attempt_witness :
  recording world_capturing = true
  /\ recording world_idle = false
  /\ count is_transcribe
       (snd (run (map ReqStop [env_ok; env_ok; env_ok]) world_capturing))
     = 1%nat
  /\ stop_recording_and_transcribe env_ok world_idle
     = (Val tt, world_idle, [Log DEBUG MStopNoRecording])
  /\ (count is_transcribe
        (snd (run [ReqTimer 0 env_ok; ReqStop env_ok; ReqTimer 0 env_ok]
                world_capturing))
      <= 1)%nat.
Proof.
  destruct (stop_requests_one_attempt env_ok [env_ok; env_ok]
              [ReqTimer 0 env_ok; ReqStop env_ok; ReqTimer 0 env_ok]
              world_capturing)
    as (_ & Hon & Hmixed).
  destruct (stop_requests_one_attempt env_ok [] [] world_idle) as [Hoff _].
  assert (Hrec : recording world_capturing = true) by evaluate.
  assert (Hidle : recording world_idle = false) by evaluate.
  destruct (Hon Hrec) as (_ & _ & Hcount).
  split; [exact Hrec|]; split; [exact Hidle|].
  split; [rewrite Hcount; evaluate|].
  split; [exact (Hoff Hidle)|].
  rewrite Hrec in Hmixed; apply Hmixed; reflexivity.
Defined.

(** The timer of a capturing session reaching its deadline just before a
    manual stop, or just after it: the engine is called once. *)
Example timer_and_manual_stop_in_either_order :
  count is_transcribe
    (snd (run [ReqTimer 0 env_ok; ReqStop env_ok] world_capturing)) = 1%nat
  /\ count is_transcribe
       (snd (run [ReqStop env_ok; ReqTimer 0 env_ok] world_capturing)) = 1%nat
  /\ nth_error (timers world_capturing) 0 = Some Armed.
Proof. repeat split; evaluate. Qed.

(** C2 as stated fails: with an empty buffer and [stream.stop()] raising,
    the outer handler logs the processing error and the warning that no
    audio was recorded is never logged. *)
Lemma no_audio_event_missing_when_stream_stop_raises :
  ~ (forall (env : Env) (w : World),
        recording w = true -> audio_frames w = [] ->
        let r := stop_recording_and_transcribe env w in
        count is_transcribe (trace r) = 0%nat
        /\ count is_clipboard (trace r) = 0%nat
        /\ In (Log WARNING MNoAudioData) (trace r)
        /\ recording (state r) = false).
Proof.
  intros H.
  assert (Hrec : recording world_silent = true) by evaluate.
  assert (Hfr : audio_frames world_silent = []) by evaluate.
  destruct (H env_stop_raises world_silent Hrec Hfr) as (_ & _ & Hin & _).
  apply (in_count
           (fun e => match e with Log WARNING MNoAudioData => true | _ => false end))
    in Hin; [|reflexivity].
  apply Hin; evaluate.
Qed.

(** C2, amended.  A stop that passes the guard with an empty buffer returns
    normally with the flag cleared; it calls neither the engine nor the
    clipboard nor the paste key, calls no method of the session logger and
    reports neither a result nor an error to the visual indicator.  The
    visual indicator, if there is one, is told that the recording stopped:
    [visual_indicator.stop_recording()] is called before the buffer is
    looked at.  The stop logs the warning that no audio was recorded when
    the stream was released without an exception; when releasing the
    stream raised, it logs the processing error instead. *)
Theorem empty_buffer_skips_transcription :
  forall (env : Env) (w : World),
    recording w = true -> audio_frames w = [] ->
    let r := stop_recording_and_transcribe env w in
    result r = Val tt
    /\ forallb quiet (trace r) = true
    /\ count is_transcribe (trace r) = 0%nat
    /\ count is_clipboard (trace r) = 0%nat
    /\ count is_paste (trace r) = 0%nat
    /\ recording (state r) = false
    /\ (release_ok env w = true -> In (Log WARNING MNoAudioData) (trace r))
    /\ (release_ok env w = false ->
        exists e, In (Log ERROR (MProcessingError e)) (trace r))
    /\ count is_session_log (trace r) = 0%nat
    /\ count is_visual_result (trace r) = 0%nat
    /\ (is_some (visual_indicator w) = true -> In VisualStop (trace r)).
Proof.
  intros env w Hrec Hfr r.
  assert (Hstop : is_some (visual_indicator w) = true -> In VisualStop (trace r)).
  { intros Hv.
    destruct (stop_phases env w Hrec)
      as (w1 & w2 & w3 & w4 & tA & tB & tC & tD & EA & _ & _ & _ & E & _).
    destruct (with_visual_call VisualStop
                (Visual.stop_recording (vis_env env AtStop))
                (set_recording false w)
                (visual_stop_total _) (visual_stop_only _))
      as (w1' & tA' & EA' & Sh).
    unfold announce_stop in EA; rewrite EA in EA'; injection EA' as _ <-.
    cbn [visual_indicator set_recording] in Sh; rewrite Hv in Sh.
    unfold r; rewrite E; cbn [trace snd].
    destruct Sh as (t' & -> & _); left; reflexivity. }
  destruct (stop_run env w Hrec)
    as (w' & tA & tC & tD & E & HA & HD & Hoff & _ & _ & Hshape).
  assert (Hre : reaches_engine env w = false).
  { unfold reaches_engine, has_frames; rewrite Hfr.
    destruct (release_ok env w); reflexivity. }
  rewrite Hre in Hshape. destruct Hshape as (HC & Hno & _ & Herr).
  assert (Hq : forallb quiet (trace r) = true).
  { unfold r; rewrite E; cbn [trace snd].
    rewrite !forallb_app, HA, HC, HD; reflexivity. }
  unfold r in *; rewrite E in *; cbn [result state trace fst snd] in *.
  split; [reflexivity|]. split; [exact Hq|].
  split; [exact (count_quiet _ _ quiet_transcribe Hq)|].
  split; [exact (count_quiet _ _ quiet_clipboard Hq)|].
  split; [exact (count_quiet _ _ quiet_paste Hq)|].
  split; [exact Hoff|]. split; [|split; [|split; [|split]]].
  - intros Hok; apply in_or_app; right; apply in_or_app; left.
    apply Hno; [exact Hok|]. unfold has_frames; rewrite Hfr; reflexivity.
  - intros Hok; destruct (Herr Hok) as [e He]; exists e.
    apply in_or_app; right; apply in_or_app; left; exact He.
  - exact (count_quiet _ _ quiet_session_log Hq).
  - exact (count_quiet _ _ quiet_visual_result Hq).
  - exact Hstop.
Qed.

Lemma empty_buffer_skips_transcription_witness :
  recording world_silent = true
  /\ audio_frames world_silent = []
  /\ release_ok env_ok world_silent = true
  /\ In (Log WARNING MNoAudioData)
        (trace (stop_recording_and_transcribe env_ok world_silent))
  /\ count is_transcribe
       (trace (stop_recording_and_transcribe env_ok world_silent)) = 0%nat
  /\ In VisualStop (trace (stop_recording_and_transcribe env_ok world_silent)).
Proof.
  assert (Hrec : recording world_silent = true) by evaluate.
  assert (Hfr : audio_frames world_silent = []) by evaluate.
  assert (Hok : release_ok env_ok world_silent = true) by evaluate.
  pose proof (empty_buffer_skips_transcription env_ok world_silent
                Hrec Hfr) as (_ & _ & Ht & _ & _ & _ & Hno & _ & _ & _ & Hv).
  split; [exact Hrec|]; split; [exact Hfr|]; split; [exact Hok|].
  split; [exact (Hno Hok)|]; split; [exact Ht|].
  apply Hv; reflexivity.
Defined.

(** C3 as stated fails: when [os.remove] raises, the [finally] clause logs
    a warning and the file is still there after the stop returned. *)
Lemma artifact_survives_failed_removal :
  ~ (forall (env : Env) (w : World),
        recording w = true -> has_frames w = true ->
        temp_wav (state (stop_recording_and_transcribe env w)) = false).
Proof.
  intros H.
  assert (Hrec : recording world_capturing = true) by evaluate.
  assert (Hfr : has_frames world_capturing = true) by evaluate.
  assert (Hleft : temp_wav (state (stop_recording_and_transcribe
                                     env_no_remove world_capturing)) = true)
    by evaluate.
  rewrite (H env_no_remove world_capturing Hrec Hfr) in Hleft.
  discriminate Hleft.
Qed.

(** C3, amended.  Every stop that passes the guard returns normally, on
    every path.  If [os.remove] does not raise, no file is left at the
    temporary path afterwards; a file is left only when [os.remove] was
    called and raised, which is logged as a warning. *)
Theorem artifact_removed_unless_removal_fails :
  forall (env : Env) (w : World),
    recording w = true ->
    let r := stop_recording_and_transcribe env w in
    result r = Val tt
    /\ (os_remove env = None -> temp_wav (state r) = false)
    /\ (temp_wav (state r) = true ->
        exists e, os_remove env = Some e
                  /\ In RemoveTemp (trace r)
                  /\ In (Log WARNING (MRemoveFailed e)) (trace r)).
Proof.
  intros env w Hrec r.
  destruct (stop_run env w Hrec)
    as (w' & tA & tC & tD & E & _ & _ & _ & Hok & Hfail & _).
  unfold r; rewrite E; cbn [result state trace fst snd].
  split; [reflexivity|]; split; [exact Hok|].
  intros Hw; destruct (Hfail Hw) as (e & He & ->); exists e.
  split; [exact He|].
  split; apply in_or_app; right; apply in_or_app; right; simpl; auto.
Qed.

Lemma artifact_removed_unless_removal_fails_witness :
  recording world_capturing = true
  /\ os_remove env_ok = None
  /\ temp_wav (state (stop_recording_and_transcribe env_ok world_capturing))
     = false.
Proof.
  assert (Hrec : recording world_capturing = true) by evaluate.
  assert (Hrm : os_remove env_ok = None) by evaluate.
  pose proof (artifact_removed_unless_removal_fails env_ok world_capturing
                Hrec) as (_ & Hok & _).
  split; [exact Hrec|]; split; [exact Hrm|]; exact (Hok Hrm).
Defined.

Lemma call_shape_in ev t : call_shape true ev t -> In ev t.
Proof. intros (t' & -> & _); left; reflexivity. Qed.

Lemma failure_report_in st lg vi logged shown t :
  failure_report st lg vi logged shown t ->
  (lg = true -> In (SessionLogError logged (start_datetime st)) t)
  /\ (vi = true -> In (VisualError shown) t).
Proof.
  intros (tl & tv & -> & Sl & Sv); split; intros ->; apply in_or_app;
    [left | right]; apply call_shape_in; assumption.
Qed.


Lemma block_rest_failure env audio st lg vi wav rest e :
  block_rest env audio st lg vi wav rest ->
  transcribe env audio = inl e ->
  (lg = true ->
   In (SessionLogError (transcription_failed_message e) (start_datetime st)) rest)
  /\ (vi = true -> In (VisualError "Transcription failed") rest).
Proof.
  unfold block_rest; intros B He; rewrite He in B.
  destruct B as (t & -> & F).
  apply failure_report_in in F as [Fl Fv].
  split; intros H; apply in_or_app; right; auto.
Qed.


(** ** The stop from the return of the engine on *)

Lemma try_except_emit2 {S E A} (e1 e2 : E) (m : Proc S E A) h s :
  try_except (emit e1 ;; emit e2 ;; m) h s
  = prepend [e1; e2] (try_except m h s).
Proof.
  unfold try_except, bind, emit, prepend.
  destruct (m s) as [[[u|e] s1] t1]; cbn; [reflexivity|].
  destruct (h e s1) as [[r s2] t2]; reflexivity.
Qed.

Lemma transcribe_block_split env a w :
  transcribe_block env a w
  = prepend [Log INFO MDirectNumpy; Transcribe a]
      (try_except (handle_answer env a) (transcription_failed env) w).
Proof.
  unfold transcribe_block.
  change (transcribe_and_deliver env a)
    with (emit (Log INFO MDirectNumpy) ;; emit (Transcribe a) ;;
          handle_answer env a).
  apply try_except_emit2.
Qed.

Lemma after_engine_total env a : total (after_engine env a).
Proof. unfold after_engine, handle_answer; proc_solve. Qed.






(** C7 as stated fails: when none of the three methods writes the WAV
    file, nothing is forwarded to the session log or to the visual
    indicator. *)
Lemma serialization_failure_is_not_forwarded :
  ~ (forall (env : Env) (w : World),
        recording w = true -> has_frames w = true ->
        release_ok env w = true -> wav_saved env = false ->
        let tr := trace (stop_recording_and_transcribe env w) in
        (is_some (session_logger w) = true -> count is_session_log tr <> 0%nat)
        /\ (is_some (visual_indicator w) = true ->
            count is_visual_result tr <> 0%nat)).
Proof.
  intros H.
  assert (Hrec : recording world_capturing = true) by evaluate.
  assert (Hfr : has_frames world_capturing = true) by evaluate.
  assert (Hok : release_ok env_no_wav world_capturing = true) by evaluate.
  assert (Hno : wav_saved env_no_wav = false) by evaluate.
  assert (Hlg : is_some (session_logger world_capturing) = true) by evaluate.
  destruct (H env_no_wav world_capturing Hrec Hfr Hok Hno) as (Hl & _).
  apply (Hl Hlg); evaluate.
Qed.

(** C7, amended.  For a stop that passes the guard with a buffer that is
    not empty and a stream released without an exception: if the WAV file
    was written and the engine raises, the failure is forwarded with its
    message to the session log (if there is a logger) and as an error to
    the visual indicator (if there is one), and neither the clipboard nor
    the paste key is used; if none of the three methods writes the WAV
    file, the engine is not called, the failure is logged by the
    application only, nothing is forwarded to the collaborators and
    neither the clipboard nor the paste key is used.  In both cases the
    stop returns normally with the flag cleared, and the temporary file is
    gone unless [os.remove] was called and raised. *)
Theorem failures_abort_transcription :
  forall (env : Env) (w : World),
    recording w = true -> has_frames w = true -> release_ok env w = true ->
    let r := stop_recording_and_transcribe env w in
    (* the engine raises *)
    (wav_saved env = true ->
     forall e, transcribe env (List.concat (audio_frames w)) = inl e ->
       (is_some (session_logger w) = true ->
        In (SessionLogError (transcription_failed_message e)
              (start_datetime (recording_start_time w))) (trace r))
       /\ (is_some (visual_indicator w) = true ->
           In (VisualError "Transcription failed") (trace r))
       /\ count is_clipboard (trace r) = 0%nat
       /\ count is_paste (trace r) = 0%nat)
    (* no method writes the WAV file *)
    /\ (wav_saved env = false ->
        In (Log ERROR MAllWavFailed) (trace r)
        /\ forallb quiet (trace r) = true
        /\ count is_transcribe (trace r) = 0%nat
        /\ count is_clipboard (trace r) = 0%nat
        /\ count is_paste (trace r) = 0%nat
        /\ count is_session_log (trace r) = 0%nat
        /\ count is_visual_result (trace r) = 0%nat)
    (* in both cases *)
    /\ result r = Val tt
    /\ recording (state r) = false
    /\ (os_remove env = None -> temp_wav (state r) = false)
    /\ (temp_wav (state r) = true ->
        exists e, os_remove env = Some e /\ In RemoveTemp (trace r)).
Proof.
  intros env w Hrec Hfr Hok r.
  destruct (stop_run env w Hrec)
    as (w' & tA & tC & tD & E & HA & HD & Hoff & Hrm & Hfail & Hshape).
  unfold reaches_engine in Hshape; rewrite Hok, Hfr in Hshape; simpl in Hshape.
  unfold r; rewrite E; cbn [result state trace fst snd].
  split; [|split; [|split; [reflexivity|split; [exact Hoff|split; [exact Hrm|]]]]].
  - intros Hsaved e He; rewrite Hsaved in Hshape.
    destruct Hshape as (pre & rest & -> & Hp & B).
    destruct (block_rest_failure _ _ _ _ _ _ _ _ B He) as (Hl & Hv).
    destruct (block_rest_counts _ _ _ _ _ _ _ B) as (_ & Bc & Bp).
    unfold result_text in Bc, Bp; rewrite He in Bc, Bp; simpl in Bc, Bp.
    assert (Hrest : forall x, In x rest ->
              In x (tA ++ (pre ++ Log INFO MDirectNumpy
                     :: Transcribe (List.concat (audio_frames w)) :: rest) ++ tD)).
    { intros x Hx; apply in_or_app; right; apply in_or_app; left.
      apply in_or_app; right; right; right; exact Hx. }
    split; [auto|]; split; [auto|].
    rewrite !count_app, !count_cons, Bc, Bp,
      (count_quiet _ _ quiet_clipboard HA), (count_quiet _ _ quiet_clipboard HD),
      (count_quiet _ _ quiet_clipboard Hp), (count_quiet _ _ quiet_paste HA),
      (count_quiet _ _ quiet_paste HD), (count_quiet _ _ quiet_paste Hp).
    split; reflexivity.
  - intros Hsaved; rewrite Hsaved in Hshape.
    destruct Hshape as (HC & _ & Hall & _).
    assert (Hq : forallb quiet (tA ++ tC ++ tD) = true)
      by (rewrite !forallb_app, HA, HC, HD; reflexivity).
    split; [apply in_or_app; right; apply in_or_app; left; auto|].
    split; [exact Hq|].
    split; [exact (count_quiet _ _ quiet_transcribe Hq)|].
    split; [exact (count_quiet _ _ quiet_clipboard Hq)|].
    split; [exact (count_quiet _ _ quiet_paste Hq)|].
    split; [exact (count_quiet _ _ quiet_session_log Hq)|].
    exact (count_quiet _ _ quiet_visual_result Hq).
  - intros Hw; destruct (Hfail Hw) as (e & He & ->); exists e.
    split; [exact He|].
    apply in_or_app; right; apply in_or_app; right; left; reflexivity.
Qed.

Lemma failures_abort_transcription_witness :
  recording world_capturing = true
  /\ has_frames world_capturing = true
  /\ release_ok env_engine_raises world_capturing = true
  /\ In (VisualError "Transcription failed")
        (trace (stop_recording_and_transcribe env_engine_raises world_capturing))
  /\ In (Log ERROR MAllWavFailed)
        (trace (stop_recording_and_transcribe env_no_wav world_capturing)).
Proof.
  assert (Hrec : recording world_capturing = true) by evaluate.
  assert (Hfr : has_frames world_capturing = true) by evaluate.
  assert (Hok : release_ok env_engine_raises world_capturing = true) by evaluate.
  assert (Hok' : release_ok env_no_wav world_capturing = true) by evaluate.
  assert (Hvi : is_some (visual_indicator world_capturing) = true) by evaluate.
  pose proof (failures_abort_transcription env_engine_raises world_capturing
                Hrec Hfr Hok) as (He & _).
  pose proof (failures_abort_transcription env_no_wav world_capturing
                Hrec Hfr Hok') as (_ & Hw & _).
  assert (Hsaved : wav_saved env_engine_raises = true) by evaluate.
  assert (Hraise : transcribe env_engine_raises
                     (List.concat (audio_frames world_capturing))
                   = inl "out of memory") by evaluate.
  assert (Hnot : wav_saved env_no_wav = false) by evaluate.
  destruct (He Hsaved "out of memory" Hraise) as (_ & Hv & _).
  destruct (Hw Hnot) as (Hall & _).
  split; [exact Hrec|]; split; [exact Hfr|]; split; [exact Hok|].
  split; [exact (Hv Hvi) | exact Hall].
Defined.

(** ** Starts, timers and the states the program reaches *)

Lemma nth_error_update_nth {A} (f : A -> A) l i j :
  nth_error (update_nth i f l) j
  = if Nat.eqb i j then option_map f (nth_error l j) else nth_error l j.
Proof.
  revert i j; induction l as [|x l IH]; intros [|i] [|j]; simpl; auto.
  - destruct (Nat.eqb i j); reflexivity.
Qed.

Lemma update_nth_same {A} (f : A -> A) l i :
  (forall x, nth_error l i = Some x -> f x = x) -> update_nth i f l = l.
Proof.
  revert i; induction l as [|x l IH]; intros [|i] H; simpl; auto.
  - rewrite (H x eq_refl); reflexivity.
  - rewrite IH; auto.
Qed.

Lemma cancel_timer_state w :
  state (cancel_timer w) = set_timers (cancelled_timers w) w
  \/ (state (cancel_timer w) = w /\ cancelled_timers w = timers w).
Proof.
  unfold cancel_timer, cancelled_timers, bind, get, when, emit, modify, ret.
  simpl. destruct (auto_stop_timer w) as [i|]; [|right; auto].
  destruct (nth_error (timers w) i) as [t|] eqn:Hn.
  - destruct t; simpl; auto; right; split; auto;
      apply update_nth_same; intros x Hx; rewrite Hn in Hx; injection Hx as <-;
      reflexivity.
  - right; split; auto. apply update_nth_same; intros x Hx; congruence.
Qed.

Lemma cancel_timer_timers w :
  timers (state (cancel_timer w)) = cancelled_timers w.
Proof.
  destruct (cancel_timer_state w) as [->|[-> ->]]; reflexivity.
Qed.

Lemma stop_timers env w :
  timers (state (stop_recording_and_transcribe env w))
  = (if recording w then cancelled_timers w else timers w)
  /\ auto_stop_timer (state (stop_recording_and_transcribe env w))
     = auto_stop_timer w.
Proof.
  destruct (recording w) eqn:Hrec.
  - destruct (stop_phases env w Hrec)
      as (w1 & w2 & w3 & w4 & tA & tB & tC & tD & EA & EB & EC & ED & E & _).
    rewrite E; cbn [state fst snd].
    assert (K1 := announce_stop_keeps (fun w => (timers w, auto_stop_timer w))
                    env (fun _ _ => eq_refl) (set_recording false w)).
    assert (K2 := cancel_timer_timers w1).
    assert (K2' := cancel_timer_keeps auto_stop_timer (fun _ _ => eq_refl) w1).
    assert (K3 := guarded_process_keeps (fun w => (timers w, auto_stop_timer w))
                    env (fun _ _ => eq_refl) (fun _ _ => eq_refl)
                    (fun _ _ => eq_refl) (fun _ _ => eq_refl) w2).
    assert (K4 := cleanup_keeps (fun w => (timers w, auto_stop_timer w))
                    env (fun _ _ => eq_refl) w3).
    rewrite EA in K1; rewrite EB in K2, K2'; rewrite EC in K3; rewrite ED in K4.
    simpl in K1, K2, K2', K3, K4.
    injection K1 as T1 A1; injection K3 as T3 A3; injection K4 as T4 A4.
    unfold cancelled_timers in *. rewrite A1, T1 in K2.
    split; congruence.
  - rewrite (stop_noop env w Hrec); auto.
Qed.

Lemma start_noop env w :
  recording w = true ->
  start_recording env w = (Val tt, w, [Log DEBUG MStartWhileRecording]).
Proof.
  intros H; unfold start_recording, bind, get; simpl; rewrite H; reflexivity.
Qed.

Lemma start_fails env w :
  recording w = false -> opening_fails env = true ->
  start_recording env w
  = (Val tt, after_failed_start env w,
     StreamCreate
     :: (if is_some (stream_create env) then [] else [StreamStart])
     ++ [Log ERROR (MStartFailed (opening_error env));
         Log ERROR MCheckMicrophone]).
Proof.
  intros Hrec Hfail.
  unfold start_recording, after_failed_start, opening_fails, opening_error in *.
  unfold bind at 1, get; rewrite Hrec; cbn [negb].
  unfold bind, try_except, modify, emit, outcome, raise, ret.
  destruct (stream_create env) as [e|]; simpl; [reflexivity|].
  destruct (stream_start env) as [e|]; simpl; [reflexivity|discriminate].
Qed.

Lemma update_nth_last {A} (l : list A) (x y : A) :
  update_nth (List.length l) (fun _ => y) (l ++ [x]) = l ++ [y].
Proof. induction l as [|a l IH]; [reflexivity|]; simpl; rewrite IH; reflexivity. Qed.

(** A start that opens the stream: the timer is armed when its thread
    starts; when it does not, the flag is cleared and the timer stays as it
    was created. *)
Lemma start_opens env w :
  recording w = false -> opening_fails env = false ->
  let r := start_recording env w in
  result r = Val tt
  /\ recording (state r) = negb (is_some (timer_start env))
  /\ timers (state r)
     = timers w ++ [if is_some (timer_start env) then Unstarted else Armed]
  /\ auto_stop_timer (state r) = Some (List.length (timers w)).
Proof.
  intros Hrec Hok r; unfold r, opening_fails in *.
  apply orb_false_iff in Hok as [Hc Hs].
  unfold start_recording.
  set (V := emit VisualStart ;; Visual.start_recording (vis_env env AtStart)).
  assert (Hv : total (with_visual V)) by (unfold V; proc_solve).
  cbv beta iota zeta delta [bind get modify try_except emit outcome ret raise
                            new_timer].
  rewrite Hrec.
  destruct (stream_create env); [discriminate|].
  destruct (stream_start env); [discriminate|].
  cbv beta iota.
  match goal with
  | |- context [with_visual V ?w3] =>
      destruct (Hv w3) as [[] Hr];
      assert (K := with_visual_keeps
                     (fun w => (recording w, timers w, auto_stop_timer w)) V
                     (fun _ _ => eq_refl) w3);
      destruct (with_visual V w3) as [[rv w4] tv]
  end.
  simpl in Hr, K; subst rv; injection K as KR KT KA.
  destruct (timer_start env) as [e|]; cbn; rewrite KT; cbn.
  - auto.
  - rewrite update_nth_last; auto.
Qed.

Lemma start_succeeds env w :
  recording w = false -> start_raises env = false ->
  let r := start_recording env w in
  result r = Val tt
  /\ recording (state r) = true
  /\ timers (state r) = timers w ++ [Armed]
  /\ auto_stop_timer (state r) = Some (List.length (timers w)).
Proof.
  intros Hrec Hok; apply orb_false_iff in Hok as [Hopen Htimer].
  pose proof (start_opens env w Hrec Hopen) as H; cbv zeta in *.
  destruct (timer_start env); [discriminate|exact H].
Qed.

Lemma no_armed_update l i f :
  no_armed l -> (forall x, x <> Armed -> f x <> Armed) ->
  no_armed (update_nth i f l).
Proof.
  intros Hl Hf j; rewrite nth_error_update_nth.
  destruct (Nat.eqb i j); [|apply Hl].
  specialize (Hl j); destruct (nth_error l j) as [x|]; simpl; [|discriminate].
  intros H; injection H as H; apply (Hf x); congruence.
Qed.

Lemma cancel_not_armed x : cancel x <> Armed.
Proof. destruct x; discriminate. Qed.

Lemma timers_owned_idle w :
  timers_owned w -> recording w = false -> no_armed (timers w).
Proof.
  intros H Hrec j Hj; destruct (H j Hj) as [Hr _]; congruence.
Qed.

Lemma no_armed_owned w : no_armed (timers w) -> timers_owned w.
Proof. intros H i Hi; destruct (H i Hi). Qed.

Lemma no_armed_forallb w :
  no_armed (timers w) -> no_timer_armed w = true.
Proof.
  unfold no_timer_armed, no_armed; induction (timers w) as [|t l IH]; intros H;
    [reflexivity|].
  simpl; rewrite IH; [|intros j; apply (H (Datatypes.S j))].
  specialize (H 0%nat); destruct t; simpl in *; congruence.
Qed.

Lemma cancelled_no_armed w :
  timers_owned w -> no_armed (cancelled_timers w).
Proof.
  intros H j; unfold cancelled_timers.
  destruct (auto_stop_timer w) as [i|] eqn:Ha.
  - rewrite nth_error_update_nth; destruct (Nat.eqb i j) eqn:Hij.
    + destruct (nth_error (timers w) j) as [x|]; simpl; [|discriminate].
      intros Hx; injection Hx as Hx; exact (cancel_not_armed x Hx).
    + intros Hj; destruct (H j Hj) as [_ Hh].
      rewrite Ha in Hh; injection Hh as ->.
      rewrite Nat.eqb_refl in Hij; discriminate.
  - intros Hj; destruct (H j Hj) as [_ Hh]; congruence.
Qed.

Lemma timers_owned_serve r w :
  timers_owned w -> timers_owned (state (serve r w)).
Proof.
  intros H; destruct r as [env|env|indata status|i env]; cbn [serve].
  - (* start *)
    destruct (recording w) eqn:Hrec; [rewrite (start_noop env w Hrec); exact H|].
    assert (Hidle := timers_owned_idle w H Hrec).
    destruct (opening_fails env) eqn:Hopen.
    + rewrite (start_fails env w Hrec Hopen); apply no_armed_owned.
      unfold after_failed_start; destruct (stream_create env); exact Hidle.
    + destruct (start_opens env w Hrec Hopen) as (_ & Hr & Ht & Ha).
      intros j Hj; rewrite Ht in Hj; rewrite Hr, Ha.
      destruct (Nat.lt_ge_cases j (List.length (timers w))) as [Hlt|Hge].
      * rewrite nth_error_app1 in Hj by exact Hlt; destruct (Hidle j Hj).
      * rewrite nth_error_app2 in Hj by exact Hge.
        destruct (j - List.length (timers w))%nat as [|k] eqn:Hk;
          [|destruct k; discriminate Hj].
        destruct (timer_start env); [discriminate Hj|].
        split; [reflexivity|]; f_equal; lia.
  - (* stop *)
    destruct (stop_timers env w) as [Ht Ha].
    destruct (recording w) eqn:Hrec.
    + apply no_armed_owned; rewrite Ht; apply cancelled_no_armed, H.
    + rewrite (stop_noop env w Hrec); exact H.
  - (* a chunk of audio *)
    rewrite audio_callback_state; destruct (recording w) eqn:Hrec; [|exact H].
    intros j Hj; destruct (H j Hj) as [_ Ha]; auto.
  - (* a timer fires *)
    rewrite timer_fire_state.
    destruct (nth_error (timers w) i) as [[]|] eqn:Hi; try exact H.
    cbv zeta; apply no_armed_owned; cbn [timers set_timers].
    apply no_armed_update; [|discriminate].
    set (w1 := set_timers (update_nth i (fun _ => Running) (timers w)) w).
    assert (H1 : no_armed (timers w1)).
    { intros j; cbn [w1 timers set_timers]; rewrite nth_error_update_nth.
      destruct (Nat.eqb i j) eqn:Hij.
      - destruct (nth_error (timers w) j); discriminate.
      - intros Hj; destruct (H j Hj) as [_ Hj']; destruct (H i Hi) as [_ Hi'].
        rewrite Hi' in Hj'; injection Hj' as ->.
        rewrite Nat.eqb_refl in Hij; discriminate. }
    destruct (stop_timers env w1) as [Ht _]; rewrite Ht.
    destruct (recording w1); [|exact H1].
    apply cancelled_no_armed, no_armed_owned, H1.
Qed.

Lemma timers_owned_run rs w :
  timers_owned w -> timers_owned (fst (run rs w)).
Proof.
  revert w; induction rs as [|r rs IH]; intros w H; [exact H|].
  cbn [run fst]; apply IH, timers_owned_serve, H.
Qed.

Lemma reachable_timers_owned w : reachable w -> timers_owned w.
Proof.
  intros (v & lg & fs & wav & rs & ->); apply timers_owned_run.
  intros i Hi; destruct i; discriminate Hi.
Qed.



(** ** Threads

    A call running alone, turn after turn, is the function of the
    embedding, and the threads taking turns one after the other are the
    calls served one after the other. *)

(** The tail of a stop, from the value of [until_engine] on. *)
Lemma try_split {S E X} (pre : Proc S E (option X)) (k : X -> Proc S E unit)
    (h : Exn -> Proc S E unit) (c : Proc S E unit) s :
  try_finally
    (try_except (r <- pre ;; match r with Some x => k x | None => ret tt end) h)
    c s
  = match pre s with
    | (Val (Some x), s1, t1) =>
        prepend t1 (try_finally (try_except (k x) h) c s1)
    | (Val None, s1, t1) => prepend t1 (try_finally (ret tt) c s1)
    | (Raise e, s1, t1) => prepend t1 (try_finally (h e) c s1)
    end.
Proof.
  unfold try_finally, try_except, bind, prepend, ret.
  destruct (pre s) as [[[[x|]|e] s1] t1]; cbn [result state trace fst snd].
  - destruct (k x s1) as [[[a|e] s2] t2]; cbn [result state trace fst snd].
    + destruct (c s2) as [[[u|e] s3] t3]; cbn; rewrite ?app_assoc; reflexivity.
    + destruct (h e s2) as [[r s3] t3]; cbn.
      destruct (c s3) as [[[u|e'] s4] t4]; cbn; rewrite ?app_assoc; reflexivity.
  - destruct (c s1) as [[[u|e] s3] t3]; cbn; rewrite ?app_nil_r; reflexivity.
  - destruct (h e s1) as [[r s3] t3]; cbn.
    destruct (c s3) as [[[u|e'] s4] t4]; cbn; rewrite ?app_assoc; reflexivity.
Qed.

Lemma bind_ext {S E A B} (m : Proc S E A) (f g : A -> Proc S E B) s :
  (forall a s', f a s' = g a s') -> bind m f s = bind m g s.
Proof.
  intros H; unfold bind. destruct (m s) as [[[a|e] s1] t1]; [|reflexivity].
  rewrite H; reflexivity.
Qed.

Lemma bind_assoc {S E A B C} (m : Proc S E A) (f : A -> Proc S E B)
    (g : B -> Proc S E C) s :
  bind (bind m f) g s = bind m (fun a => bind (f a) g) s.
Proof.
  unfold bind. destruct (m s) as [[[a|e] s1] t1]; [|reflexivity].
  destruct (f a s1) as [[[b|e] s2] t2]; [|reflexivity].
  destruct (g b s2) as [[r s3] t3]; rewrite app_assoc; reflexivity.
Qed.

Lemma bind_ret_unit {S E} (m : Proc S E unit) s :
  bind m (fun _ => ret tt) s = m s.
Proof.
  unfold bind, ret. destruct (m s) as [[[[]|e] s1] t1]; [|reflexivity].
  rewrite app_nil_r; reflexivity.
Qed.

Lemma verify_split env a w :
  verify_and_transcribe env a w
  = (r <- verify_wav env a ;; after_until_engine env r) w.
Proof.
  unfold verify_and_transcribe, verify_wav.
  rewrite bind_assoc; apply bind_ext; intros _ s1.
  rewrite bind_assoc; apply bind_ext; intros w1 s2.
  destruct (negb (temp_wav w1)).
  - rewrite bind_assoc. symmetry. etransitivity; [|apply bind_ret_unit].
    apply bind_ext; intros; reflexivity.
  - rewrite bind_assoc; apply bind_ext; intros _ s3.
    rewrite bind_assoc; apply bind_ext; intros _ s4.
    rewrite bind_assoc; apply bind_ext; intros _ s5.
    rewrite transcribe_block_split.
    unfold bind, emit, ret, prepend, after_until_engine.
    destruct (try_except (handle_answer env a) (transcription_failed env) s5)
      as [[r s6] t6]; reflexivity.
Qed.

Lemma serialize_split env w :
  serialize_and_transcribe env w
  = (r <- serialize env ;; after_until_engine env r) w.
Proof.
  unfold serialize_and_transcribe, serialize.
  rewrite bind_assoc; apply bind_ext; intros w1 s1.
  rewrite bind_assoc; apply bind_ext; intros _ s2.
  rewrite bind_assoc; apply bind_ext; intros _ s3.
  cbv zeta.
  rewrite bind_assoc; apply bind_ext; intros _ s4.
  rewrite bind_assoc; apply bind_ext; intros _ s5.
  rewrite bind_assoc; apply bind_ext; intros saved s6.
  destruct (negb saved).
  - rewrite bind_assoc. symmetry. etransitivity; [|apply bind_ret_unit].
    apply bind_ext; intros; reflexivity.
  - apply verify_split.
Qed.

Lemma process_split env w :
  process env w = (r <- until_engine env ;; after_until_engine env r) w.
Proof.
  unfold process, until_engine.
  rewrite bind_assoc; apply bind_ext; intros _ s1.
  rewrite bind_assoc; apply bind_ext; intros w1 s2.
  destruct (audio_frames w1).
  - rewrite bind_assoc. symmetry. etransitivity; [|apply bind_ret_unit].
    apply bind_ext; intros; reflexivity.
  - apply serialize_split.
Qed.

Lemma try_except_ext {S E A} (m m' : Proc S E A) h s :
  m s = m' s -> try_except m h s = try_except m' h s.
Proof. intros H; unfold try_except; rewrite H; reflexivity. Qed.

Lemma try_finally_ext {S E A} (m m' : Proc S E A) c s :
  m s = m' s -> try_finally m c s = try_finally m' c s.
Proof. intros H; unfold try_finally; rewrite H; reflexivity. Qed.

(** The outer [try] with its [finally], cut at the call of the engine. *)
Lemma stop_tail_split env w :
  try_finally (guarded_process env) (cleanup env) w
  = match until_engine env w with
    | (Val (Some a), s1, t1) => prepend t1 (after_engine env a s1)
    | (Val None, s1, t1) => prepend t1 (try_finally (ret tt) (cleanup env) s1)
    | (Raise e, s1, t1) =>
        prepend t1 (try_finally (processing_error e) (cleanup env) s1)
    end.
Proof.
  unfold guarded_process.
  rewrite (try_finally_ext _ _ _ _ (try_except_ext _ _ _ _ (process_split env w))).
  unfold after_until_engine.
  rewrite (try_split (until_engine env)
             (fun a => try_except (handle_answer env a) (transcription_failed env))).
  reflexivity.
Qed.

Lemma prepend_prepend {S E A} (t1 t2 : list E) (x : Res A * S * list E) :
  prepend t1 (prepend t2 x) = prepend (t1 ++ t2) x.
Proof. destruct x as [[r s] t]; unfold prepend; cbn; rewrite app_assoc; reflexivity. Qed.

(** What a stop does between its guard and its outer [try]. *)
Lemma stop_prefix env w :
  exists w2 t,
    forall A (m : WProc A),
      (modify (set_recording false) ;; announce_stop env ;; cancel_timer ;; m) w
      = prepend t (m w2).
Proof.
  destruct (announce_stop_total env (set_recording false w)) as [[] EA].
  destruct (announce_stop env (set_recording false w)) as [[rA w1] tA] eqn:EA'.
  simpl in EA; subst rA.
  destruct (cancel_timer_total w1) as [[] EB].
  destruct (cancel_timer w1) as [[rB w2] tB] eqn:EB'.
  simpl in EB; subst rB.
  exists w2, (tA ++ tB); intros A m.
  rewrite (bind_val _ (a:=tt) (s1:=set_recording false w) (t1:=[])) by reflexivity.
  rewrite prepend_nil, (bind_val _ EA'), (bind_val _ EB'), prepend_prepend.
  reflexivity.
Qed.

Lemma processing_error_total e : total (processing_error e).
Proof. proc_solve. Qed.

Lemma stop_claim_step env w :
  exists w2 t,
    (forall A (m : WProc A),
        (modify (set_recording false) ;; announce_stop env ;; cancel_timer ;; m) w
        = prepend t (m w2))
    /\ stop_step env StopClaim w
       = prepend t
           match until_engine env w2 with
           | (Val (Some a), s1, t1) => (Val (Some (StopEngine a)), s1, t1)
           | (Val None, s1, t1) =>
               prepend t1 ((cleanup env ;; ret (@None StopAt)) s1)
           | (Raise e, s1, t1) =>
               prepend t1
                 ((try_finally (processing_error e) (cleanup env) ;; ret (@None StopAt)) s1)
           end.
Proof.
  destruct (stop_prefix env w) as (w2 & t & P).
  exists w2, t; split; [exact P|].
  cbn [stop_step]. rewrite P. f_equal.
  set (k1 := cleanup env ;; ret (@None StopAt)).
  set (k2 := fun e => try_finally (processing_error e) (cleanup env) ;;
                      ret (@None StopAt)).
  unfold bind at 1, try_except, bind at 1.
  destruct (until_engine env w2) as [[[[a|]|e] s1] t1]; cbn.
  - rewrite !app_nil_r; reflexivity.
  - rewrite !app_nil_r. destruct (k1 s1) as [[r s2] t2]; reflexivity.
  - rewrite !app_nil_r. fold (k2 e).
    destruct (k2 e s1) as [[r s2] t2]; reflexivity.
Qed.

Lemma stop_claim_alone env w :
  turns 2 (Some (Stopping env StopClaim)) w
  = (Val None, state (stop_body env w), trace (stop_body env w)).
Proof.
  destruct (stop_claim_step env w) as (w2 & t & P & E).
  unfold stop_body.
  rewrite (P unit (try_finally (guarded_process env) (cleanup env))).
  rewrite stop_tail_split.
  cbn [turns step]. unfold bind at 1 2. rewrite E; clear E P.
  destruct (until_engine env w2) as [[[[a|]|e] s1] t1].
  - unfold prepend at 1; cbn [result state trace fst snd option_map ret].
    cbn [turns step stop_step]. unfold bind, ret.
    destruct (after_engine_total env a s1) as [[] EA].
    destruct (after_engine env a s1) as [[rA s2] t2]; simpl in EA; subst rA.
    rewrite !prepend_run; cbn; rewrite ?app_nil_r, ?app_assoc; reflexivity.
  - unfold try_finally, bind, ret.
    destruct (cleanup_total env s1) as [[] EC].
    destruct (cleanup env s1) as [[rC s2] t2]; simpl in EC; subst rC.
    rewrite !prepend_run; cbn; rewrite ?app_nil_r, ?app_assoc; reflexivity.
  - destruct (processing_error_total e s1) as [[] EP].
    unfold try_finally, bind, ret.
    destruct (processing_error e s1) as [[rP s2] t2]; simpl in EP; subst rP.
    destruct (cleanup_total env s2) as [[] EC].
    destruct (cleanup env s2) as [[rC s3] t3]; simpl in EC; subst rC.
    rewrite !prepend_run; cbn; rewrite ?app_nil_r, ?app_assoc; reflexivity.
Qed.

Lemma stop_guard_step env w :
  step (Stopping env StopGuard) w
  = if recording w
    then (Val (Some (Stopping env StopClaim)), w, [])
    else (Val None, w, [Log DEBUG MStopNoRecording]).
Proof.
  cbn [step stop_step]; unfold bind, get, emit, ret.
  destruct (recording w); reflexivity.
Qed.

Lemma stop_alone env w :
  turns 3 (Some (Stopping env StopGuard)) w
  = (Val None, state (stop_recording_and_transcribe env w),
     trace (stop_recording_and_transcribe env w)).
Proof.
  change (turns 3 (Some (Stopping env StopGuard)))
    with (t' <- step (Stopping env StopGuard) ;; turns 2 t').
  pose proof (stop_guard_step env w) as G.
  destruct (recording w) eqn:Hrec.
  - rewrite (bind_val _ G), prepend_nil, stop_claim_alone, (stop_on env w Hrec).
    reflexivity.
  - rewrite (bind_val _ G), (stop_noop env w Hrec). reflexivity.
Qed.

Lemma start_alone env w :
  turns 4 (Some (Starting env StartGuard)) w
  = (Val None, state (start_recording env w), trace (start_recording env w)).
Proof.
  destruct (recording w) eqn:Hrec.
  - rewrite (start_noop env w Hrec).
    cbn [turns step start_step]. unfold bind, get, emit, ret. rewrite Hrec.
    reflexivity.
  - assert (G1 : step (Starting env StartGuard) w
                 = (Val (Some (Starting env StartReset)), w, [])).
    { cbn [step start_step]; unfold bind, get, ret; rewrite Hrec; reflexivity. }
    change (turns 4 (Some (Starting env StartGuard)))
      with (t' <- step (Starting env StartGuard) ;; turns 3 t').
    rewrite (bind_val _ G1), prepend_nil.
    set (w1 := set_recording_start_time (Some (now env))
                 (set_recording true (set_audio_frames [] w))).
    assert (G2 : step (Starting env StartReset) w
                 = (Val (Some (Starting env StartOpen)), w1, [])) by reflexivity.
    change (turns 3 (Some (Starting env StartReset)))
      with (t' <- step (Starting env StartReset) ;; turns 2 t').
    rewrite (bind_val _ G2), prepend_nil.
    unfold start_recording.
    cbv beta iota delta [turns step start_step].
    set (M := with_visual
                (emit VisualStart ;;
                 Visual.start_recording (vis_env env AtStart))).
    assert (Hv : total M) by (unfold M; proc_solve).
    clearbody M.
    cbv beta iota zeta delta [bind get modify try_except emit outcome ret raise
                              new_timer start_failed option_map
                              turns step start_step].
    rewrite Hrec. fold w1.
    destruct (stream_create env); [reflexivity|].
    destruct (stream_start env); [reflexivity|].
    cbv beta iota.
    match goal with
    | |- context [M ?w3] =>
        destruct (Hv w3) as [[] Hr];
        destruct (M w3) as [[rv w4] tv]
    end.
    simpl in Hr; subst rv. cbv beta iota zeta.
    destruct (timer_start env); cbn; rewrite ?app_nil_r, <- ?app_assoc;
      reflexivity.
Qed.

Lemma callback_alone indata status w :
  turns 1 (Some (Callback indata status)) w
  = (Val None, state (audio_callback indata status w),
     trace (audio_callback indata status w)).
Proof.
  cbn [turns step]. unfold bind, ret.
  destruct (audio_callback_total indata status w) as [[] E].
  destruct (audio_callback indata status w) as [[r s1] t1]; simpl in E; subst r.
  cbn; rewrite !app_nil_r; reflexivity.
Qed.

Lemma turns_done n w : turns n None w = (Val None, w, []).
Proof. destruct n; reflexivity. Qed.

Lemma turns_more n k t w s1 t1 :
  turns n t w = (Val None, s1, t1) -> turns (n + k) t w = (Val None, s1, t1).
Proof.
  revert t w s1 t1; induction n as [|n IH]; intros t w s1 t1.
  - cbn. intros H; injection H as -> -> <-. apply turns_done.
  - destruct t as [t|]; [|cbn; intros H; injection H as -> <-; reflexivity].
    cbn [turns Nat.add]. unfold bind.
    destruct (step t w) as [[[t'|e] s2] t2]; [|discriminate].
    destruct (turns n t' s2) as [[r s3] t3] eqn:E.
    intros H; injection H as -> -> <-.
    rewrite (IH _ _ _ _ E); reflexivity.
Qed.

Lemma stop_task_step env pc w :
  step (Stopping env pc) w
  = match stop_step env pc w with
    | (Val p, s, t) => (Val (option_map (Stopping env) p), s, t)
    | (Raise e, s, t) => (Raise e, s, t)
    end.
Proof.
  cbn [step]; unfold bind, ret.
  destruct (stop_step env pc w) as [[[p|e] s] t]; [|reflexivity].
  rewrite app_nil_r; reflexivity.
Qed.

Lemma timer_task_step i env pc w :
  step (Timer i env (Some pc)) w
  = match stop_step env pc w with
    | (Val (Some p), s, t) => (Val (Some (Timer i env (Some p))), s, t)
    | (Val None, s, t) =>
        (Val None, set_timers (update_nth i (fun _ => Finished) (timers s)) s, t)
    | (Raise e, s, t) => (Raise e, s, t)
    end.
Proof.
  cbn [step]; unfold bind, modify, ret.
  destruct (stop_step env pc w) as [[[[p|]|e] s] t]; cbn;
    rewrite ?app_nil_r; reflexivity.
Qed.

Lemma timer_stop_turns i env n :
  forall pc w s1 t1,
    turns n (Some (Stopping env pc)) w = (Val None, s1, t1) ->
    turns n (Some (Timer i env (Some pc))) w
    = (Val None,
       set_timers (update_nth i (fun _ => Finished) (timers s1)) s1, t1).
Proof.
  induction n as [|n IH]; intros pc w s1 t1; [discriminate|].
  change (turns (Datatypes.S n) (Some (Stopping env pc)))
    with (t' <- step (Stopping env pc) ;; turns n t').
  change (turns (Datatypes.S n) (Some (Timer i env (Some pc))))
    with (t' <- step (Timer i env (Some pc)) ;; turns n t').
  pose proof (stop_task_step env pc w) as E1.
  pose proof (timer_task_step i env pc w) as E2.
  destruct (stop_step env pc w) as [[[[p|]|e] s2] t2]; cbn [option_map] in E1.
  - rewrite (bind_val _ E1), (bind_val _ E2).
    specialize (IH p s2).
    destruct (turns n (Some (Stopping env p)) s2) as [[r s3] t3].
    rewrite prepend_run. intros H; injection H as -> -> <-.
    rewrite (IH s1 t3 eq_refl); reflexivity.
  - rewrite (bind_val _ E1), (bind_val _ E2), !turns_done, !prepend_run.
    intros H; injection H as <- <-. reflexivity.
  - rewrite (bind_raise _ E1). discriminate.
Qed.

Lemma timer_alone i env w :
  turns 4 (Some (Timer i env None)) w
  = (Val None, state (timer_fire i env w), trace (timer_fire i env w)).
Proof.
  change (turns 4 (Some (Timer i env None)))
    with (t' <- step (Timer i env None) ;; turns 3 t').
  set (w1 := set_timers (update_nth i (fun _ => Running) (timers w)) w).
  assert (G : step (Timer i env None) w
              = match nth_error (timers w) i with
                | Some Armed => (Val (Some (Timer i env (Some StopGuard))), w1, [])
                | _ => (Val None, w, [])
                end).
  { cbn [step]; unfold bind at 1, get.
    destruct (nth_error (timers w) i) as [[]|]; reflexivity. }
  assert (F : timer_fire i env w
              = match nth_error (timers w) i with
                | Some Armed =>
                    try_finally (stop_recording_and_transcribe env)
                      (modify (fun w =>
                         set_timers (update_nth i (fun _ => Finished) (timers w)) w))
                      w1
                | _ => (Val tt, w, [])
                end).
  { unfold timer_fire, bind at 1, get.
    destruct (nth_error (timers w) i) as [[]|]; try reflexivity.
    rewrite (bind_val _ (a:=tt) (s1:=w1) (t1:=[])) by reflexivity.
    apply prepend_nil. }
  rewrite F; clear F.
  destruct (nth_error (timers w) i) as [[]|];
    try (rewrite (bind_val _ G), turns_done; reflexivity).
  rewrite (bind_val _ G), prepend_nil.
  rewrite (timer_stop_turns i env 3 StopGuard w1 _ _ (stop_alone env w1)).
  unfold try_finally, modify.
  destruct (stop_recording_and_transcribe env w1) as [[r s1] t1].
  cbn. rewrite !app_nil_r. reflexivity.
Qed.

Lemma task_alone r w :
  turns 4 (Some (task_of r)) w
  = (Val None, state (serve r w), trace (serve r w)).
Proof.
  destruct r as [env|env|indata status|i env]; cbn [task_of serve].
  - apply start_alone.
  - apply (turns_more 3 1), stop_alone.
  - apply (turns_more 1 3), callback_alone.
  - apply timer_alone.
Qed.

Lemma update_nth_twice {A} (f g : A -> A) l i :
  update_nth i g (update_nth i f l) = update_nth i (fun x => g (f x)) l.
Proof.
  revert i; induction l as [|x l IH]; intros [|i]; simpl; auto.
  rewrite IH; reflexivity.
Qed.

Lemma update_nth_app {A} (f : A -> A) l x r :
  update_nth (List.length l) f (l ++ x :: r) = l ++ f x :: r.
Proof. induction l as [|a l IH]; [reflexivity|]; simpl; rewrite IH; reflexivity. Qed.

(** A turn of the schedule. *)
Lemma interleave_turn i rest tasks w :
  interleave (i :: rest) tasks w
  = match nth_error tasks i with
    | Some (Some t) =>
        match step t w with
        | (Val t', s1, t1) =>
            prepend t1 (interleave rest (update_nth i (fun _ => t') tasks) s1)
        | (Raise _, s1, t1) =>
            prepend t1 (interleave rest (update_nth i (fun _ => None) tasks) s1)
        end
    | _ => interleave rest tasks w
    end.
Proof.
  cbn [interleave].
  destruct (nth_error tasks i) as [[t|]|]; try reflexivity.
  unfold bind, try_except, ret.
  destruct (step t w) as [[[t'|e] s1] t1]; cbn; rewrite ?app_nil_r;
    match goal with
    | |- context [interleave rest ?ts s1] =>
        destruct (interleave rest ts s1) as [[r s2] t2]
    end; reflexivity.
Qed.

(** Consecutive turns of one task. *)
Lemma interleave_turns n :
  forall i rest tasks t w t' s1 t1,
    nth_error tasks i = Some t ->
    turns n t w = (Val t', s1, t1) ->
    interleave (repeat i n ++ rest) tasks w
    = prepend t1 (interleave rest (update_nth i (fun _ => t') tasks) s1).
Proof.
  induction n as [|n IH]; intros i rest tasks t w t' s1 t1 Hi Ht.
  - cbn in Ht; injection Ht as <- <- <-.
    rewrite prepend_nil, update_nth_same; [reflexivity|].
    intros x Hx; congruence.
  - cbn [repeat app]. rewrite interleave_turn, Hi.
    destruct t as [t|].
    + cbn [turns] in Ht. unfold bind in Ht.
      destruct (step t w) as [[[x|e] s2] t2]; [|discriminate].
      destruct (turns n x s2) as [[r s3] t3] eqn:E.
      injection Ht as -> -> <-.
      rewrite (IH i rest (update_nth i (fun _ => x) tasks) x s2 t' s1 t3);
        [| rewrite nth_error_update_nth, Nat.eqb_refl, Hi; reflexivity
         | exact E].
      rewrite prepend_prepend, update_nth_twice; reflexivity.
    + cbn in Ht; injection Ht as <- <- <-.
      apply (IH i rest tasks None w None w []); [exact Hi|apply turns_done].
Qed.

Lemma serial_run_from rs :
  forall done w,
    interleave
      (flat_map (fun i => repeat i 4) (seq (List.length done) (List.length rs)))
      (done ++ map (fun r => Some (task_of r)) rs) w
    = (Val (done ++ map (fun _ => None) rs), fst (run rs w), snd (run rs w)).
Proof.
  induction rs as [|r rs IH]; intros done w; [reflexivity|].
  cbn [List.length seq flat_map map run fst snd].
  rewrite (interleave_turns 4 (List.length done) _ _ (Some (task_of r)) w
             None (state (serve r w)) (trace (serve r w))).
  - rewrite update_nth_app.
    change (done ++ None :: map (fun r => Some (task_of r)) rs)
      with (done ++ [None] ++ map (fun r => Some (task_of r)) rs).
    rewrite app_assoc.
    replace (Datatypes.S (List.length done)) with (List.length (done ++ [None]))
      by (rewrite length_app; simpl; lia).
    rewrite IH, prepend_run, <- app_assoc. reflexivity.
  - rewrite nth_error_app2, Nat.sub_diag by lia. reflexivity.
  - apply task_alone.
Qed.

(** The calls served one after the other are the threads taking turns
    one after the other. *)
Lemma serial_run rs w :
  interleave (one_by_one (List.length rs))
    (map (fun r => Some (task_of r)) rs) w
  = (Val (map (fun _ => None) rs), fst (run rs w), snd (run rs w)).
Proof. exact (serial_run_from rs [] w). Qed.

(** C1.  Two stops that overlap both go past the guard: whatever the
    state, when a recording is in progress and both calls test
    [if not recording] before either assigns [recording = False], both go
    on.  On a session that captured one chunk, with the timer reaching its
    deadline while a manual stop is under way, the engine is then called
    twice with the same audio, and the text is logged, copied and pasted
    twice. *)
Theorem overlapping_stops_transcribe_twice :
  (forall (env1 env2 : Env) (w : World),
      recording w = true ->
      interleave [0; 1]%nat
        [Some (Stopping env1 StopGuard); Some (Stopping env2 StopGuard)] w
      = (Val [Some (Stopping env1 StopClaim); Some (Stopping env2 StopClaim)],
         w, []))
  /\ (let r := interleave racing_stops (stop_and_timer env_ok env_ok)
                 world_capturing in
      recording world_capturing = true
      /\ nth_error (timers world_capturing) 0 = Some Armed
      /\ result r = Val [None; None]
      /\ count is_transcribe (trace r) = 2%nat
      /\ count is_clipboard (trace r) = 2%nat
      /\ count is_paste (trace r) = 2%nat
      /\ count is_session_log (trace r) = 2%nat).
Proof.
  split.
  - intros env1 env2 w Hrec.
    rewrite interleave_turn; cbn [nth_error].
    rewrite stop_guard_step, Hrec, prepend_nil; cbn [update_nth].
    rewrite interleave_turn; cbn [nth_error].
    rewrite stop_guard_step, Hrec, prepend_nil. reflexivity.
  - cbv zeta; repeat split; vm_compute; reflexivity.
Qed.

(** A stop served while a start is opening the stream clears the flag
    before the start arms its timer: the recording flag is clear, a timer
    is armed and the stream is open. *)
Example stop_during_start_leaves_timer_armed :
  let r := interleave [0; 0; 1; 1; 0; 0]%nat
             [Some (Starting env_ok StartGuard); Some (Stopping env_ok StopGuard)]
             world_idle in
  result r = Val [None; None]
  /\ recording (state r) = false
  /\ timers (state r) = [Armed]
  /\ stream (state r) = Some Active.
Proof. cbv zeta; repeat split; vm_compute; reflexivity. Qed.

(** A start served while the engine transcribes overwrites
    [recording_start_time] before the stop reads it: the session started
    at 112 is logged with the start time and the duration of the
    recording started at 125. *)
Example start_during_engine_is_logged :
  let r := interleave [0; 0; 1; 1; 1; 1; 0]%nat
             [Some (Stopping (env_at 130) StopGuard);
              Some (Starting (env_at 125) StartGuard)]
             world_capturing in
  recording_start_time world_capturing = Some 112
  /\ result r = Val [None; None]
  /\ In (SessionLogTranscription (text_of "hello world") (Some 5) (Some 125))
        (trace r)
  /\ recording (state r) = true
  /\ audio_frames (state r) = [].
Proof.
  cbv zeta; repeat split; try (vm_compute; reflexivity).
  vm_compute; repeat (first [left; reflexivity | right]).
Qed.

(** ** The warnings of the monitor *)

Section Monitor.
Import Visual.

Lemma monitor_iteration_run env v t0 :
  recording v = true -> start_time v = Some t0 -> truthy_float t0 = true ->
  let r := remaining v t0 (vis_now env) in
  let x := monitor_iteration env v in
  result x = Val tt
  /\ (max_duration_sec (state x), recording (state x), start_time (state x),
      running (state x))
     = (max_duration_sec v, recording v, start_time v, running v)
  /\ warning_30_shown (state x) = warning_30_shown v || in_window_30 r
  /\ warning_10_shown (state x) = warning_10_shown v || in_window_10 r
  /\ count is_warning_30 (trace x)
     = (if in_window_30 r && negb (warning_30_shown v) then 1 else 0)%nat
  /\ count is_warning_10 (trace x)
     = (if in_window_10 r && negb (warning_10_shown v) then 1 else 0)%nat.
Proof.
  intros Hrec Hst Htr r x; unfold x, r, remaining.
  destruct v as [d rec st tray run w30 w10 pys ply]; simpl in Hrec, Hst; subst.
  unfold monitor_iteration, monitor_check, _show_notification, remaining,
    bind, get, when, try_except, emit, modify, outcome, ret, raise.
  cbn [start_time recording max_duration_sec warning_30_shown warning_10_shown
       has_plyer running result state trace fst snd andb].
  rewrite Htr; cbn [andb].
  generalize (max0 (d - (vis_now env - t0))); intros q.
  destruct (in_window_30 q), (in_window_10 q), w30, w10, ply,
    (notify_exn env); cbn; repeat split; reflexivity.
Qed.

Lemma monitor_counts ticks :
  forall v t0,
    recording v = true -> start_time v = Some t0 -> truthy_float t0 = true ->
    running v = true ->
    count is_warning_30 (trace (_monitor_recording_time ticks v))
    = (if negb (warning_30_shown v) && seen_30 v t0 ticks then 1 else 0)%nat
    /\ count is_warning_10 (trace (_monitor_recording_time ticks v))
       = (if negb (warning_10_shown v) && seen_10 v t0 ticks then 1 else 0)%nat.
Proof.
  induction ticks as [|env ticks IH]; intros v t0 Hrec Hst Htr Hrun.
  - simpl; rewrite !andb_false_r; auto.
  - cbn [_monitor_recording_time]. step_get. rewrite Hrun.
    destruct (monitor_iteration_run env v t0 Hrec Hst Htr)
      as (Hr & Hk & H30 & H10 & C30 & C10).
    destruct (monitor_iteration env v) as [[r v1] t1] eqn:E.
    cbn [result state trace fst snd] in *; subst r.
    injection Hk as Kd Kr Ks Krun.
    rewrite (bind_val _ E).
    destruct (IH v1 t0) as [I30 I10]; try congruence.
    destruct (_monitor_recording_time ticks v1) as [[r2 v2] t2].
    rewrite prepend_run; cbn [trace snd] in *.
    rewrite !count_app, C30, C10, I30, I10, H30, H10.
    unfold seen_30, seen_10, remaining in *; cbn [existsb]; rewrite Kd.
    split.
    + destruct (in_window_30 _), (warning_30_shown v), (existsb _ ticks); reflexivity.
    + destruct (in_window_10 _), (warning_10_shown v), (existsb _ ticks); reflexivity.
Qed.

End Monitor.

Section MonitorClaims.
Import Visual.

Lemma visual_start_state env v :
  let v' := state (start_recording env v) in
  recording v' = true
  /\ start_time v' = Some (vis_now env)
  /\ warning_30_shown v' = false
  /\ warning_10_shown v' = false
  /\ running v' = running v
  /\ max_duration_sec v' = max_duration_sec v.
Proof.
  destruct v as [d rec st tray run w30 w10 pys ply].
  unfold start_recording, update_tray, tray_assign, _show_notification,
    bind, get, when, try_except, emit, modify, outcome, ret, raise.
  cbn [has_pystray tray_icon has_plyer set_recording set_start_time
       set_warning_30 set_warning_10 start_time recording max_duration_sec
       warning_30_shown warning_10_shown running fst snd].
  destruct pys, tray as [tr|], (tray_exn env) as [[[|[|[|j]]] e]|], ply,
    (notify_exn env); cbn; repeat split; reflexivity.
Qed.

(** C5. A monitor that observes a whole session of the maximum duration,
    reading the clock within a second of the start and then every second
    with one millisecond of delay, reads 30.0005 and then 28.9995 seconds
    of remaining time: neither reading passes the test
    [remaining <= 30 and remaining > 29], so the 30-second warning is never
    shown in that session, while the 10-second warning is shown once. *)
Theorem late_monitor_skips_warning_30 :
  let v' := state (start_recording quiet_vis_env indicator0) in
  full_session (vis_now quiet_vis_env) (max_duration_sec indicator0)
               (map vis_now late_ticks) = true
  /\ map (fun env => Qred (remaining v' (vis_now quiet_vis_env) (vis_now env)))
         (firstn 2 (skipn 1768 late_ticks))
     = [60001 # 2000; 57999 # 2000]
  /\ count is_warning_30 (trace (_monitor_recording_time late_ticks v')) = 0%nat
  /\ count is_warning_10 (trace (_monitor_recording_time late_ticks v')) = 1%nat.
Proof. cbv zeta; repeat split; evaluate. Qed.

(** No statement that promises both warnings to every whole session holds of
    the code: the session of [late_ticks] refutes it. *)
Lemma warning_skipped_by_late_ticks :
  ~ (forall (v : SimpleVisualIndicator) (env0 : VisEnv) (ticks : list VisEnv),
        running v = true ->
        truthy_float (vis_now env0) = true ->
        full_session (vis_now env0) (max_duration_sec v) (map vis_now ticks)
        = true ->
        let v' := state (start_recording env0 v) in
        count is_warning_30 (trace (_monitor_recording_time ticks v')) = 1%nat
        /\ count is_warning_10 (trace (_monitor_recording_time ticks v'))
           = 1%nat).
Proof.
  intros H.
  assert (Hrun : running indicator0 = true) by evaluate.
  assert (Ht0 : truthy_float (vis_now quiet_vis_env) = true) by evaluate.
  assert (Hfull : full_session (vis_now quiet_vis_env)
                    (max_duration_sec indicator0) (map vis_now late_ticks)
                  = true) by evaluate.
  destruct (H indicator0 quiet_vis_env late_ticks Hrun Ht0 Hfull) as [H30 _].
  assert (Hnone : count is_warning_30
                    (trace (_monitor_recording_time late_ticks
                              (state (start_recording quiet_vis_env indicator0))))
                  = 0%nat) by evaluate.
  rewrite Hnone in H30; discriminate H30.
Qed.

(** X20. What the code does guarantee.  [start_recording] resets both
    flags.  During the session that follows, whatever the instants at
    which the monitor reads the clock, the 30-second warning is shown at
    most once, and exactly once if and only if at one of these instants the
    remaining time is at most 30 and more than 29 seconds; likewise the
    10-second warning, with 10 and 9 seconds. *)
Theorem warnings_fire_once_in_window :
  forall (v : SimpleVisualIndicator) (env0 : VisEnv) (ticks : list VisEnv),
    running v = true ->
    truthy_float (vis_now env0) = true ->
    let v' := state (start_recording env0 v) in
    let t0 := vis_now env0 in
    warning_30_shown v' = false
    /\ warning_10_shown v' = false
    /\ count is_warning_30 (trace (_monitor_recording_time ticks v'))
       = (if seen_30 v t0 ticks then 1 else 0)%nat
    /\ count is_warning_10 (trace (_monitor_recording_time ticks v'))
       = (if seen_10 v t0 ticks then 1 else 0)%nat.
Proof.
  intros v env0 ticks Hrun Ht0 v' t0.
  destruct (visual_start_state env0 v) as (Hrec & Hst & H30 & H10 & Hr & Hd).
  fold v' in Hrec, Hst, H30, H10, Hr, Hd.
  destruct (monitor_counts ticks v' t0 Hrec Hst Ht0) as [C30 C10];
    [congruence|].
  rewrite H30 in C30; rewrite H10 in C10; cbn [negb andb] in C30, C10.
  unfold seen_30, seen_10, remaining in *; rewrite Hd in C30, C10.
  auto.
Qed.

Lemma warnings_fire_once_in_window_witness :
  running indicator0 = true
  /\ truthy_float (vis_now quiet_vis_env) = true
  /\ count is_warning_30
       (trace (_monitor_recording_time punctual_ticks
                 (state (start_recording quiet_vis_env indicator0))))
     = 1%nat
  /\ count is_warning_10
       (trace (_monitor_recording_time punctual_ticks
                 (state (start_recording quiet_vis_env indicator0))))
     = 1%nat.
Proof.
  assert (Hrun : running indicator0 = true) by evaluate.
  assert (Ht0 : truthy_float (vis_now quiet_vis_env) = true) by evaluate.
  destruct (warnings_fire_once_in_window indicator0 quiet_vis_env punctual_ticks
              Hrun Ht0) as (_ & _ & H30 & H10).
  split; [exact Hrun|]; split; [exact Ht0|]; split.
  - rewrite H30; evaluate.
  - rewrite H10; evaluate.
Defined.

End MonitorClaims.

(** ** Sessions of the logger *)

Section LoggerSessions.
Import SessionLog.

(** What [with open(path, 'a')] and its writes do in every environment. *)
Lemma with_open_append env ws lg fs :
  exists r fs' added,
    with_open env ModeA ws (lg, fs) = (r, (lg, fs'), [])
    /\ folder_exists fs' = folder_exists fs
    /\ file_contents fs' = file_contents fs ++ added
    /\ (exists k, added = firstn k ws)
    /\ (io_fails env (List.length ws) = false -> r = Val tt /\ added = ws)
    /\ (io_fails env (List.length ws) = true -> exists e, r = Raise e).
Proof.
  unfold io_fails, with_open, open_file, write_chunks, append_chunks, on_fs,
    bind, outcome, modify, raise, ret.
  destruct (open_exn env) as [e|]; cbn -[Nat.ltb firstn].
  - exists (Raise e), fs, []; rewrite app_nil_r.
    split; [reflexivity|]; split; [reflexivity|]; split; [reflexivity|].
    split; [exists 0%nat; reflexivity|].
    split; [discriminate | eauto].
  - destruct (write_exn env) as [[k e]|]; cbn -[Nat.ltb firstn].
    + destruct (Nat.ltb k (List.length ws)) eqn:Hk; cbn -[Nat.ltb firstn].
      * eexists _, _, (firstn k ws).
        split; [reflexivity|]; split; [reflexivity|]; split; [reflexivity|].
        split; [eauto|]. split; [discriminate | eauto].
      * eexists _, _, ws.
        split; [reflexivity|]; split; [reflexivity|]; split; [reflexivity|].
        split; [exists (List.length ws); rewrite firstn_all; reflexivity|].
        split; [auto | discriminate].
    + eexists _, _, ws.
      split; [reflexivity|]; split; [reflexivity|]; split; [reflexivity|].
      split; [exists (List.length ws); rewrite firstn_all; reflexivity|].
      split; [auto | discriminate].
Qed.

Lemma io_works_fails env n : io_works env = true -> io_fails env n = false.
Proof.
  unfold io_works, io_fails.
  destruct (open_exn env); [discriminate|].
  destruct (write_exn env) as [[k e]|]; simpl; auto; discriminate.
Qed.

Lemma entry_numbers_firstn_nil k r :
  entry_numbers r = [] -> entry_numbers (firstn k r) = [].
Proof.
  revert k; induction r as [|c r IH]; intros [|k] H; simpl; auto.
  destruct c; simpl in *; auto; discriminate.
Qed.

Lemma entry_numbers_app a b :
  entry_numbers (a ++ b) = entry_numbers a ++ entry_numbers b.
Proof.
  induction a as [|c a IH]; simpl; auto.
  destruct c; simpl; rewrite ?IH; reflexivity.
Qed.

Ltac logger_run :=
  cbv beta iota zeta delta
    [log_transcription log_error add_session_note close_session
     session_duration bind get on_logger modify try_except emit ret raise
     fst snd negb is_some
     session_file_path recording_count include_metadata session_start_time
     log_folder_path incr_count].

Ltac open_append :=
  match goal with
  | |- context [with_open ?e ModeA ?ws (?lg, ?fs)] =>
      let r := fresh "r" in
      let fs' := fresh "fs'" in
      let added := fresh "added" in
      destruct (with_open_append e ws lg fs)
        as (r & fs' & added & -> & Hfolder & Hfile & [k Hadded] & Hok & Hfail)
  end.

Lemma entry_chunks_numbers lg t text d :
  exists r, entry_chunks lg t text d = EntryHead t (recording_count lg) :: r
            /\ entry_numbers r = [].
Proof.
  unfold entry_chunks.
  destruct (include_metadata lg && truthy_opt_float d); [destruct d|];
    eexists; split; reflexivity.
Qed.

Lemma headed_prefix_numbers k h r n :
  entry_numbers [h] = [n] -> entry_numbers r = [] ->
  entry_numbers (firstn k (h :: r)) = []
  \/ entry_numbers (firstn k (h :: r)) = [n].
Proof.
  intros Hh Hr; destruct k as [|k]; [left; reflexivity|right].
  change (firstn (Datatypes.S k) (h :: r)) with ([h] ++ firstn k r).
  rewrite entry_numbers_app, Hh, (entry_numbers_firstn_nil k r Hr); reflexivity.
Qed.

Lemma headless_prefix_numbers k r :
  entry_numbers r = [] -> entry_numbers (firstn k r) = [].
Proof. apply entry_numbers_firstn_nil. Qed.

(** One call on a logger that has a session file. *)
Lemma logger_call_run env c lg fs :
  is_some (session_file_path lg) = true ->
  exists b fs' t added,
    call env c (lg, fs)
    = (Val b, (if numbers_recording c then incr_count lg else lg, fs'), t)
    /\ folder_exists fs' = folder_exists fs
    /\ file_contents fs' = file_contents fs ++ added
    /\ (entry_numbers added = []
        \/ (numbers_recording c = true
            /\ entry_numbers added = [Datatypes.S (recording_count lg)]))
    /\ (io_works env = true -> is_some (session_start_time lg) = true ->
        b = true
        /\ (numbers_recording c = true ->
            entry_numbers added = [Datatypes.S (recording_count lg)])).
Proof.
  intros Hp; destruct lg as [folder md [path|] st n]; [|discriminate].
  destruct c as [text d t|msg t|note|]; cbn [call numbers_recording].
  - logger_run. open_append.
    match type of Hadded with
    | _ = firstn _ (entry_chunks ?l ?t ?x ?d) =>
        destruct (entry_chunks_numbers l t x d) as (rest & Hch & Hrest);
        rewrite Hch in *
    end.
    cbn [recording_count] in Hadded, Hok, Hfail.
    assert (Hnum := headed_prefix_numbers k (EntryHead (or_now env t) (Datatypes.S n))
                      rest (Datatypes.S n) eq_refl Hrest).
    rewrite <- Hadded in Hnum.
    destruct r as [[]|e]; cbn; eexists _, _, _, added;
      (split; [reflexivity|]; split; [exact Hfolder|]; split; [exact Hfile|];
       split; [destruct Hnum; auto|]);
      intros Hio _; specialize (Hok (io_works_fails _ _ Hio));
      destruct Hok as [Hr Ha]; [|discriminate Hr].
    split; [reflexivity|]; intros _; rewrite Ha; simpl; rewrite Hrest; reflexivity.
  - logger_run. open_append.
    assert (Hnum := headed_prefix_numbers k (ErrorHead (or_now env t) (Datatypes.S n))
                      [ErrorMsg msg; Separator] (Datatypes.S n) eq_refl eq_refl).
    rewrite <- Hadded in Hnum.
    destruct r as [[]|e]; cbn; eexists _, _, _, added;
      (split; [reflexivity|]; split; [exact Hfolder|]; split; [exact Hfile|];
       split; [destruct Hnum; auto|]);
      intros Hio _; specialize (Hok (io_works_fails _ _ Hio));
      destruct Hok as [Hr Ha]; [|discriminate Hr].
    split; [reflexivity|]; intros _; rewrite Ha; reflexivity.
  - logger_run. open_append.
    assert (Hnum : entry_numbers added = [])
      by (rewrite Hadded; apply headless_prefix_numbers; reflexivity).
    destruct r as [[]|e]; cbn; eexists _, _, _, added;
      (split; [reflexivity|]; split; [exact Hfolder|]; split; [exact Hfile|];
       split; [auto|]);
      intros Hio _; specialize (Hok (io_works_fails _ _ Hio));
      destruct Hok as [Hr Ha]; [|discriminate Hr].
    split; [reflexivity|discriminate].
  - logger_run. destruct st as [t0|].
    + logger_run. open_append.
      assert (Hnum : entry_numbers added = [])
        by (rewrite Hadded; apply headless_prefix_numbers; reflexivity).
      destruct r as [[]|e]; cbn; eexists _, _, _, added;
        (split; [reflexivity|]; split; [exact Hfolder|]; split; [exact Hfile|];
         split; [auto|]);
        intros Hio _; specialize (Hok (io_works_fails _ _ Hio));
        destruct Hok as [Hr Ha]; [|discriminate Hr].
      split; [reflexivity|discriminate].
    + cbn. exists false, fs, [Log ERROR (MCloseSessionFailed "unsupported operand type(s) for -")], [].
      rewrite app_nil_r.
      split; [reflexivity|]; split; [reflexivity|]; split; [reflexivity|].
      split; [auto|]. intros _ H; discriminate H.
Qed.

(** One call on a logger that has no session file. *)
Lemma call_inert env c lg fs :
  session_file_path lg = None ->
  exists t, call env c (lg, fs) = (Val false, (lg, fs), t).
Proof.
  intros Hp; destruct lg as [folder md path st n]; simpl in Hp; subst path.
  destruct c; cbn [call]; eexists; reflexivity.
Qed.

Lemma session_inert cs lg fs :
  session_file_path lg = None ->
  exists t, session cs (lg, fs)
            = (Val (repeat false (List.length cs)), (lg, fs), t).
Proof.
  intros Hp; induction cs as [|[env c] cs IH]; [eexists; reflexivity|].
  destruct (call_inert env c lg fs Hp) as [t1 E1]; destruct IH as [t2 E2].
  cbn [session]. rewrite (bind_val _ E1), (bind_val _ E2).
  eexists; cbn; reflexivity.
Qed.

Lemma increasing_from_weaken lo lo' l :
  (lo' <= lo)%nat -> increasing_from lo l = true -> increasing_from lo' l = true.
Proof.
  destruct l as [|n l]; [reflexivity|]; simpl; intros Hlo H.
  apply andb_true_iff in H as [H1 H2]; apply Nat.ltb_lt in H1.
  rewrite H2, andb_true_r; apply Nat.ltb_lt; lia.
Qed.

Lemma increasing_from_app lo a b m :
  increasing_from lo a = true -> Forall (fun n => (n <= m)%nat) a ->
  (lo <= m)%nat -> increasing_from m b = true ->
  increasing_from lo (a ++ b) = true.
Proof.
  revert lo; induction a as [|x a IH]; intros lo Ha Hm Hlo Hb; simpl.
  - apply (increasing_from_weaken m); assumption.
  - simpl in Ha; apply andb_true_iff in Ha as [H1 H2]; rewrite H1; simpl.
    inversion Hm; subst; apply IH; auto.
Qed.

(** A sequence of calls on a logger that has a session file. *)
Lemma logger_session_run cs :
  forall lg fs,
    is_some (session_file_path lg) = true ->
    exists bs lg' fs' t added,
      session cs (lg, fs) = (Val bs, (lg', fs'), t)
      /\ List.length bs = List.length cs
      /\ recording_count lg' = (recording_count lg + recordings cs)%nat
      /\ (session_file_path lg', session_start_time lg', log_folder_path lg',
          include_metadata lg')
         = (session_file_path lg, session_start_time lg, log_folder_path lg,
            include_metadata lg)
      /\ folder_exists fs' = folder_exists fs
      /\ file_contents fs' = file_contents fs ++ added
      /\ increasing_from (recording_count lg) (entry_numbers added) = true
      /\ Forall (fun n => (n <= recording_count lg')%nat) (entry_numbers added)
      /\ (forallb (fun ec => io_works (fst ec)) cs = true ->
          is_some (session_start_time lg) = true ->
          bs = repeat true (List.length cs)
          /\ entry_numbers added
             = seq (Datatypes.S (recording_count lg)) (recordings cs)).
Proof.
  induction cs as [|[env c] cs IH]; intros lg fs Hp.
  - exists [], lg, fs, [], []; rewrite app_nil_r; unfold recordings; simpl.
    rewrite Nat.add_0_r; repeat split; auto.
  - destruct (logger_call_run env c lg fs Hp)
      as (b & fs1 & t1 & added1 & E1 & F1 & C1 & N1 & W1).
    set (lg1 := if numbers_recording c then incr_count lg else lg) in *.
    assert (Hfields : (session_file_path lg1, session_start_time lg1,
                       log_folder_path lg1, include_metadata lg1)
                      = (session_file_path lg, session_start_time lg,
                         log_folder_path lg, include_metadata lg))
      by (unfold lg1; destruct (numbers_recording c); reflexivity).
    assert (Hcount : recording_count lg1
                     = (recording_count lg
                        + if numbers_recording c then 1 else 0)%nat)
      by (unfold lg1; destruct (numbers_recording c); simpl; lia).
    assert (Hp1 : is_some (session_file_path lg1) = true)
      by (injection Hfields as -> _ _ _; exact Hp).
    destruct (IH lg1 fs1 Hp1)
      as (bs & lg' & fs' & t2 & added2 & E2 & L2 & K2 & G2 & F2 & C2 & I2 & B2 & W2).
    exists (b :: bs), lg', fs', (t1 ++ t2 ++ []), (added1 ++ added2).
    assert (Hrec : recordings ((env, c) :: cs)
                   = ((if numbers_recording c then 1 else 0) + recordings cs)%nat)
      by (unfold recordings; simpl; destruct (numbers_recording c); reflexivity).
    split.
    { cbn [session]. rewrite (bind_val _ E1), (bind_val _ E2).
      reflexivity. }
    split; [simpl; congruence|].
    split; [rewrite K2, Hcount, Hrec; lia|].
    split; [congruence|].
    split; [congruence|].
    split; [rewrite C2, C1, app_assoc; reflexivity|].
    rewrite entry_numbers_app.
    split; [|split].
    + destruct N1 as [-> | [Hn ->]]; simpl.
      * apply (increasing_from_weaken (recording_count lg1)); [lia|exact I2].
      * rewrite Hn in Hcount. replace (recording_count lg + 1)%nat
          with (Datatypes.S (recording_count lg)) in Hcount by lia.
        rewrite <- Hcount, I2, andb_true_r. apply Nat.ltb_lt; lia.
    + apply Forall_app; split; [|exact B2].
      destruct N1 as [-> | [Hn ->]]; [constructor|].
      constructor; [|constructor]. rewrite Hn in Hcount. lia.
    + intros Hio Hst; cbn [forallb fst] in Hio.
      apply andb_true_iff in Hio as [Hio1 Hio2].
      destruct (W1 Hio1 Hst) as [-> Hn1].
      assert (Hst1 : is_some (session_start_time lg1) = true)
        by (injection Hfields as _ -> _ _; exact Hst).
      destruct (W2 Hio2 Hst1) as [-> Hn2].
      split; [reflexivity|].
      rewrite Hn2, Hrec, Hcount.
      destruct (numbers_recording c) eqn:Hn.
      * rewrite (Hn1 eq_refl); simpl.
        replace (recording_count lg + 1)%nat
          with (Datatypes.S (recording_count lg)) by lia; reflexivity.
      * destruct N1 as [-> | [Hc _]]; [|discriminate].
        rewrite Nat.add_0_r; reflexivity.
Qed.

Ltac create_run :=
  cbv beta iota zeta delta
    [init _create_session_file bind get on_logger on_fs modify try_except emit
     ret raise when outcome fst snd negb is_some
     session_file_path recording_count include_metadata session_start_time
     log_folder_path set_path set_start folder_exists session_file].

Lemma init_run env folder md fs :
  if creation_fails env fs
  then exists lg' fs' t,
         init env folder md fs = (Val false, (lg', fs'), t)
         /\ session_file_path lg' = None
  else exists t,
         init env folder md fs
         = (Val true,
            (mkLogger folder md (Some (folder, log_now env))
                      (Some (log_now env)) 0,
             mkLogFS true (Some (header_chunks (log_now env)))),
            t).
Proof.
  unfold creation_fails.
  destruct fs as [[|] file]; create_run; cbn [andb orb].
  - destruct (io_fails env 7) eqn:Hio.
    + match goal with
      | |- context [with_open ?e ?m ?ws ?s] =>
          destruct (with_open_fails e m ws s Hio) as (ex & s' & -> & _)
      end.
      destruct s' as [lg' fs']; eexists _, _, _; split; reflexivity.
    + match goal with
      | |- context [with_open ?e ?m ?ws ?s] =>
          rewrite (with_open_ok e m ws s Hio)
      end.
      eexists; reflexivity.
  - destruct (makedirs_exn env) as [e|]; create_run; cbn [andb orb].
    + eexists _, _, _; split; reflexivity.
    + destruct (io_fails env 7) eqn:Hio.
      * match goal with
        | |- context [with_open ?e ?m ?ws ?s] =>
            destruct (with_open_fails e m ws s Hio) as (ex & s' & -> & _)
        end.
        destruct s' as [lg' fs']; eexists _, _, _; split; reflexivity.
      * match goal with
        | |- context [with_open ?e ?m ?ws ?s] =>
            rewrite (with_open_ok e m ws s Hio)
        end.
        eexists; reflexivity.
Qed.
(** X1. Whatever the methods of a logger are called with, in whatever
    order and whatever fails in the file system, none of the calls raises.
    When the logger has a session file, [recording_count] ends up advanced
    by the number of [log_transcription] and [log_error] calls, those whose
    write failed included; when it has none, the counter stays as it was.
    The path of the file, the start time, the folder and the metadata flag
    never change. *)
Theorem recording_count_counts_calls :
  forall (cs : list (LogEnv * Call)) (lg : SessionLogger) (fs : LogFS),
    let r := session cs (lg, fs) in
    (exists bs, result r = Val bs /\ List.length bs = List.length cs)
    /\ recording_count (fst (state r))
       = (recording_count lg
          + if is_some (session_file_path lg) then recordings cs else 0)%nat
    /\ session_file_path (fst (state r)) = session_file_path lg
    /\ session_start_time (fst (state r)) = session_start_time lg
    /\ log_folder_path (fst (state r)) = log_folder_path lg
    /\ include_metadata (fst (state r)) = include_metadata lg.
Proof.
  intros cs lg fs r; unfold r.
  destruct (session_file_path lg) as [p|] eqn:Hp.
  - assert (Hs : is_some (session_file_path lg) = true) by (rewrite Hp; reflexivity).
    destruct (logger_session_run cs lg fs Hs)
      as (bs & lg' & fs' & t & added & E & L & K & G & _).
    rewrite E; cbn [result state fst snd is_some].
    injection G as G1 G2 G3 G4.
    split; [exists bs; auto|]. rewrite Hp in G1. auto 6.
  - destruct (session_inert cs lg fs Hp) as [t E].
    rewrite E; cbn [result state fst snd is_some].
    split; [exists (repeat false (List.length cs)); split;
            [reflexivity | apply repeat_length]|].
    rewrite Nat.add_0_r; auto 6.
Qed.

(** X2. No call of a method of the logger removes or rewrites what the
    session file holds: after any sequence of calls, in any environment,
    the earlier contents of the file are a prefix of its contents, and the
    folder is as it was.  A logger without a session file leaves the file
    system untouched. *)
Theorem session_file_only_grows :
  forall (cs : list (LogEnv * Call)) (lg : SessionLogger) (fs : LogFS),
    let r := session cs (lg, fs) in
    (exists added,
        file_contents (snd (state r)) = file_contents fs ++ added)
    /\ folder_exists (snd (state r)) = folder_exists fs
    /\ (session_file_path lg = None -> state r = (lg, fs)).
Proof.
  intros cs lg fs r; unfold r.
  destruct (session_file_path lg) as [p|] eqn:Hp.
  - assert (Hs : is_some (session_file_path lg) = true) by (rewrite Hp; reflexivity).
    destruct (logger_session_run cs lg fs Hs)
      as (bs & lg' & fs' & t & added & E & _ & _ & _ & F & C & _).
    rewrite E; cbn [state fst snd].
    split; [exists added; exact C|]. split; [exact F | discriminate].
  - destruct (session_inert cs lg fs Hp) as [t E].
    rewrite E; cbn [state fst snd].
    split; [exists []; rewrite app_nil_r; reflexivity|]. auto.
Qed.

(** X3. In the file of a logger whose construction succeeded, after any
    sequence of calls the entries carry numbers that increase down the
    file, start above zero and never exceed [recording_count], so no two
    entries share a number, whatever failed in between.  When nothing fails
    every call returns [True] and the entries are numbered 1, 2, ... up to
    the number of [log_transcription] and [log_error] calls. *)
Theorem entries_numbered_in_order :
  forall (env0 : LogEnv) (folder : string) (metadata : bool) (fs0 : LogFS)
         (cs : list (LogEnv * Call)),
    let created := init env0 folder metadata fs0 in
    result created = Val true ->
    let r := session cs (state created) in
    let numbers := entry_numbers (file_contents (snd (state r))) in
    increasing_from 0 numbers = true
    /\ Forall (fun n => (n <= recording_count (fst (state r)))%nat) numbers
    /\ (forallb (fun ec => io_works (fst ec)) cs = true ->
        result r = Val (repeat true (List.length cs))
        /\ numbers = seq 1 (recordings cs)).
Proof.
  intros env0 folder md fs0 cs created Hres r numbers.
  unfold numbers, r, created in *; clear numbers r created.
  assert (Hinit := init_run env0 folder md fs0).
  destruct (creation_fails env0 fs0).
  { destruct Hinit as (lg' & fs' & t & E & _); rewrite E in Hres; discriminate. }
  destruct Hinit as [t0 E0]; rewrite E0; cbn [state fst snd].
  match goal with
  | |- context [session cs (?lg, ?fs)] =>
      destruct (logger_session_run cs lg fs eq_refl)
        as (bs & lg' & fs' & t & added & E & _ & K & _ & _ & C & I & B & W)
  end.
  rewrite E; cbn [result state fst snd recording_count] in *.
  rewrite C; cbn [file_contents session_file].
  rewrite entry_numbers_app; cbn.
  split; [exact I|]. split; [exact B|].
  intros Hio; destruct (W Hio eq_refl) as [-> ->]; auto.
Qed.

Lemma entries_numbered_in_order_witness :
  result (init quiet_log_env "logs" true (mkLogFS false None)) = Val true
  /\ entry_numbers
       (file_contents
          (snd (state (session
                         [(quiet_log_env, LogTranscription (text_of "one") (Some 2) None);
                          (quiet_log_env, AddSessionNote "a note");
                          (quiet_log_env, LogError "two" None)]
                         (state (init quiet_log_env "logs" true
                                   (mkLogFS false None)))))))
     = [1; 2]%nat.
Proof.
  assert (Hres : result (init quiet_log_env "logs" true (mkLogFS false None))
                 = Val true) by reflexivity.
  split; [exact Hres|].
  destruct (entries_numbered_in_order quiet_log_env "logs" true
              (mkLogFS false None)
              [(quiet_log_env, LogTranscription (text_of "one") (Some 2) None);
               (quiet_log_env, AddSessionNote "a note");
               (quiet_log_env, LogError "two" None)] Hres) as (_ & _ & H).
  destruct (H eq_refl) as [_ Hn]. exact Hn.
Defined.

(** X4. [close_session] on a logger whose construction succeeded, after
    any sequence of calls, returns [True] unless opening the file or one of
    its seven writes fails, and never fails for want of a start time.  On
    success the footer it appends reports the time elapsed since the
    construction and, as total, the number of [log_transcription] and
    [log_error] calls made, whether their entries reached the file or
    not. *)
Theorem close_session_reports_session :
  forall (env0 : LogEnv) (folder : string) (metadata : bool) (fs0 : LogFS)
         (cs : list (LogEnv * Call)) (env : LogEnv),
    let created := init env0 folder metadata fs0 in
    result created = Val true ->
    let s := state (session cs (state created)) in
    let r := close_session env s in
    result r = Val (negb (io_fails env 7))
    /\ (io_fails env 7 = false ->
        file_contents (snd (state r))
        = file_contents (snd s)
          ++ footer_chunks (log_now env) (log_now env - log_now env0)
               (recordings cs)).
Proof.
  intros env0 folder md fs0 cs env created Hres s r.
  unfold r, s, created in *; clear r s created.
  assert (Hinit := init_run env0 folder md fs0).
  destruct (creation_fails env0 fs0).
  { destruct Hinit as (lg' & fs' & t & E & _); rewrite E in Hres; discriminate. }
  destruct Hinit as [t0 E0]; rewrite E0; cbn [state fst snd].
  match goal with
  | |- context [session cs (?lg, ?fs)] =>
      destruct (logger_session_run cs lg fs eq_refl)
        as (bs & lg' & fs' & t & added & E & _ & K & G & _)
  end.
  rewrite E; cbn [state fst snd recording_count] in *.
  destruct lg' as [folder' md' path' st' n']; cbn in K, G.
  injection G as -> -> -> ->; subst n'.
  logger_run.
  destruct (io_fails env 7) eqn:Hio.
  - match goal with
    | |- context [with_open ?e ?m ?ws ?x] =>
        destruct (with_open_fails e m ws x Hio) as (ex & s' & -> & _)
    end.
    split; [reflexivity | discriminate].
  - match goal with
    | |- context [with_open ?e ?m ?ws ?x] =>
        rewrite (with_open_ok e m ws x Hio)
    end.
    split; [reflexivity|]; intros _; reflexivity.
Qed.

Lemma close_session_reports_session_witness :
  result (init quiet_log_env "logs" true (mkLogFS false None)) = Val true
  /\ result (close_session quiet_log_env
               (state (session [(quiet_log_env, LogError "two" None)]
                         (state (init quiet_log_env "logs" true
                                   (mkLogFS false None))))))
     = Val (negb (io_fails quiet_log_env 7)).
Proof.
  assert (Hres : result (init quiet_log_env "logs" true (mkLogFS false None))
                 = Val true) by reflexivity.
  split; [exact Hres|].
  exact (proj1 (close_session_reports_session quiet_log_env "logs" true
                  (mkLogFS false None) [(quiet_log_env, LogError "two" None)]
                  quiet_log_env Hres)).
Defined.

(** X5. Constructing a logger never raises.  It succeeds unless the folder
    is missing and cannot be made, or the file cannot be opened, or one of
    the seven lines of the header cannot be written; then the logger has
    the path of the new file, the creation time as start time and a counter
    of zero, the folder exists, and the file holds the header and nothing
    else, whatever a file of that name held before.  Otherwise
    [get_session_file_path] gives [None] and the logger is inert: every
    later call returns [False] and changes neither the logger nor the file
    system. *)
Theorem logger_created_or_inert :
  forall (env : LogEnv) (folder : string) (metadata : bool) (fs : LogFS),
    let r := init env folder metadata fs in
    result r = Val (negb (creation_fails env fs))
    /\ (creation_fails env fs = false ->
        state r
        = (mkLogger folder metadata (Some (folder, log_now env))
                    (Some (log_now env)) 0,
           mkLogFS true (Some (header_chunks (log_now env)))))
    /\ (creation_fails env fs = true ->
        get_session_file_path (fst (state r)) = None
        /\ forall cs,
             result (session cs (state r))
             = Val (repeat false (List.length cs))
             /\ state (session cs (state r)) = state r).
Proof.
  intros env folder md fs r; unfold r; clear r.
  assert (Hinit := init_run env folder md fs).
  destruct (creation_fails env fs).
  - destruct Hinit as (lg' & fs' & t & E & Hp); rewrite E; cbn [result state fst snd].
    split; [reflexivity|]. split; [discriminate|]. intros _.
    split; [exact Hp|]. intros cs.
    destruct (session_inert cs lg' fs' Hp) as [t' E']; rewrite E'; auto.
  - destruct Hinit as [t E]; rewrite E; cbn [result state fst snd].
    split; [reflexivity|]. split; [reflexivity | discriminate].
Qed.

End LoggerSessions.

(** ** Sessions of the visual indicator *)

Section IndicatorSessions.
Import Visual.

Ltac visual_run :=
  unfold call, start_recording, stop_recording, transcription_complete,
    show_error, cleanup, monitor_pass, monitor_iteration, monitor_check,
    update_tray, tray_assign, _show_notification,
    bind, get, when, try_except, emit, modify, outcome, ret, raise;
  cbn [has_pystray tray_icon has_plyer set_recording set_start_time
       set_warning_30 set_warning_10 set_running set_tray start_time recording
       max_duration_sec warning_30_shown warning_10_shown running fst snd
       is_some andb negb option_map].

Ltac settle rec w30 w10 :=
  cbn; eexists _, _; repeat split; try discriminate; intros; repeat split;
  try reflexivity;
  try (destruct rec, w30, w10; cbn; first [reflexivity | lia]).

Lemma indicator_call_run env c v :
  exists v' t,
    call env c v = (Val tt, v', t)
    /\ (has_plyer v', has_pystray v', max_duration_sec v')
       = (has_plyer v, has_pystray v, max_duration_sec v)
    /\ count is_toast t
       = (if has_plyer v then count is_show_notification t else 0)%nat
    /\ (has_pystray v = false ->
        tray_icon v' = tray_icon v /\ count is_tray_stop t = 0%nat)
    /\ (is_start_call c = false ->
        recording v' = recording v && match c with StopRecording => false | _ => true end
        /\ (count is_warning_30 t + due_30 v' <= due_30 v)%nat
        /\ (count is_warning_10 t + due_10 v' <= due_10 v)%nat).
Proof.
  destruct v as [d rec st tray run w30 w10 pys ply].
  unfold due_30, due_10.
  destruct c as [| |text|msg| |]; visual_run.
  - destruct pys, tray as [tr|], (tray_exn env) as [[[|[|[|j]]] e]|], ply,
      (notify_exn env); settle rec w30 w10.
  - destruct pys, tray as [tr|], (tray_exn env) as [[[|[|[|j]]] e]|], ply,
      (notify_exn env); settle rec w30 w10.
  - destruct ply, (notify_exn env); settle rec w30 w10.
  - destruct ply, (notify_exn env); settle rec w30 w10.
  - destruct pys, tray as [tr|], (tray_exn env) as [[j e]|], ply;
      settle rec w30 w10.
  - destruct run; [|destruct ply; settle rec w30 w10].
    destruct st as [t0|]; [|destruct ply; settle rec w30 w10].
    unfold remaining;
    cbn [has_pystray tray_icon has_plyer start_time recording max_duration_sec
         warning_30_shown warning_10_shown running].
    generalize (max0 (d - (vis_now env - t0))); intros q.
    destruct rec, (truthy_float t0), (in_window_30 q), (in_window_10 q),
      w30, w10, ply, (notify_exn env); settle true true true.
Qed.

(** A pass of the monitor thread between the calls is a pass of its loop. *)
Lemma monitor_pass_run env v :
  monitor_pass env v
  = if running v then monitor_iteration env v else (Val tt, v, []).
Proof.
  unfold monitor_pass, bind, get; cbv beta iota.
  destruct (running v).
  - destruct (monitor_iteration env v) as [[[[]|e] v1] t1]; reflexivity.
  - reflexivity.
Qed.

Lemma idle_passes ticks v :
  running v = false ->
  session (map (fun env => (env, MonitorPass)) ticks) v = (Val tt, v, []).
Proof.
  intros Hrun; induction ticks as [|env ticks IH]; [reflexivity|].
  cbn [map session call].
  assert (E : monitor_pass env v = (Val tt, v, []))
    by (rewrite monitor_pass_run, Hrun; reflexivity).
  rewrite (bind_val _ E), IH; reflexivity.
Qed.

Lemma monitor_loop_passes ticks v :
  _monitor_recording_time ticks v
  = session (map (fun env => (env, MonitorPass)) ticks) v.
Proof.
  revert v; induction ticks as [|env ticks IH]; intros v; [reflexivity|].
  cbn [_monitor_recording_time map session call].
  unfold bind at 1, get; cbv beta iota.
  destruct (running v) eqn:Hrun.
  - unfold monitor_pass, bind, get; cbv beta iota; rewrite Hrun.
    destruct (monitor_iteration env v) as [[[[]|e] v1] t1]; [|reflexivity].
    rewrite IH.
    destruct (session (map (fun env => (env, MonitorPass)) ticks) v1)
      as [[r2 v2] t2]; reflexivity.
  - assert (E : monitor_pass env v = (Val tt, v, []))
      by (rewrite monitor_pass_run, Hrun; reflexivity).
    rewrite (bind_val _ E), idle_passes by exact Hrun. reflexivity.
Qed.

Lemma indicator_session_run cs :
  forall v,
  exists v' t,
    session cs v = (Val tt, v', t)
    /\ (has_plyer v', has_pystray v', max_duration_sec v')
       = (has_plyer v, has_pystray v, max_duration_sec v)
    /\ count is_toast t
       = (if has_plyer v then count is_show_notification t else 0)%nat
    /\ (has_pystray v = false ->
        tray_icon v' = tray_icon v /\ count is_tray_stop t = 0%nat)
    /\ (same_recording cs = true ->
        (recording v' = true -> recording v = true)
        /\ (count is_warning_30 t + due_30 v' <= due_30 v)%nat
        /\ (count is_warning_10 t + due_10 v' <= due_10 v)%nat).
Proof.
  induction cs as [|[env c] cs IH]; intros v.
  - exists v, []; repeat split; auto; destruct (has_plyer v); reflexivity.
  - destruct (indicator_call_run env c v) as (v1 & t1 & E1 & F1 & T1 & P1 & W1).
    destruct (IH v1) as (v' & t2 & E2 & F2 & T2 & P2 & W2).
    injection F1 as F1a F1b F1c.
    exists v', (t1 ++ t2).
    split; [cbn [session]; rewrite (bind_val _ E1), E2; reflexivity|].
    split; [rewrite F2; congruence|].
    split; [|split].
    + rewrite !count_app, T1, T2, F1a. destruct (has_plyer v); reflexivity.
    + intros Hp. destruct (P1 Hp) as [Q1 S1]. rewrite <- F1b in Hp.
      destruct (P2 Hp) as [Q2 S2].
      split; [congruence|]. rewrite count_app, S1, S2; reflexivity.
    + unfold same_recording; cbn [forallb snd]; intros Hns. apply andb_true_iff in Hns as [Hc Hns].
      apply negb_true_iff in Hc.
      destruct (W1 Hc) as (R1 & A1 & B1). destruct (W2 Hns) as (R2 & A2 & B2).
      split; [|rewrite !count_app; lia].
      intros H; specialize (R2 H); rewrite R1 in R2.
      apply andb_true_iff in R2 as [R2 _]; exact R2.
Qed.
(** X6. No method of the indicator raises, whatever the tray and the
    notification service do: any sequence of calls of [start_recording],
    [stop_recording], [transcription_complete], [show_error] and [cleanup],
    with passes of the monitor in between, returns normally, and so does
    the loop of the monitor over any clock readings. *)
Theorem indicator_never_raises :
  forall (cs : list (VisEnv * Call)) (ticks : list VisEnv)
         (v : SimpleVisualIndicator),
    result (session cs v) = Val tt
    /\ result (_monitor_recording_time ticks v) = Val tt.
Proof.
  intros cs ticks v; split.
  - destruct (indicator_session_run cs v) as (v' & t & E & _); rewrite E; reflexivity.
  - rewrite monitor_loop_passes.
    destruct (indicator_session_run (map (fun env => (env, MonitorPass)) ticks) v)
      as (v' & t & E & _); rewrite E; reflexivity.
Qed.

(** X7. The two optional libraries are looked up once, by the constructor:
    no call changes [has_plyer] or [has_pystray].  With plyer, every
    notification the indicator is asked to show is handed to
    [notification.notify] exactly once; without it none is.  Without
    pystray the tray icon is never assigned and never stopped. *)
Theorem optional_libraries_gate_the_effects :
  forall (cs : list (VisEnv * Call)) (v : SimpleVisualIndicator),
    let r := session cs v in
    has_plyer (state r) = has_plyer v
    /\ has_pystray (state r) = has_pystray v
    /\ count is_toast (trace r)
       = (if has_plyer v then count is_show_notification (trace r) else 0)%nat
    /\ (has_pystray v = false ->
        tray_icon (state r) = tray_icon v
        /\ count is_tray_stop (trace r) = 0%nat).
Proof.
  intros cs v r; unfold r.
  destruct (indicator_session_run cs v) as (v' & t & E & F & T & P & _); rewrite E.
  injection F as F1 F2 F3; cbn [state trace fst snd]; auto.
Qed.

(** X8. Between two calls of [start_recording] each of the two warnings is
    shown at most once, and only while the recording is in progress and
    the warning has not been shown: once [stop_recording] was called the
    monitor shows no warning, however long it goes on running. *)
Theorem no_warning_outside_recording :
  forall (cs : list (VisEnv * Call)) (v : SimpleVisualIndicator),
    same_recording cs = true ->
    let r := session cs v in
    (count is_warning_30 (trace r) <= due_30 v)%nat
    /\ (count is_warning_10 (trace r) <= due_10 v)%nat
    /\ (recording v = false ->
        count is_warning_30 (trace r) = 0%nat
        /\ count is_warning_10 (trace r) = 0%nat)
    /\ (forall env,
           let r' := session cs (state (stop_recording env v)) in
           count is_warning_30 (trace r') = 0%nat
           /\ count is_warning_10 (trace r') = 0%nat).
Proof.
  intros cs v Hcs r; unfold r.
  assert (Hidle : forall x, recording x = false ->
            count is_warning_30 (trace (session cs x)) = 0%nat
            /\ count is_warning_10 (trace (session cs x)) = 0%nat).
  { intros x Hx.
    destruct (indicator_session_run cs x) as (x' & t & E & _ & _ & _ & W); rewrite E.
    destruct (W Hcs) as (_ & A & B); cbn [trace snd].
    unfold due_30, due_10 in A, B; rewrite Hx in A, B; simpl in A, B.
    destruct (recording x'); simpl in A, B; lia. }
  destruct (indicator_session_run cs v) as (v' & t & E & _ & _ & _ & W); rewrite E.
  destruct (W Hcs) as (_ & A & B); cbn [trace snd].
  split; [lia|]. split; [lia|]. split.
  - intros Hrec; specialize (Hidle v Hrec); rewrite E in Hidle; exact Hidle.
  - intros env; apply Hidle.
    destruct (indicator_call_run env StopRecording v) as (v1 & t1 & E1 & _ & _ & _ & W1).
    cbn [call] in E1; rewrite E1; cbn [state fst snd].
    destruct (W1 eq_refl) as (R & _); rewrite R; apply andb_false_r.
Qed.

Lemma no_warning_outside_recording_witness :
  same_recording [(quiet_vis_env, MonitorPass); (quiet_vis_env, ShowError "x");
                  (quiet_vis_env, MonitorPass)] = true
  /\ count is_warning_30
       (trace (session [(quiet_vis_env, MonitorPass);
                        (quiet_vis_env, ShowError "x");
                        (quiet_vis_env, MonitorPass)]
                 (state (stop_recording quiet_vis_env indicator0)))) = 0%nat.
Proof.
  split; [reflexivity|].
  exact (proj1 (proj2 (proj2 (proj2
           (no_warning_outside_recording
              [(quiet_vis_env, MonitorPass); (quiet_vis_env, ShowError "x");
               (quiet_vis_env, MonitorPass)] indicator0 eq_refl)))
           quiet_vis_env)).
Defined.

Lemma transcription_complete_shows env text v :
  In (ShowNotification (NComplete (preview text)))
     (trace (transcription_complete env text v)).
Proof.
  unfold transcription_complete, _show_notification, bind, get, try_except,
    emit, outcome, ret, raise.
  generalize (preview text); intros p.
  destruct (has_plyer v), (notify_exn env); left; reflexivity.
Qed.

(** X9. The preview [transcription_complete] puts into its notification
    never has more than 53 characters: a text of at most 50 characters is
    shown as it is, a longer one is cut to its first 50 characters,
    followed by three dots. *)
Theorem preview_is_bounded :
  forall (text : Str),
    (List.length (preview text) <= 53)%nat
    /\ ((List.length text <= 50)%nat -> preview text = text)
    /\ ((50 < List.length text)%nat ->
        List.length (preview text) = 53%nat
        /\ firstn 50 (preview text) = firstn 50 text
        /\ skipn 50 (preview text) = text_of "...")
    /\ (forall env v,
           In (ShowNotification (NComplete (preview text)))
              (trace (transcription_complete env text v))).
Proof.
  intros text.
  assert (Hshown := fun env v => transcription_complete_shows env text v).
  unfold preview in *.
  assert (Hlen : (50 < List.length text)%nat ->
                 List.length (firstn 50 text) = 50%nat)
    by (intros H; rewrite length_firstn; lia).
  destruct (Nat.ltb 50 (List.length text)) eqn:Hlt.
  - apply Nat.ltb_lt in Hlt. specialize (Hlen Hlt).
    split; [rewrite length_app, Hlen; simpl; lia|].
    split; [lia|]. split.
    + intros _. split; [rewrite length_app, Hlen; reflexivity|].
      split.
      * rewrite firstn_app, Hlen, Nat.sub_diag, firstn_firstn.
        cbn [firstn]; rewrite app_nil_r; reflexivity.
      * rewrite skipn_app, Hlen, Nat.sub_diag.
        rewrite <- Hlen at 1; rewrite skipn_all; reflexivity.
    + intros env v; apply Hshown.
  - apply Nat.ltb_ge in Hlt.
    split; [lia|]. split; [reflexivity|]. split; [lia|].
    intros env v; apply Hshown.
Qed.

Lemma preview_is_bounded_witness :
  (50 < List.length
          (text_of "The quick brown fox jumps over the lazy dog, twice over."))%nat
  /\ preview
       (text_of "The quick brown fox jumps over the lazy dog, twice over.")
     = text_of "The quick brown fox jumps over the lazy dog, twice..."
  /\ List.length
       (preview
          (text_of "The quick brown fox jumps over the lazy dog, twice over."))
     = 53%nat.
Proof.
  assert (H : (50 < List.length
                     (text_of
                        "The quick brown fox jumps over the lazy dog, twice over."))%nat)
    by (vm_compute; lia).
  split; [exact H|]. split; [reflexivity|].
  exact (proj1 (proj1 (proj2 (proj2 (preview_is_bounded
           (text_of
              "The quick brown fox jumps over the lazy dog, twice over."))))
           H)).
Defined.

(** X10. Constructing an indicator raises only when importing pystray or
    plyer raises something else than [ImportError], or when the monitor
    thread cannot be started.  A missing library is recorded in
    [has_pystray] or [has_plyer], and a failure to set up the tray is
    logged and not fatal: the constructor returns an idle indicator in
    every other case, with a tray icon exactly when pystray was imported
    and the icon could be created. *)
Theorem indicator_built_unless_import_raises :
  forall (env : SetupEnv) (d : Q),
    (construction_raises env = false ->
     fst (init env d) = Val (constructed env d))
    /\ (construction_raises env = true ->
        exists e, fst (init env d) = Raise e).
Proof.
  intros env d; unfold construction_raises, constructed, init, init_body,
    _try_import_pystray, _try_import_plyer, try_import, _setup_tray_icon,
    blank, bind, get, when, try_except, emit, modify, outcome, ret, raise.
  destruct env as [py pl ic tt mt]; cbn [import_pystray import_plyer icon_create
    tray_thread monitor_thread].
  destruct py, pl, ic, tt, mt; cbn; split; intros H;
    first [discriminate H | reflexivity | eexists; reflexivity].
Qed.

End IndicatorSessions.

(** ** Requests, timers and the WAV file *)

Lemma timer_fire_total i env : total (timer_fire i env).
Proof. proc_solve. Qed.

(** X11. No request raises, whatever the devices, the engine, the
    clipboard, the file system and the collaborators do: a start, a stop,
    a chunk of audio and a timer reaching its deadline all return
    normally, so none of the threads of the program ends with an
    exception. *)
Theorem requests_never_raise :
  forall (r : Request) (w : World), result (serve r w) = Val tt.
Proof.
  intros r w.
  assert (H : total (serve r)).
  { destruct r; cbn [serve];
      [apply start_total | apply stop_total | apply audio_callback_total
      | apply timer_fire_total]. }
  destruct (H w) as [[] Hr]; exact Hr.
Qed.

(** X12. With the calls served one after the other, each returning before
    the next begins: in every state the program reaches at most one timer
    waits for its deadline, it is the one [auto_stop_timer] refers to, and
    a recording is in progress.  So a timer that reaches its deadline
    while no recording is in progress was cancelled, was never started or
    has already fired, and does nothing.  (Calls that overlap break this:
    see [stop_during_start_leaves_timer_armed].) *)
Theorem one_timer_per_recording :
  forall (w : World),
    reachable w ->
    (forall i, nth_error (timers w) i = Some Armed ->
               recording w = true /\ auto_stop_timer w = Some i)
    /\ (forall i j, nth_error (timers w) i = Some Armed ->
                    nth_error (timers w) j = Some Armed -> i = j)
    /\ (recording w = false ->
        no_timer_armed w = true
        /\ forall i env, timer_fire i env w = (Val tt, w, [])).
Proof.
  intros w Hreach. assert (Hown := reachable_timers_owned w Hreach).
  split; [exact Hown|]. split.
  - intros i j Hi Hj. destruct (Hown i Hi) as [_ Ai], (Hown j Hj) as [_ Aj].
    congruence.
  - intros Hrec. assert (Hidle := timers_owned_idle w Hown Hrec).
    split; [apply no_armed_forallb, Hidle|].
    intros i env. unfold timer_fire. step_get.
    specialize (Hidle i).
    destruct (nth_error (timers w) i) as [[]|]; try reflexivity.
    contradiction Hidle; reflexivity.
Qed.

Lemma one_timer_per_recording_witness :
  reachable world_after_session
  /\ recording world_after_session = false
  /\ timer_fire 0 env_ok world_after_session = (Val tt, world_after_session, []).
Proof.
  assert (Hreach : reachable world_after_session).
  { exists (Some indicator0), (Some logger_with_file), empty_log_fs, false,
      [ReqStart env_ok; ReqAudio [1; 2] false; ReqStop env_ok].
    reflexivity. }
  assert (Hrec : recording world_after_session = false) by evaluate.
  split; [exact Hreach|]. split; [exact Hrec|].
  exact (proj2 (proj2 (proj2 (one_timer_per_recording world_after_session Hreach))
                  Hrec) 0%nat env_ok).
Defined.

(** X13. The three ways of writing the WAV file are tried in order, each
    at most once and only if the ones before it failed: soundfile unless
    it cannot be imported, scipy if soundfile did not write the file, the
    wave module if neither did.  The attempt never raises; it reports
    success exactly when one of them wrote the file, and the file then
    exists.  When all fail, a file exists afterwards if one existed
    before or a failed attempt left one behind. *)
Theorem wav_writers_tried_in_order :
  forall (env : Env) (w : World),
    let r := save_wav env w in
    result r = Val (wav_saved env)
    /\ count is_soundfile_write (trace r)
       = (match soundfile env with SfUnavailable => 0 | SfWrite _ => 1 end)%nat
    /\ count is_scipy_write (trace r)
       = (if soundfile_ok (soundfile env) then 0 else 1)%nat
    /\ count is_wave_write (trace r)
       = (if soundfile_ok (soundfile env) || write_ok (scipy_write env)
          then 0 else 1)%nat
    /\ (wav_saved env = true -> temp_wav (state r) = true)
    /\ (wav_saved env = false ->
        temp_wav (state r)
        = temp_wav w || soundfile_leftover (soundfile env)
          || leftover_of (scipy_write env) || leftover_of (wave_write env)).
Proof.
  intros env w r; unfold r, save_wav, write_artifact, wav_saved, soundfile_ok,
    write_ok, soundfile_leftover, leftover_of, bind, try_except, emit, modify,
    raise, ret.
  destruct (soundfile env) as [|[|e1 l1]], (scipy_write env) as [|e2 l2],
    (wave_write env) as [|e3 l3]; cbn;
    repeat split; try discriminate; intros _;
    rewrite ?orb_false_r; reflexivity.
Qed.

Lemma start_opens_session env w :
  recording w = false -> opening_fails env = false ->
  let r := start_recording env w in
  recording (state r) = negb (is_some (timer_start env))
  /\ audio_frames (state r) = []
  /\ recording_start_time (state r) = Some (now env)
  /\ stream (state r) = Some Active
  /\ (session_logger (state r), log_fs (state r), temp_wav (state r))
     = (session_logger w, log_fs w, temp_wav w).
Proof.
  intros Hrec Hok r; unfold r, opening_fails in *.
  apply orb_false_iff in Hok as [Hc Hs].
  unfold start_recording.
  set (V := emit VisualStart ;; Visual.start_recording (vis_env env AtStart)).
  assert (Hv : total (with_visual V)) by (unfold V; proc_solve).
  cbv beta iota zeta delta [bind get modify try_except emit outcome ret raise
                            new_timer].
  rewrite Hrec.
  destruct (stream_create env); [discriminate|].
  destruct (stream_start env); [discriminate|].
  cbv beta iota.
  match goal with
  | |- context [with_visual V ?w3] =>
      destruct (Hv w3) as [[] Hr];
      assert (K := with_visual_keeps
                     (fun w => (recording w, audio_frames w,
                                recording_start_time w, stream w,
                                session_logger w, log_fs w, temp_wav w)) V
                     (fun _ _ => eq_refl) w3);
      destruct (with_visual V w3) as [[rv w4] tv]
  end.
  simpl in Hr, K; subst rv; injection K as K1 K2 K3 K4 K5 K6 K7.
  destruct (timer_start env); cbn; rewrite K2, K3, K4, K5, K6, K7; auto 10.
Qed.

(** A start that raises inside its [try] leaves no recording in progress
    and an empty buffer. *)
Lemma start_raises_idle env w :
  recording w = false -> start_raises env = true ->
  recording (state (start_recording env w)) = false
  /\ audio_frames (state (start_recording env w)) = [].
Proof.
  intros Hrec Hr. destruct (opening_fails env) eqn:Hopen.
  - rewrite (start_fails env w Hrec Hopen); cbn [state fst snd].
    unfold after_failed_start; destruct (stream_create env); auto.
  - unfold start_raises in Hr; rewrite Hopen in Hr; cbn [orb] in Hr.
    destruct (start_opens_session env w Hrec Hopen) as (R & A & _).
    rewrite Hr in R; auto.
Qed.

Lemma audio_requests_run chunks :
  forall w, recording w = true ->
    let w' := fst (run (audio_requests chunks) w) in
    audio_frames w' = audio_frames w ++ map fst chunks
    /\ (recording w', recording_start_time w', stream w', session_logger w',
        visual_indicator w', log_fs w', temp_wav w', timers w',
        auto_stop_timer w')
       = (recording w, recording_start_time w, stream w, session_logger w,
          visual_indicator w, log_fs w, temp_wav w, timers w,
          auto_stop_timer w).
Proof.
  induction chunks as [|[c s] chunks IH]; intros w Hrec.
  - cbn; rewrite app_nil_r; auto.
  - cbn [audio_requests map run fst snd serve].
    fold (audio_requests chunks).
    assert (E : state (audio_callback c s w)
                = set_audio_frames (audio_frames w ++ [c]) w)
      by (rewrite audio_callback_state, Hrec; reflexivity).
    rewrite E. destruct (IH (set_audio_frames (audio_frames w ++ [c]) w) Hrec)
      as [A K].
    cbv zeta in *. rewrite A, K. cbn. rewrite <- app_assoc. auto.
Qed.

Lemma transcribe_only_once env w audio :
  In (Transcribe audio) (trace (stop_recording_and_transcribe env w)) ->
  recording w = true /\ reaches_engine env w = true
  /\ audio = List.concat (audio_frames w).
Proof.
  intros Hin. destruct (recording w) eqn:Hrec.
  2:{ rewrite (stop_noop env w Hrec) in Hin; cbn in Hin.
      destruct Hin as [H|[]]; discriminate H. }
  destruct (stop_run env w Hrec)
    as (w' & tA & tC & tD & E & HA & HD & _ & _ & _ & Hshape).
  rewrite E in Hin; cbn [trace snd] in Hin.
  assert (Hno : forall t, forallb quiet t = true -> ~ In (Transcribe audio) t).
  { intros t Ht H. apply (in_count is_transcribe) in H; [|reflexivity].
    apply H, (count_quiet _ _ quiet_transcribe Ht). }
  apply in_app_or in Hin as [Hin|Hin]; [destruct (Hno tA HA Hin)|].
  apply in_app_or in Hin as [Hin|Hin]; [|destruct (Hno tD HD Hin)].
  destruct (reaches_engine env w).
  - destruct Hshape as (pre & rest & -> & Hp & B).
    apply in_app_or in Hin as [Hin|Hin]; [destruct (Hno pre Hp Hin)|].
    destruct Hin as [H|[H|Hin]]; [discriminate H| |].
    + injection H as <-; auto.
    + apply (in_count is_transcribe) in Hin; [|reflexivity].
      destruct (block_rest_counts _ _ _ _ _ _ _ B) as (B1 & _).
      contradiction.
  - destruct Hshape as (Hq & _). destruct (Hno tC Hq Hin).
Qed.

(** X14. With the calls served one after the other: a start empties the
    buffer.  After a start that opens the stream and starts its timer,
    whatever the buffer held before, a recording is in progress and the
    buffer holds the chunks delivered since, in the order of their
    arrival; the stop that follows hands their concatenation to the
    engine, once, if it gets as far as the engine.  After a start that
    raised, no recording is in progress, the chunks delivered since were
    dropped and the stop that follows is a no-op.  No stop ever hands the
    engine anything else than the chunks of the buffer. *)
Theorem engine_hears_the_session :
  forall (env0 env1 : Env) (chunks : list (list Q * bool)) (w : World),
    recording w = false ->
    let w1 := fst (run (ReqStart env0 :: audio_requests chunks) w) in
    let tr := trace (stop_recording_and_transcribe env1 w1) in
    (start_raises env0 = false ->
     recording w1 = true
     /\ audio_frames w1 = map fst chunks
     /\ recording_start_time w1 = Some (now env0)
     /\ (reaches_engine env1 w1 = true ->
         In (Transcribe (List.concat (map fst chunks))) tr
         /\ count is_transcribe tr = 1%nat))
    /\ (start_raises env0 = true ->
        recording w1 = false
        /\ audio_frames w1 = []
        /\ tr = [Log DEBUG MStopNoRecording])
    /\ (forall audio, In (Transcribe audio) tr ->
                      audio = List.concat (audio_frames w1)).
Proof.
  intros env0 env1 chunks w Hrec w1 tr.
  split; [|split].
  - intros Hok; apply orb_false_iff in Hok as [Hopen Htimer].
    destruct (start_opens_session env0 w Hrec Hopen) as (R & A & T & _).
    rewrite Htimer in R; cbn [negb] in R.
    destruct (audio_requests_run chunks (state (start_recording env0 w)) R)
      as [A1 K1].
    cbv zeta in A1, K1. injection K1 as KR KT _.
    unfold state in R, A, T, A1.
    assert (Hrec1 : recording w1 = true)
      by (unfold w1; cbn [run fst serve state]; congruence).
    assert (Hfr : audio_frames w1 = map fst chunks)
      by (unfold w1; cbn [run fst serve state]; rewrite A1, A; reflexivity).
    split; [exact Hrec1|]. split; [exact Hfr|].
    split; [unfold w1; cbn [run fst serve state]; congruence|].
    intros Hre. unfold tr.
    destruct (stop_run env1 w1 Hrec1)
      as (w' & tA & tC & tD & E & _ & _ & _ & _ & _ & Hshape).
    rewrite Hre in Hshape; destruct Hshape as (pre & rest & -> & _ & _).
    split.
    + rewrite E, Hfr; cbn [trace snd].
      apply in_or_app; right; apply in_or_app; left; apply in_or_app; right.
      right; left; reflexivity.
    + rewrite (stop_transcribe_count env1 w1 Hrec1), Hre; reflexivity.
  - intros Hr. destruct (start_raises_idle env0 w Hrec Hr) as [R A].
    assert (Hsame : w1 = state (start_recording env0 w)).
    { unfold w1; cbn [run fst serve].
      generalize dependent (state (start_recording env0 w)); intros x R A.
      clear - R. induction chunks as [|[c st] chunks IH]; [reflexivity|].
      cbn [audio_requests map run fst serve].
      rewrite audio_callback_state, R; exact IH. }
    rewrite <- Hsame in R, A. split; [exact R|]. split; [exact A|].
    unfold tr; rewrite (stop_noop env1 w1 R); reflexivity.
  - intros audio Hin. apply transcribe_only_once in Hin as (_ & _ & ->).
    reflexivity.
Qed.

Lemma engine_hears_the_session_witness :
  recording world_idle = false
  /\ start_raises env_ok = false
  /\ audio_frames
       (fst (run (ReqStart env_ok :: audio_requests [([1; 2], false); ([3], true)])
               world_idle))
     = [[1; 2]; [3]]
  /\ In (Transcribe [1; 2; 3])
        (trace (stop_recording_and_transcribe env_ok
                  (fst (run (ReqStart env_ok
                             :: audio_requests [([1; 2], false); ([3], true)])
                          world_idle)))).
Proof.
  assert (Hrec : recording world_idle = false) by evaluate.
  assert (Hopen : start_raises env_ok = false) by evaluate.
  destruct (engine_hears_the_session env_ok env_ok
              [([1; 2], false); ([3], true)] world_idle Hrec)
    as (H & _ & _).
  destruct (H Hopen) as (_ & A & _ & E).
  split; [exact Hrec|]; split; [exact Hopen|]; split; [exact A|].
  assert (Hre : reaches_engine env_ok
                  (fst (run (ReqStart env_ok
                             :: audio_requests [([1; 2], false); ([3], true)])
                          world_idle)) = true) by evaluate.
  exact (proj1 (E Hre)).
Defined.

(** ** The text a stop delivers *)

Lemma lstrip_starts s : starts_with_space (lstrip s) = false.
Proof.
  induction s as [|c s IH]; [reflexivity|]; simpl.
  destruct (is_space c) eqn:Hc; [exact IH | simpl; exact Hc].
Qed.

Lemma rstrip_ends s : ends_with_space (rstrip s) = false.
Proof.
  induction s as [|c s IH]; [reflexivity|]; simpl.
  destruct (rstrip s) as [|c' r'] eqn:Hr.
  - destruct (is_space c) eqn:Hc; [reflexivity | simpl; exact Hc].
  - exact IH.
Qed.

Lemma rstrip_starts s :
  starts_with_space s = false -> starts_with_space (rstrip s) = false.
Proof.
  destruct s as [|c s]; [reflexivity|]; simpl; intros Hc.
  destruct (rstrip s); [rewrite Hc|]; simpl; auto.
Qed.

Lemma strip_clean s :
  starts_with_space (strip s) = false /\ ends_with_space (strip s) = false.
Proof.
  unfold strip; split; [apply rstrip_starts, lstrip_starts | apply rstrip_ends].
Qed.

Lemma quiet_delivery e : quiet e = true -> is_delivery e = false.
Proof. destruct e; simpl; auto; discriminate. Qed.

Lemma pres_delivery e : presentational e = true -> is_delivery e = false.
Proof. destruct e; simpl; auto; discriminate. Qed.

Lemma absent q e t : count q t = 0%nat -> q e = true -> ~ In e t.
Proof. intros Hc Hq Hin; exact (in_count q e t Hin Hq Hc). Qed.

Lemma call_shape_delivery b ev e t :
  call_shape b ev t -> In e t -> is_delivery e = true -> e = ev.
Proof.
  unfold call_shape; destruct b.
  - intros (t' & -> & Ht') [H|H] He; [auto|].
    destruct (absent is_delivery e t'
                (count_none presentational is_delivery t' pres_delivery Ht')
                He H).
  - intros -> [].
Qed.

Lemma failure_report_delivery st lg vi a b t :
  failure_report st lg vi a b t -> count is_delivery t = 0%nat.
Proof.
  apply count_report; [exact pres_delivery | reflexivity | reflexivity].
Qed.

Lemma tail_delivery env : count is_delivery (snd (delivery_tail env)) = 0%nat.
Proof.
  unfold delivery_tail; destruct (clipboard env), (hotkey env); reflexivity.
Qed.

(** The deliveries among the events that follow the call of the engine. *)
Lemma block_rest_deliveries env audio st lg vi wav rest e :
  block_rest env audio st lg vi wav rest ->
  In e rest -> is_delivery e = true ->
  exists raw, transcribe env audio = inr raw
              /\ strip raw <> []
              /\ delivered_text e = strip raw.
Proof.
  unfold block_rest. destruct (transcribe env audio) as [err|raw].
  - intros (t & -> & F) Hin He. exfalso.
    apply in_app_or in Hin as [Hin|Hin].
    + exact (absent is_delivery e _
               (count_diagnostics is_delivery wav err pres_delivery) He Hin).
    + exact (absent is_delivery e _ (failure_report_delivery _ _ _ _ _ _ F)
               He Hin).
  - cbv zeta. destruct (strip raw) as [|c text] eqn:Hstrip; cbn [truthy_str].
    + intros (t & -> & F) Hin He. exfalso.
      destruct Hin as [<-|Hin]; [discriminate He|].
      exact (absent is_delivery e _ (failure_report_delivery _ _ _ _ _ _ F)
               He Hin).
    + intros (tl & tv & t & -> & Sl & Sv & Ht) Hin He.
      exists raw; split; [reflexivity|]; rewrite Hstrip.
      split; [discriminate|].
      destruct Hin as [<-|Hin]; [discriminate He|].
      apply in_app_or in Hin as [Hin|Hin].
      { rewrite (call_shape_delivery _ _ _ _ Sl Hin He); reflexivity. }
      apply in_app_or in Hin as [Hin|Hin].
      { rewrite (call_shape_delivery _ _ _ _ Sv Hin He); reflexivity. }
      destruct Hin as [<-|Hin]; [reflexivity|].
      exfalso. apply in_app_or in Hin as [Hin|Hin].
      { exact (absent is_delivery e _ (tail_delivery env) He Hin). }
      destruct (fst (delivery_tail env)).
      * subst t; destruct Hin.
      * destruct Ht as (t' & -> & F).
        apply in_app_or in Hin as [Hin|Hin].
        -- exact (absent is_delivery e _
                    (count_diagnostics is_delivery wav _ pres_delivery) He Hin).
        -- exact (absent is_delivery e _
                    (failure_report_delivery _ _ _ _ _ _ F) He Hin).
Qed.

(** X15. Whatever a stop hands on as the transcribed text, to the
    clipboard, to the session log or to the visual indicator, is the
    answer of the engine with the white space at both ends removed, the
    white space of Unicode that [str.strip()] removes: it is never empty
    and neither begins nor ends with such a character. *)
Theorem delivered_text_is_stripped :
  forall (env : Env) (w : World) (e : Event),
    In e (trace (stop_recording_and_transcribe env w)) ->
    is_delivery e = true ->
    (exists raw,
        transcribe env (List.concat (audio_frames w)) = inr raw
        /\ delivered_text e = strip raw)
    /\ delivered_text e <> []
    /\ starts_with_space (delivered_text e) = false
    /\ ends_with_space (delivered_text e) = false.
Proof.
  intros env w e Hin He.
  assert (Hraw : exists raw,
             transcribe env (List.concat (audio_frames w)) = inr raw
             /\ strip raw <> [] /\ delivered_text e = strip raw).
  { destruct (recording w) eqn:Hrec.
    2:{ rewrite (stop_noop env w Hrec) in Hin; cbn in Hin.
        destruct Hin as [<-|[]]; discriminate He. }
    destruct (stop_run env w Hrec)
      as (w' & tA & tC & tD & E & HA & HD & _ & _ & _ & Hshape).
    rewrite E in Hin; cbn [trace snd] in Hin.
    assert (Hno : forall t, forallb quiet t = true -> ~ In e t)
      by (intros t Ht; exact (absent is_delivery e t
                                (count_quiet _ _ quiet_delivery Ht) He)).
    apply in_app_or in Hin as [Hin|Hin]; [destruct (Hno tA HA Hin)|].
    apply in_app_or in Hin as [Hin|Hin]; [|destruct (Hno tD HD Hin)].
    destruct (reaches_engine env w).
    - destruct Hshape as (pre & rest & -> & Hp & B).
      apply in_app_or in Hin as [Hin|Hin]; [destruct (Hno pre Hp Hin)|].
      destruct Hin as [<-|[<-|Hin]]; [discriminate He|discriminate He|].
      exact (block_rest_deliveries _ _ _ _ _ _ _ _ B Hin He).
    - destruct Hshape as (Hq & _). destruct (Hno tC Hq Hin). }
  destruct Hraw as (raw & Ht & Hne & Htext).
  split; [exists raw; auto|]. rewrite Htext.
  split; [exact Hne|]. apply strip_clean.
Qed.

Lemma delivered_text_is_stripped_witness :
  In (ClipboardCopy (text_of "hello world"))
     (trace (stop_recording_and_transcribe env_unicode world_capturing))
  /\ is_delivery (ClipboardCopy (text_of "hello world")) = true
  /\ transcribe env_unicode (List.concat (audio_frames world_capturing))
     = inr ([160; 8195]%N ++ text_of "hello world" ++ [133; 10; 12288]%N)
  /\ strip ([160; 8195]%N ++ text_of "hello world" ++ [133; 10; 12288]%N)
     = text_of "hello world"
  /\ ends_with_space (delivered_text (ClipboardCopy (text_of "hello world")))
     = false.
Proof.
  assert (Hin : In (ClipboardCopy (text_of "hello world"))
                   (trace (stop_recording_and_transcribe env_unicode
                             world_capturing))).
  { vm_compute; repeat (first [left; reflexivity | right]). }
  split; [exact Hin|]. split; [reflexivity|]. split; [reflexivity|].
  split; [reflexivity|].
  exact (proj2 (proj2 (proj2 (delivered_text_is_stripped env_unicode
                                world_capturing
                                (ClipboardCopy (text_of "hello world"))
                                Hin eq_refl)))).
Defined.

(** ** The hot-key listener *)

Lemma core_run {S A} (m : Proc S Event A) s :
  core m s = (result (m s), state (m s), map Core (trace (m s))).
Proof. unfold core; destruct (m s) as [[r s1] t]; reflexivity. Qed.

Lemma core_events_core t : core_events (map Core t) = t.
Proof. induction t as [|e t IH]; simpl; congruence. Qed.

Lemma core_events_app a b :
  core_events (a ++ b) = core_events a ++ core_events b.
Proof. unfold core_events; apply flat_map_app. Qed.

Lemma run_app rs1 rs2 w :
  run (rs1 ++ rs2) w
  = (fst (run rs2 (fst (run rs1 w))),
     snd (run rs1 w) ++ snd (run rs2 (fst (run rs1 w)))).
Proof.
  revert w; induction rs1 as [|r rs1 IH]; intros w.
  - cbn; destruct (run rs2 w); reflexivity.
  - cbn [app run fst snd]; rewrite IH; cbn [fst snd].
    rewrite app_assoc; reflexivity.
Qed.

Lemma reachable_run rs w : reachable w -> reachable (fst (run rs w)).
Proof.
  intros (v & lg & fs & wav & rs0 & ->).
  exists v, lg, fs, wav, (rs0 ++ rs); rewrite run_app; reflexivity.
Qed.

Lemma start_thread_run t o m w :
  start_thread t o m w
  = match o with
    | Some e => (Raise e, w, [Spawn t])
    | None => (Val tt, state (m w), Spawn t :: map Core (trace (m w)))
    end.
Proof.
  unfold start_thread, bind, emit, outcome, try_except, ret, raise.
  destruct o as [e|]; [reflexivity|]. cbn [app].
  rewrite core_run. destruct (m w) as [[[[]|e] w1] t1]; cbn;
    rewrite ?app_nil_r; reflexivity.
Qed.

Lemma handle_press_run p w :
  handle_press p w
  = match wait_toggle p, spawn p with
    | Some e, _ => (Raise e, w, [WaitToggle])
    | None, Some e =>
        (Raise e, w,
         [WaitToggle;
          Spawn (if recording w then TStopRecording else TStartRecording)])
    | None, None =>
        (Val tt, state (serve (request_of p w) w),
         WaitToggle
         :: Spawn (if recording w then TStopRecording else TStartRecording)
         :: map Core (trace (serve (request_of p w) w)))
    end.
Proof.
  unfold handle_press, request_of, bind at 1, emit.
  destruct (wait_toggle p) as [e|]; [reflexivity|].
  unfold bind at 1, outcome, ret. unfold bind at 1, get.
  destruct (recording w); cbn [negb serve]; rewrite start_thread_run;
    destruct (spawn p); reflexivity.
Qed.

Lemma listen_run keys :
  forall w,
    result (listen keys w) = Val (listener_end keys)
    /\ state (listen keys w) = fst (run (served keys w) w)
    /\ core_events (trace (listen keys w)) = snd (run (served keys w) w).
Proof.
  induction keys as [|[p|] keys IH]; intros w; [cbn; auto | | cbn; auto].
  cbn [listen served listener_end].
  set (h := fun e : Exn =>
              emit (S:=World) (AppLog ERROR (MHotkeyListenerError e)) ;; ret false).
  assert (E := handle_press_run p w).
  unfold press_works.
  destruct (wait_toggle p) as [e1|]; [|destruct (spawn p) as [e2|]];
    cbn [is_some negb andb].
  - assert (HA : try_except (handle_press p ;; ret true) h w
                 = (Val false, w,
                    [WaitToggle] ++ [AppLog ERROR (MHotkeyListenerError e1)])).
    { rewrite (try_except_raise _ (bind_raise _ E)). reflexivity. }
    rewrite (bind_val _ HA). cbn. auto.
  - assert (HA : try_except (handle_press p ;; ret true) h w
                 = (Val false, w,
                    [WaitToggle;
                     Spawn (if recording w then TStopRecording
                            else TStartRecording)]
                    ++ [AppLog ERROR (MHotkeyListenerError e2)])).
    { rewrite (try_except_raise _ (bind_raise _ E)). reflexivity. }
    rewrite (bind_val _ HA). cbn. auto.
  - assert (HA : try_except (handle_press p ;; ret true) h w
                 = (Val true, state (serve (request_of p w) w),
                    (WaitToggle
                     :: Spawn (if recording w then TStopRecording
                               else TStartRecording)
                     :: map Core (trace (serve (request_of p w) w))) ++ [])).
    { rewrite (try_except_val _ (a:=true)
                 (s1:=state (serve (request_of p w) w))
                 (t1:=(WaitToggle
                       :: Spawn (if recording w then TStopRecording
                                 else TStartRecording)
                       :: map Core (trace (serve (request_of p w) w))) ++ []));
        [reflexivity|].
      rewrite (bind_val _ E). reflexivity. }
    rewrite (bind_val _ HA). cbv beta iota.
    destruct (IH (state (serve (request_of p w) w))) as (I1 & I2 & I3).
    destruct (listen keys (state (serve (request_of p w) w))) as [[r1 w1] t1].
    rewrite prepend_run.
    cbn [result state trace fst snd run] in *.
    split; [exact I1|]. split; [exact I2|].
    rewrite app_nil_r. cbn [app core_events flat_map].
    fold (core_events (map Core (trace (serve (request_of p w) w)) ++ t1)).
    rewrite core_events_app, core_events_core, I3. reflexivity.
Qed.

Lemma hotkey_listener_run keys w :
  hotkey_listener keys w
  = prepend [AppLog INFO MHotkeyHelp; AppLog INFO MReady] (listen keys w).
Proof.
  unfold hotkey_listener, bind, emit.
  destruct (listen keys w) as [[r w1] t]; reflexivity.
Qed.

Lemma press_flag p w :
  recording (state (serve (request_of p w) w))
  = negb (recording w) && negb (start_raises (press_env p)).
Proof.
  unfold request_of. destruct (recording w) eqn:Hrec; cbn [serve negb andb].
  - apply stop_clears_recording.
  - destruct (start_raises (press_env p)) eqn:Hr; cbn [negb].
    + exact (proj1 (start_raises_idle _ w Hrec Hr)).
    + destruct (start_succeeds _ w Hrec Hr) as (_ & R & _); exact R.
Qed.

(** X16. With every thread it dispatches running to its end before the
    next key: the hot-key listener handles the presses in order, a press
    with no recording in progress running [start_recording], a press
    during a recording running [stop_recording_and_transcribe], so the
    events and the state it leaves are those of the requests it served,
    and the states it leads to from a reachable state are reachable.  No
    exception but a [KeyboardInterrupt] leaves it: it ends its loop at the
    first press for which [keyboard.wait] or the start of the thread
    raises, and serves nothing after that, while a [KeyboardInterrupt]
    received during a wait goes on to its caller.  A press flips the
    recording flag, except that the flag stays clear when the start raises
    inside its [try], the stream failing to open or the timer to start. *)
Theorem hotkey_listener_serves_requests :
  forall (keys : list Key) (w : World),
    let r := hotkey_listener keys w in
    result r = Val (listener_end keys)
    /\ state r = fst (run (served keys w) w)
    /\ core_events (trace r) = snd (run (served keys w) w)
    /\ (reachable w -> reachable (state r))
    /\ (forall p, press_works p = true ->
          recording (state (hotkey_listener [Toggle p] w))
          = negb (recording w) && negb (start_raises (press_env p))).
Proof.
  intros keys w r; unfold r; clear r.
  assert (H : forall ks,
             result (hotkey_listener ks w) = Val (listener_end ks)
             /\ state (hotkey_listener ks w) = fst (run (served ks w) w)
             /\ core_events (trace (hotkey_listener ks w))
                = snd (run (served ks w) w)).
  { intros ks. rewrite hotkey_listener_run.
    destruct (listen_run ks w) as (I1 & I2 & I3).
    destruct (listen ks w) as [[r1 w1] t1]; rewrite prepend_run.
    cbn [result state trace fst snd] in *. auto. }
  destruct (H keys) as (H1 & H2 & H3).
  split; [exact H1|]. split; [exact H2|]. split; [exact H3|]. split.
  - intros Hreach; rewrite H2; apply reachable_run, Hreach.
  - intros p Hp. destruct (H [Toggle p]) as (_ & -> & _).
    cbn [served]; rewrite Hp; cbn [run fst]. apply press_flag.
Qed.

(** ** The exit listener *)

Lemma release_on_exit_run env w :
  release_on_exit env w
  = if recording w && is_some (stream w)
    then match exit_stream_stop env, exit_stream_close env with
         | Some e, _ => (Raise e, w, [StreamStop])
         | None, Some e =>
             (Raise e, set_stream (Some Stopped) w, [StreamStop; StreamClose])
         | None, None =>
             (Val tt, set_stream (Some Stopped) w, [StreamStop; StreamClose])
         end
    else (Val tt, w, []).
Proof.
  unfold release_on_exit, bind, get, when, emit, outcome, modify, ret, raise.
  destruct (recording w && is_some (stream w)); [|reflexivity].
  destruct (exit_stream_stop env), (exit_stream_close env); reflexivity.
Qed.

Lemma remove_on_exit_run env w :
  remove_on_exit env w
  = if temp_wav w
    then match exit_remove env with
         | Some e => (Raise e, w, [RemoveTemp])
         | None => (Val tt, set_temp_wav false w, [RemoveTemp])
         end
    else (Val tt, w, []).
Proof.
  unfold remove_on_exit, bind, get, when, emit, outcome, modify, ret, raise.
  destruct (temp_wav w); [|reflexivity].
  destruct (exit_remove env); reflexivity.
Qed.

Lemma close_session_only env : only presentational (SessionLog.close_session env).
Proof.
  unfold SessionLog.close_session, SessionLog.session_duration; proc_auto.
Qed.

Lemma close_session_log_run env w :
  close_session_log env w
  = match session_logger w with
    | Some lg =>
        let x := SessionLog.close_session (exit_log_env env) (lg, log_fs w) in
        (Val tt, set_logger (state x) w, trace x)
    | None => (Val tt, w, [])
    end.
Proof.
  unfold close_session_log, bind, get, zoom, ret.
  destruct (session_logger w) as [lg|]; [|reflexivity].
  destruct (close_session_total (exit_log_env env) (lg, log_fs w)) as [b Hb].
  destruct (SessionLog.close_session (exit_log_env env) (lg, log_fs w))
    as [[r s] t]; cbn in *; subst r. rewrite app_nil_r; reflexivity.
Qed.

Lemma visual_cleanup_run env v :
  exists t,
    Visual.cleanup env v = (Val tt, Visual.set_running false v, t)
    /\ forallb quiet t = true.
Proof.
  unfold Visual.cleanup, bind, get, when, try_except, emit, modify, ret, raise.
  cbn [Visual.has_pystray Visual.tray_icon Visual.set_running].
  destruct (Visual.has_pystray v), (Visual.tray_icon v),
    (Visual.tray_exn env) as [[j e]|]; cbn; eexists; split; reflexivity.
Qed.

Lemma cleanup_indicator_run env w :
  exists t,
    cleanup_indicator env w
    = (Val tt,
       match visual_indicator w with
       | Some v => set_visual_indicator (Some (Visual.set_running false v)) w
       | None => w
       end, t)
    /\ forallb quiet t = true.
Proof.
  unfold cleanup_indicator, bind, get, zoom, ret.
  destruct (visual_indicator w) as [v|]; [|exists []; auto].
  destruct (visual_cleanup_run (exit_vis_env env) v) as (t & -> & Ht).
  exists t; auto.
Qed.

Lemma closing_run env w :
  exists w' t,
    (close_session_log env ;; cleanup_indicator env) w = (Val tt, w', t)
    /\ forallb quiet t = true
    /\ (audio_frames w', temp_wav w') = (audio_frames w, temp_wav w)
    /\ visual_indicator w'
       = option_map (Visual.set_running false) (visual_indicator w)
    /\ (session_logger w', log_fs w')
       = match session_logger w with
         | Some lg =>
             let x := SessionLog.close_session (exit_log_env env)
                        (lg, log_fs w) in
             (Some (fst (state x)), snd (state x))
         | None => (None, log_fs w)
         end.
Proof.
  unfold bind. rewrite close_session_log_run.
  destruct (session_logger w) as [lg|] eqn:Hl.
  - cbv zeta.
    assert (Hq := close_session_only (exit_log_env env) (lg, log_fs w)).
    destruct (SessionLog.close_session (exit_log_env env) (lg, log_fs w))
      as [[rc sc] tc]; cbn [state trace fst snd] in *.
    destruct (cleanup_indicator_run env (set_logger sc w)) as (tv & -> & Hv).
    cbn [visual_indicator set_logger].
    eexists _, _; split; [reflexivity|]. split.
    { rewrite forallb_app, Hv, andb_true_r.
      apply (forallb_weaken presentational quiet _ presentational_quiet Hq). }
    destruct (visual_indicator w) eqn:Hvi; cbn; rewrite ?Hvi; auto.
  - destruct (cleanup_indicator_run env w) as (tv & -> & Hv).
    eexists _, _; split; [reflexivity|]. split; [exact Hv|].
    destruct (visual_indicator w) eqn:Hvi; cbn; rewrite ?Hl, ?Hvi; auto.
Qed.

(** From the exit signal to the end of the [try]. *)
Lemma shut_down_run env w :
  exists r w' t,
    shut_down env w = (r, w', t)
    /\ forallb quiet t = true
    /\ audio_frames w' = audio_frames w
    /\ (release_fails_on_exit env w || remove_fails_on_exit env w = true ->
        (exists e, r = Raise e)
        /\ session_logger w' = session_logger w
        /\ log_fs w' = log_fs w
        /\ visual_indicator w' = visual_indicator w)
    /\ (release_fails_on_exit env w || remove_fails_on_exit env w = false ->
        r = Val tt
        /\ temp_wav w' = false
        /\ visual_indicator w'
           = option_map (Visual.set_running false) (visual_indicator w)
        /\ (session_logger w', log_fs w')
           = match session_logger w with
             | Some lg =>
                 let x := SessionLog.close_session (exit_log_env env)
                            (lg, log_fs w) in
                 (Some (fst (state x)), snd (state x))
             | None => (None, log_fs w)
             end).
Proof.
  unfold shut_down, release_fails_on_exit, remove_fails_on_exit.
  assert (Hrest : forall w1,
    (audio_frames w1, temp_wav w1, session_logger w1, log_fs w1,
     visual_indicator w1)
    = (audio_frames w, temp_wav w, session_logger w, log_fs w,
       visual_indicator w) ->
    exists r w' t,
      (remove_on_exit env ;; close_session_log env ;; cleanup_indicator env) w1
      = (r, w', t)
      /\ forallb quiet t = true
      /\ audio_frames w' = audio_frames w
      /\ (temp_wav w && is_some (exit_remove env) = true ->
          (exists e, r = Raise e)
          /\ session_logger w' = session_logger w
          /\ log_fs w' = log_fs w
          /\ visual_indicator w' = visual_indicator w)
      /\ (temp_wav w && is_some (exit_remove env) = false ->
          r = Val tt
          /\ temp_wav w' = false
          /\ visual_indicator w'
             = option_map (Visual.set_running false) (visual_indicator w)
          /\ (session_logger w', log_fs w')
             = match session_logger w with
               | Some lg =>
                   let x := SessionLog.close_session (exit_log_env env)
                              (lg, log_fs w) in
                   (Some (fst (state x)), snd (state x))
               | None => (None, log_fs w)
               end)).
  { intros w1 Hw1; injection Hw1 as A1 T1 L1 F1 V1.
    unfold bind at 1. rewrite remove_on_exit_run, T1.
    destruct (temp_wav w) eqn:Htemp; [destruct (exit_remove env) as [e|]|];
      cbn [is_some andb].
    - exists (Raise e), w1, [RemoveTemp]; repeat split; eauto; discriminate.
    - destruct (closing_run env (set_temp_wav false w1))
        as (w' & t & -> & Hq & K & V & L).
      cbn [audio_frames temp_wav set_temp_wav visual_indicator session_logger
           log_fs] in K, V, L.
      injection K as KA KT. rewrite V1 in V; rewrite L1, F1 in L.
      eexists _, _, _; split; [reflexivity|].
      split; [exact Hq|]. split; [congruence|].
      split; [discriminate|]. auto.
    - destruct (closing_run env w1) as (w' & t & -> & Hq & K & V & L).
      injection K as KA KT. rewrite V1 in V; rewrite L1, F1 in L.
      eexists _, _, _; split; [reflexivity|].
      split; [exact Hq|]. split; [congruence|].
      split; [discriminate|]. intros _.
      split; [reflexivity|]. split; [congruence|]. auto. }
  unfold bind at 1. rewrite release_on_exit_run.
  destruct (recording w && is_some (stream w)); cbn [andb].
  - destruct (exit_stream_stop env) as [e|];
      [|destruct (exit_stream_close env) as [e|]]; cbn [is_some orb].
    + exists (Raise e), w, [StreamStop]; repeat split; eauto; discriminate.
    + exists (Raise e), (set_stream (Some Stopped) w), [StreamStop; StreamClose].
      repeat split; eauto; discriminate.
    + destruct (Hrest (set_stream (Some Stopped) w) eq_refl)
        as (r & w' & t & -> & Hq & A & Hf & Hs).
      exists r, w', ([StreamStop; StreamClose] ++ t).
      split; [reflexivity|]. auto.
  - destruct (Hrest w eq_refl) as (r & w' & t & -> & Hq & A & Hf & Hs).
    exists r, w', t. auto.
Qed.

Lemma close_session_footer env lg fs t0 :
  is_some (SessionLog.session_file_path lg) = true ->
  SessionLog.session_start_time lg = Some t0 ->
  io_fails env 7 = false ->
  SessionLog.close_session env (lg, fs)
  = (Val true,
     (lg, SessionLog.mkLogFS (SessionLog.folder_exists fs)
            (Some (SessionLog.file_contents fs
                   ++ footer_chunks (SessionLog.log_now env)
                        (SessionLog.log_now env - t0)
                        (SessionLog.recording_count lg)))),
     [Log INFO (MSessionClosed (SessionLog.recording_count lg))]).
Proof.
  intros Hp Hs Hio.
  destruct lg as [folder md [path|] st n]; [|discriminate].
  cbn in Hs; subst st.
  cbv beta iota zeta delta
    [SessionLog.close_session SessionLog.session_duration bind get try_except
     emit ret raise fst snd negb is_some SessionLog.session_file_path
     SessionLog.recording_count SessionLog.session_start_time].
  match goal with
  | |- context [SessionLog.with_open ?e ?m ?ws ?x] =>
      rewrite (with_open_ok e m ws x Hio)
  end.
  reflexivity.
Qed.

(** X17. The exit listener never raises and always ends the process: with
    status 1 when waiting for the exit key raises, when a recording is in
    progress and stopping or closing its stream raises, or when the
    temporary file exists and cannot be removed; with status 0 otherwise.
    It never calls the engine, the clipboard or the paste key and hands no
    result to the session log or the visual indicator, so a recording in
    progress is dropped with its buffer.  When it ends with status 0 the
    temporary file is gone, the monitor of the visual indicator is told to
    stop, and a logger that has its session file and can write to it has
    appended the footer with the number of recordings.  When it ends with
    status 1 neither the session log nor the visual indicator was
    touched: the footer is missing. *)
Theorem exit_listener_ends_the_process :
  forall (env : ExitEnv) (w : World),
    let r := exit_listener env w in
    let status := if exit_fails env w then 1%nat else 0%nat in
    result r = Val status
    /\ (exists t, trace r = t ++ [ProcessExit status])
    /\ forallb quiet (core_events (trace r)) = true
    /\ audio_frames (state r) = audio_frames w
    /\ (exit_fails env w = true ->
        session_logger (state r) = session_logger w
        /\ log_fs (state r) = log_fs w
        /\ visual_indicator (state r) = visual_indicator w)
    /\ (exit_fails env w = false ->
        temp_wav (state r) = false
        /\ (forall v, visual_indicator (state r) = Some v ->
                      Visual.running v = false)
        /\ (forall lg t0,
               session_logger w = Some lg ->
               is_some (SessionLog.session_file_path lg) = true ->
               SessionLog.session_start_time lg = Some t0 ->
               io_fails (exit_log_env env) 7 = false ->
               SessionLog.file_contents (log_fs (state r))
               = SessionLog.file_contents (log_fs w)
                 ++ footer_chunks (SessionLog.log_now (exit_log_env env))
                      (SessionLog.log_now (exit_log_env env) - t0)
                      (SessionLog.recording_count lg))).
Proof.
  intros env w r status; unfold r, status, exit_fails; clear r status.
  unfold exit_listener.
  destruct (wait_exit env) as [e|] eqn:Hwait; cbn [is_some orb].
  - unfold try_except, bind, emit, outcome, raise, ret; cbn.
    split; [reflexivity|].
    split; [exists [WaitExit; AppLog ERROR (MExitListenerError e)]; reflexivity|].
    repeat split; auto; discriminate.
  - destruct (shut_down_run env w) as (rs & w' & t & E & Hq & A & Hf & Hs).
    assert (Ec : core (shut_down env) w = (rs, w', map Core t))
      by (rewrite core_run, E; reflexivity).
    unfold try_except, bind, emit, outcome, raise, ret. rewrite Ec.
    destruct (release_fails_on_exit env w || remove_fails_on_exit env w).
    + destruct (Hf eq_refl) as ([e ->] & L & F & V).
      cbn [result state trace fst snd app].
      split; [reflexivity|].
      split.
      { exists (WaitExit :: AppLog INFO MExitSignal
                :: map Core t ++ [AppLog ERROR (MExitListenerError e)]).
        cbn. rewrite <- app_assoc. reflexivity. }
      split.
      { cbn.
        fold (core_events (map Core t
                           ++ [AppLog ERROR (MExitListenerError e);
                               ProcessExit 1])).
        rewrite core_events_app, core_events_core; cbn.
        rewrite app_nil_r; exact Hq. }
      split; [exact A|]. split; [auto|discriminate].
    + destruct (Hs eq_refl) as (-> & T & V & L).
      cbn [result state trace fst snd app].
      split; [reflexivity|].
      split.
      { exists (WaitExit :: AppLog INFO MExitSignal :: map Core t).
        cbn. rewrite ?app_nil_r. reflexivity. }
      split.
      { cbn. rewrite ?app_nil_r.
        fold (core_events (map Core t ++ [ProcessExit 0])).
        rewrite core_events_app, core_events_core; cbn.
        rewrite app_nil_r; exact Hq. }
      split; [exact A|]. split; [discriminate|]. intros _.
      split; [exact T|]. split.
      * intros v Hv. rewrite V in Hv.
        destruct (visual_indicator w) as [v0|]; [|discriminate].
        injection Hv as <-; reflexivity.
      * intros lg t0 Hl Hp Hst Hio. rewrite Hl in L.
        rewrite (close_session_footer _ lg (log_fs w) t0 Hp Hst Hio) in L.
        cbn in L. injection L as _ ->. reflexivity.
Qed.

(** ** [main] *)

Section LoggerOfTheProgram.

Lemma with_logger_file (m : SessionLog.LProc bool) :
  (forall lg fs,
      SessionLog.session_file_path (fst (state (m (lg, fs))))
      = SessionLog.session_file_path lg) ->
  keeps logger_file (with_logger m).
Proof.
  intros H w. unfold with_logger, bind, get, when, zoom, ret.
  destruct (session_logger w) as [lg|] eqn:Hl; cbn; [|reflexivity].
  specialize (H lg (log_fs w)).
  destruct (m (lg, log_fs w)) as [[[b|e] s] t]; cbn in *;
    unfold logger_file; cbn; rewrite Hl, H; reflexivity.
Qed.

Lemma logger_call_file env c lg fs :
  SessionLog.session_file_path (fst (state (SessionLog.call env c (lg, fs))))
  = SessionLog.session_file_path lg.
Proof.
  destruct (SessionLog.session_file_path lg) as [p|] eqn:Hp.
  - assert (Hs : is_some (SessionLog.session_file_path lg) = true)
      by (rewrite Hp; reflexivity).
    destruct (logger_call_run env c lg fs Hs) as (b & fs' & t & added & -> & _).
    cbn [state fst snd].
    destruct (numbers_recording c); cbn; exact Hp.
  - destruct (call_inert env c lg fs Hp) as [t ->]; exact Hp.
Qed.

Lemma emit_then_file ev (m : SessionLog.LProc bool) :
  (forall lg fs,
      SessionLog.session_file_path (fst (state (m (lg, fs))))
      = SessionLog.session_file_path lg) ->
  forall lg fs,
    SessionLog.session_file_path (fst (state ((emit ev ;; m) (lg, fs))))
    = SessionLog.session_file_path lg.
Proof.
  intros H lg fs; unfold bind, emit; specialize (H lg fs).
  destruct (m (lg, fs)) as [[r s] t]; exact H.
Qed.

Lemma deliver_file env text : keeps logger_file (deliver env text).
Proof.
  unfold deliver. apply keeps_bind; [proc_solve|intros _].
  apply keeps_bind; [proc_solve|intros w].
  apply keeps_bind.
  { apply with_logger_file, emit_then_file.
    intros lg fs.
    exact (logger_call_file (log_env env AtResult)
             (SessionLog.LogTranscription text _ _) lg fs). }
  intros _. proc_solve.
Qed.

Lemma report_error_file env site a b : keeps logger_file (report_error env site a b).
Proof.
  unfold report_error. apply keeps_bind; [proc_solve|intros w].
  apply keeps_bind.
  { apply with_logger_file, emit_then_file.
    intros lg fs.
    exact (logger_call_file (log_env env site) (SessionLog.LogError a _) lg fs). }
  intros _. proc_solve.
Qed.

#[local] Hint Resolve deliver_file report_error_file : procs.

Lemma transcribe_block_file env audio :
  keeps logger_file (transcribe_block env audio).
Proof.
  unfold transcribe_block, transcribe_and_deliver, transcription_failed.
  proc_auto.
Qed.

#[local] Hint Resolve transcribe_block_file : procs.

Lemma guarded_process_file env : keeps logger_file (guarded_process env).
Proof.
  unfold guarded_process, processing_error, process, release_stream,
    serialize_and_transcribe, save_wav, write_artifact, verify_and_transcribe.
  proc_auto.
Qed.

#[local] Hint Resolve guarded_process_file : procs.

Lemma stop_file env : keeps logger_file (stop_recording_and_transcribe env).
Proof.
  unfold stop_recording_and_transcribe, announce_stop, with_visual,
    cancel_timer, cleanup.
  proc_auto.
Qed.

#[local] Hint Resolve stop_file : procs.

Lemma serve_file r : keeps logger_file (serve r).
Proof.
  destruct r; cbn [serve]; [proc_solve | auto with procs | proc_solve | ].
  unfold timer_fire. proc_auto.
Qed.

Lemma run_file rs w : logger_file (fst (run rs w)) = logger_file w.
Proof.
  revert w; induction rs as [|r rs IH]; intros w; [reflexivity|].
  cbn [run fst]; rewrite IH; apply serve_file.
Qed.

End LoggerOfTheProgram.

Lemma load_whisper_model_run o p :
  load_whisper_model o p
  = match o with
    | Some e =>
        (Val false, p,
         [AppLog INFO MLoadingModel; LoadModel;
          AppLog ERROR (MModelLoadFailed e)])
    | None =>
        (Val true, set_model true p,
         [AppLog INFO MLoadingModel; LoadModel; AppLog INFO MModelLoaded])
    end.
Proof. destruct o; reflexivity. Qed.

Lemma on_globals_run {A} (m : Proc World AppEvent A) p :
  on_globals m p
  = (result (m (globals p)), set_globals (state (m (globals p))) p,
     trace (m (globals p))).
Proof.
  unfold on_globals, zoom; destruct (m (globals p)) as [[r w] t]; reflexivity.
Qed.

Lemma init_session_logging_run env w :
  result (init_session_logging env w) = Val tt
  /\ logger_file (state (init_session_logging env w))
     = if creation_fails (logger_env env) (log_fs w) then None
       else Some (Some (LOG_FOLDER_PATH, SessionLog.log_now (logger_env env))).
Proof.
  unfold init_session_logging, when, ENABLE_SESSION_LOGGING.
  unfold try_except, bind, get, tell, modify, emit, raise, ret,
    SessionLog.get_session_info; cbv beta iota.
  assert (Hinit := init_run (logger_env env) LOG_FOLDER_PATH
                     LOG_INCLUDE_METADATA (log_fs w)).
  destruct (creation_fails (logger_env env) (log_fs w)).
  - destruct Hinit as (lg' & fs' & t & E & Hp). rewrite E.
    cbn [fst snd SessionLog.info_session_file]. rewrite Hp. cbn. auto.
  - destruct Hinit as (t & E). rewrite E. cbn. auto.
Qed.

Lemma init_visual_indicators_run env w :
  result (init_visual_indicators env w) = Val tt
  /\ logger_file (state (init_visual_indicators env w)) = logger_file w.
Proof.
  unfold init_visual_indicators, when, ENABLE_VISUAL_INDICATORS, try_except.
  destruct (Visual.init (setup_env env) MAX_DURATION_SEC) as [[v|e] t];
    unfold bind, tell, modify, emit, raise, ret; cbn; auto.
Qed.

Lemma after_setup_file env w :
  logger_file (after_setup env w)
  = if creation_fails (logger_env env) (log_fs w) then None
    else Some (Some (LOG_FOLDER_PATH, SessionLog.log_now (logger_env env))).
Proof.
  unfold after_setup.
  rewrite (proj2 (init_visual_indicators_run env _)).
  apply init_session_logging_run.
Qed.

Lemma hotkey_listener_facts keys w :
  result (hotkey_listener keys w) = Val (listener_end keys)
  /\ state (hotkey_listener keys w) = fst (run (served keys w) w)
  /\ core_events (trace (hotkey_listener keys w)) = snd (run (served keys w) w).
Proof.
  rewrite hotkey_listener_run.
  destruct (listen_run keys w) as (I1 & I2 & I3).
  destruct (listen keys w) as [[r1 w1] t1]; rewrite prepend_run.
  cbn [result state trace fst snd] in *. auto.
Qed.

Lemma exit_listener_facts env w :
  result (exit_listener env w) = Val (if exit_fails env w then 1 else 0)%nat
  /\ logger_file (state (exit_listener env w)) = logger_file w.
Proof.
  unfold exit_listener, exit_fails.
  destruct (wait_exit env) as [e|] eqn:Hwait; cbn [is_some orb].
  - unfold try_except, bind, emit, outcome, raise, ret; cbn. auto.
  - destruct (shut_down_run env w) as (rs & w' & t & E & _ & _ & Hf & Hs).
    assert (Ec : core (shut_down env) w = (rs, w', map Core t))
      by (rewrite core_run, E; reflexivity).
    unfold try_except, bind, emit, outcome, raise, ret. rewrite Ec.
    destruct (release_fails_on_exit env w || remove_fails_on_exit env w).
    + destruct (Hf eq_refl) as ([e ->] & L & _).
      cbn [result state fst snd]. unfold logger_file; rewrite L; auto.
    + destruct (Hs eq_refl) as (-> & _ & _ & L).
      cbn [result state fst snd]. split; [reflexivity|].
      unfold logger_file.
      destruct (session_logger w) as [lg|]; cbv zeta in L;
        injection L as L _; rewrite L; [|reflexivity].
      cbn. f_equal.
      exact (logger_call_file (exit_log_env env) SessionLog.CloseSession
               lg (log_fs w)).
Qed.

Lemma result_prepend {S E A} (t : list E) (x : Res A * S * list E) :
  result (prepend t x) = result x.
Proof. reflexivity. Qed.

Lemma state_prepend {S E A} (t : list E) (x : Res A * S * list E) :
  state (prepend t x) = state x.
Proof. reflexivity. Qed.

Lemma on_globals_val {A} (m : Proc World AppEvent A) p a w t :
  m (globals p) = (Val a, w, t) ->
  on_globals m p = (Val a, set_globals w p, t).
Proof. intros E; rewrite on_globals_run, E; reflexivity. Qed.

Lemma main_run env keys esc p :
  let r := main env keys esc p in
  match load_model env with
  | Some _ => result r = Val (Returned (Some 1%nat)) /\ state r = p
  | None =>
      model (state r) = true
      /\ logger_file (globals (state r))
         = logger_file (after_setup env (globals p))
      /\ match exit_thread env with
         | Some _ =>
             result r = Val (Returned (Some 1%nat))
             /\ globals (state r) = after_setup env (globals p)
         | None => result r = Val (ending_on env keys esc (globals p))
         end
  end.
Proof.
  cbv zeta. unfold main. do 3 step_emit.
  rewrite !result_prepend, !state_prepend.
  destruct (load_model env) as [e|].
  { rewrite (bind_val _ (load_whisper_model_run (Some e) p)). cbn. auto. }
  rewrite (bind_val _ (load_whisper_model_run None p)).
  rewrite !result_prepend, !state_prepend. cbv beta iota; cbn [negb].
  (* the session log *)
  destruct (init_session_logging_run env (globals p)) as [R1 _].
  destruct (init_session_logging env (globals p)) as [[r1 w1] t1] eqn:E1.
  cbn [result fst] in R1; subst r1.
  rewrite (bind_val _ (on_globals_val _ (set_model true p) _ _ _ E1)).
  rewrite !result_prepend, !state_prepend.
  (* the visual indicator *)
  destruct (init_visual_indicators_run env w1) as [R2 _].
  assert (Hw2 : state (init_visual_indicators env w1)
                = after_setup env (globals p))
    by (unfold after_setup; rewrite E1; reflexivity).
  destruct (init_visual_indicators env w1) as [[r2 w2] t2] eqn:E2.
  cbn [result state fst snd] in R2, Hw2; subst r2.
  set (p1 := set_globals w1 (set_model true p)).
  assert (E2' : init_visual_indicators env (globals p1) = (Val tt, w2, t2))
    by exact E2.
  rewrite (bind_val _ (on_globals_val _ p1 _ _ _ E2')).
  rewrite !result_prepend, !state_prepend.
  set (p2 := set_globals w2 p1).
  (* the exit thread *)
  destruct (exit_thread env) as [e|].
  { match goal with
    | |- context [try_except ?m ?h p2] =>
        assert (Et : try_except m h p2
                     = (Val (Returned (Some 1%nat)), p2,
                        [Spawn TExitListener]
                        ++ [AppLog ERROR (MUnexpectedError e)]));
        [|rewrite Et]
    end.
    { unfold try_except, bind, emit, outcome, raise, ret; reflexivity. }
    cbn [result state fst snd p2 p1 globals set_globals model set_model].
    subst w2; auto. }
  (* the listener *)
  destruct (hotkey_listener_facts keys w2) as (H1 & H2 & _).
  destruct (hotkey_listener keys w2) as [[rk wk] tk] eqn:Ek.
  cbn [result state fst snd] in H1, H2; subst rk.
  assert (Ek' : hotkey_listener keys (globals p2)
                = (Val (listener_end keys), wk, tk)) by exact Ek.
  assert (Hwk : wk = after_keys env keys (globals p))
    by (unfold after_keys; rewrite <- Hw2; exact H2).
  assert (Hfile : logger_file wk = logger_file (after_setup env (globals p)))
    by (rewrite Hwk; unfold after_keys; apply run_file).
  unfold ending_on. rewrite <- Hwk.
  destruct (listener_end keys) eqn:Hend.
  - destruct esc as [x|].
    + destruct (exit_listener_facts x wk) as [X1 X2].
      destruct (exit_listener x wk) as [[rx wx] tx] eqn:Ex.
      cbn [result state fst snd] in X1, X2; subst rx.
      match goal with
      | |- context [try_except ?m ?h p2] =>
          assert (Et : exists t,
                     try_except m h p2
                     = (Val (Exited (if exit_fails x wk then 1 else 0)%nat),
                        set_globals wx (set_globals wk p2), t));
          [|destruct Et as [t Et]; rewrite Et]
      end.
      { eexists. apply try_except_val.
        step_emit. unfold outcome.
        rewrite (@bind_val _ _ _ _ (ret tt) _ p2 tt p2 [] eq_refl).
        rewrite (bind_val _ (on_globals_val _ p2 _ _ _ Ek')).
        cbv beta iota.
        assert (Ex' : exit_listener x (globals (set_globals wk p2))
                      = (Val (if exit_fails x wk then 1 else 0)%nat, wx, tx))
          by exact Ex.
        rewrite (bind_val _ (on_globals_val _ _ _ _ _ Ex')).
        unfold ret; rewrite !prepend_run. reflexivity. }
      cbn [result state fst snd globals set_globals model p2 p1 set_model].
      rewrite X2, Hfile. auto.
    + match goal with
      | |- context [try_except ?m ?h p2] =>
          assert (Et : exists t,
                     try_except m h p2
                     = (Val StillRunning, set_globals wk p2, t));
          [|destruct Et as [t Et]; rewrite Et]
      end.
      { eexists. apply try_except_val.
        step_emit. unfold outcome.
        rewrite (@bind_val _ _ _ _ (ret tt) _ p2 tt p2 [] eq_refl).
        rewrite (bind_val _ (on_globals_val _ p2 _ _ _ Ek')).
        cbv beta iota. unfold ret; rewrite !prepend_run. reflexivity. }
      cbn [result state fst snd globals set_globals model p2 p1 set_model].
      rewrite Hfile. auto.
  - match goal with
    | |- context [try_except ?m ?h p2] =>
        assert (Et : exists t,
                   try_except m h p2
                   = (Val (Returned None), set_globals wk p2, t));
        [|destruct Et as [t Et]; rewrite Et]
    end.
    { eexists. apply try_except_val.
      step_emit. unfold outcome.
      rewrite (@bind_val _ _ _ _ (ret tt) _ p2 tt p2 [] eq_refl).
      rewrite (bind_val _ (on_globals_val _ p2 _ _ _ Ek')).
      cbv beta iota. unfold ret; rewrite !prepend_run. reflexivity. }
    cbn [result state fst snd globals set_globals model p2 p1 set_model].
    rewrite Hfile. auto.
  - match goal with
    | |- context [try_except ?m ?h p2] =>
        assert (Et : exists t,
                   try_except m h p2
                   = (Val (Returned (Some 0%nat)), set_globals wk p2, t));
        [|destruct Et as [t Et]; rewrite Et]
    end.
    { eexists. apply try_except_val.
      step_emit. unfold outcome.
      rewrite (@bind_val _ _ _ _ (ret tt) _ p2 tt p2 [] eq_refl).
      rewrite (bind_val _ (on_globals_val _ p2 _ _ _ Ek')).
      cbv beta iota. step_emit. unfold ret; rewrite !prepend_run. reflexivity. }
    cbn [result state fst snd globals set_globals model p2 p1 set_model].
    rewrite Hfile. auto.
Qed.


(** X19. Once [main] has loaded the model, the program has a session
    logger if and only if the session file could be created at start-up,
    and then the logger refers to that file: a logger whose file could not
    be created is dropped by [main], and no start, stop, chunk of audio,
    timer or exit changes which file the logger writes to. *)
Theorem program_logger_has_its_file :
  forall (env : MainEnv) (keys : list Key) (esc : option ExitEnv)
         (p : Program),
    load_model env = None ->
    let w := globals (state (main env keys esc p)) in
    logger_file w
    = (if creation_fails (logger_env env) (log_fs (globals p)) then None
       else Some (Some (LOG_FOLDER_PATH,
                        SessionLog.log_now (logger_env env))))
    /\ (forall lg, session_logger w = Some lg ->
                   is_some (SessionLog.session_file_path lg) = true)
    /\ (forall rs, logger_file (fst (run rs w)) = logger_file w).
Proof.
  intros env keys esc p Hload w. assert (H := main_run env keys esc p).
  cbv zeta in H. rewrite Hload in H. destruct H as (_ & Hf & _).
  fold w in Hf. rewrite after_setup_file in Hf.
  split; [exact Hf|]. split; [|intros rs; apply run_file].
  intros lg Hl. unfold logger_file in Hf; rewrite Hl in Hf; cbn in Hf.
  destruct (creation_fails (logger_env env) (log_fs (globals p)));
    [discriminate|].
  injection Hf as ->; reflexivity.
Qed.

Lemma program_logger_has_its_file_witness :
  load_model main_env_ok = None
  /\ logger_file
       (globals (state (main main_env_ok
                          [Toggle (mkPress None None env_ok)]
                          (Some exit_env_ok)
                          (program0 (SessionLog.mkLogFS false None) false))))
     = Some (Some (LOG_FOLDER_PATH, SessionLog.log_now quiet_log_env)).
Proof.
  split; [reflexivity|].
  exact (proj1 (program_logger_has_its_file main_env_ok
                  [Toggle (mkPress None None env_ok)] (Some exit_env_ok)
                  (program0 (SessionLog.mkLogFS false None) false) eq_refl)).
Defined.
